(** * skytemple-ssb-debugger: emulator thread, debug overlay and main controller

    A shallow embedding of
    - [skytemple_ssb_debugger/emulator_thread.py]      (module [EmulatorThread]),
    - [skytemple_ssb_debugger/controller/debug_overlay.py] (module [DebugOverlay]),
    - [skytemple_ssb_debugger/controller/main.py]      (modules [Main], [MainInput]
      and [FileTree]),
    - [skytemple_ssb_debugger/controller/code_editor.py] (module [CodeEditor]),
    followed by the properties proved about them.

    Python [int] is [Z]; Python [str] is [string]; [None]-able attributes are
    [option]; exceptions are values of [exn] carried by [Res].  The files on
    disk are a [gmap string string] from path to content. *)

From Stdlib Require Import ZArith QArith Lqa Lia Ascii String.
From stdpp Require Import base strings gmap list pretty.

Open Scope Z_scope.

(** ** Exceptions *)

(** The exception classes that the modelled code raises or catches.
    [except BaseException] catches all of them, [except RuntimeError] only the
    first. *)
Inductive exn : Type :=
  | RuntimeError (msg : string)
  | OSError (msg : string)
  | ValueError (msg : string)
  | TypeError (msg : string)
  | AttributeError (msg : string).

(** [str(ex)] *)
Definition exn_str (e : exn) : string :=
  match e with
  | RuntimeError m | OSError m | ValueError m | TypeError m | AttributeError m => m
  end.

Definition is_RuntimeError (e : exn) : bool :=
  match e with RuntimeError _ => true | _ => false end.

Inductive Res (A : Type) : Type :=
  | Ok (a : A)
  | Raise (e : exn).
Arguments Ok {A} a.
Arguments Raise {A} e.

(** ** emulator_thread.py *)

Module EmulatorThread.

Definition TICKS_PER_FRAME : Z := 17.
Definition FRAMES_PER_SECOND : Z := 60.

(** Threads are identified by a number; [current_thread()] is an input of the
    functions that ask for it. *)
Definition ThreadId := nat.

Section Thread.
(** The DeSmuME handle is opaque here. *)
Variable Emu : Type.

(** The attributes of [EmulatorThread] set in [__init__].
    [loop_scheduled] is the part of [self.loop] that matters for the main
    loop: the delays (in seconds) of the [_emu_cycle] handles that were
    handed to [call_soon_threadsafe] (delay 0) or [call_later] and did not
    run yet, oldest first. *)
Record t : Type := mk {
  _emu : Emu;
  _thread_instance : option ThreadId;
  registered_main_loop : bool;
  loop_scheduled : list Q;
  _display_buffer : option (list Z);
  _fps_frame_count : Z;
  _fps_sec_start : Z;
  _fps : Z;
  _ticks_prev_frame : Z;
  _ticks_cur_frame : Z
}.

(** [__init__]: nothing registered, nothing scheduled, all counters 0. *)
Definition init (e : Emu) : t :=
  mk e None false [] None 0 0 0 0 0.

Definition set_registered (b : bool) (s : t) : t :=
  mk (_emu s) (_thread_instance s) b (loop_scheduled s) (_display_buffer s)
     (_fps_frame_count s) (_fps_sec_start s) (_fps s)
     (_ticks_prev_frame s) (_ticks_cur_frame s).

Definition set_scheduled (q : list Q) (s : t) : t :=
  mk (_emu s) (_thread_instance s) (registered_main_loop s) q (_display_buffer s)
     (_fps_frame_count s) (_fps_sec_start s) (_fps s)
     (_ticks_prev_frame s) (_ticks_cur_frame s).

Definition set_display_buffer (d : list Z) (s : t) : t :=
  mk (_emu s) (_thread_instance s) (registered_main_loop s) (loop_scheduled s) (Some d)
     (_fps_frame_count s) (_fps_sec_start s) (_fps s)
     (_ticks_prev_frame s) (_ticks_cur_frame s).

Definition set_fps (count start fps : Z) (s : t) : t :=
  mk (_emu s) (_thread_instance s) (registered_main_loop s) (loop_scheduled s)
     (_display_buffer s) count start fps
     (_ticks_prev_frame s) (_ticks_cur_frame s).

Definition set_ticks (prev cur : Z) (s : t) : t :=
  mk (_emu s) (_thread_instance s) (registered_main_loop s) (loop_scheduled s)
     (_display_buffer s) (_fps_frame_count s) (_fps_sec_start s) (_fps s)
     prev cur.

(** [run]: the thread records itself as the emulator thread. *)
Definition run_sets_thread (me : ThreadId) (s : t) : t :=
  mk (_emu s) (Some me) (registered_main_loop s) (loop_scheduled s) (_display_buffer s)
     (_fps_frame_count s) (_fps_sec_start s) (_fps s)
     (_ticks_prev_frame s) (_ticks_cur_frame s).

(** The [emu] property.  [THREAD_DEBUG] is a constant of [threadsafe.py],
    taken as a parameter. *)
Definition emu (THREAD_DEBUG : bool) (current_thread : ThreadId) (s : t) : Res Emu :=
  if THREAD_DEBUG && negb (bool_decide (Some current_thread = _thread_instance s))
  then Raise (RuntimeError
         "The emulator may only be accessed from withing the emulator thread")
  else Ok (_emu s).

(** [register_main_loop], between [start_lock.acquire()] and [release()]. *)
Definition register_main_loop (s : t) : t :=
  if negb (registered_main_loop s)
  then set_registered true (set_scheduled (loop_scheduled s ++ [0%Q]) s)
  else s.

(** What one run of [_emu_cycle] sees of the emulator: the truth value of the
    handle, [is_running()], the successive results of [get_ticks()] and the
    frame returned by [display_buffer_as_rgbx()]. *)
Record EmuObs : Type := mkObs {
  obs_truthy : bool;
  obs_running : bool;
  obs_ticks : list Z;
  obs_display : list Z
}.

(** Reading the tick counter consumes one reading; with none left the
    computation has no result. *)
Definition Ticks (A : Type) : Type := list Z → option (A * list Z).
Definition tret {A} (a : A) : Ticks A := λ ts, Some (a, ts).
Definition tbind {A B} (m : Ticks A) (k : A → Ticks B) : Ticks B :=
  λ ts, match m ts with Some (a, ts') => k a ts' | None => None end.
Definition get_ticks : Ticks Z :=
  λ ts, match ts with [] => None | x :: r => Some (x, r) end.

(** Lines 140-148, under [fps_frame_count_lock]. *)
Definition fps_count (s : t) : Ticks t :=
  let count := _fps_frame_count s + 1 in
  tbind (if _fps_sec_start s =? 0 then get_ticks else tret (_fps_sec_start s))
    (λ start,
      tbind get_ticks (λ now,
        if now - start >=? 1000
        then tbind get_ticks (λ start', tret (set_fps 0 start' count s))
        else tret (set_fps count start (_fps s) s))).

(** Lines 154-156: poll the tick counter until a frame's worth of ticks has
    passed since the previous frame. *)
Fixpoint spin (prev cur : Z) (ts : list Z) {struct ts} : option (Z * list Z) :=
  if cur - prev <? TICKS_PER_FRAME
  then match ts with
       | [] => None
       | x :: r => spin prev x r
       end
  else Some (cur, ts).

(** Lines 159-162.  Python computes this in binary floating point; the
    model is exact over the rationals.  For integer tick counts the value
    before the clamp is never within 3/10000 of zero, so the branch taken is
    the same. *)
Definition ticks_to_wait (cur prev : Z) : Q :=
  let w := (1 / inject_Z FRAMES_PER_SECOND
            - inject_Z (cur - prev - TICKS_PER_FRAME + 2) / 1000)%Q in
  match (w ?= 0)%Q with
  | Lt => 0%Q
  | _ => w
  end.

(** Lines 150-166: [emu.cycle()], the wait for the frame's ticks, the
    delay, and [call_later] with that delay. *)
Definition cycle_tail (s1 : t) : Ticks t :=
  tbind get_ticks (λ cur0,
    tbind (spin (_ticks_prev_frame s1) cur0) (λ cur,
      let w := ticks_to_wait cur (_ticks_prev_frame s1) in
      tbind get_ticks (λ prev',
        tret (set_scheduled (loop_scheduled s1 ++ [w]) (set_ticks prev' cur s1))))).

(** [_emu_cycle], run on the emulator thread.  The result is the callback's
    return value and the new state. *)
Definition _emu_cycle (o : EmuObs) (s : t) : option (bool * t) :=
  if negb (obs_truthy o) then Some (false, set_registered false s)
  else if obs_running o then
    match tbind (fps_count s) cycle_tail (obs_ticks o) with
    | Some (s2, _) => Some (true, set_display_buffer (obs_display o) s2)
    | None => None
    end
  else Some (false, set_registered false (set_display_buffer (obs_display o) s)).

(** The event loop takes the oldest scheduled [_emu_cycle] handle off the
    loop and runs it; with nothing scheduled nothing happens. *)
Definition loop_run_cycle (o : EmuObs) (s : t) : option t :=
  match loop_scheduled s with
  | [] => Some s
  | _ :: rest => snd <$> _emu_cycle o (set_scheduled rest s)
  end.

(** What can happen to the thread object as far as the main loop goes. *)
Inductive Event : Type :=
  | CallRegister
  | LoopRuns (o : EmuObs).

Definition step (ev : Event) (s : t) : option t :=
  match ev with
  | CallRegister => Some (register_main_loop s)
  | LoopRuns o => loop_run_cycle o s
  end.

Fixpoint steps (evs : list Event) (s : t) : option t :=
  match evs with
  | [] => Some s
  | ev :: evs' => match step ev s with
                  | Some s' => steps evs' s'
                  | None => None
                  end
  end.

(** The number of cycle chains alive: one per scheduled handle. *)
Definition chains (s : t) : nat := length (loop_scheduled s).

(** The loop holds one [_emu_cycle] handle exactly when the flag is set. *)
Definition consistent (s : t) : Prop :=
  chains s = if registered_main_loop s then 1%nat else 0%nat.

End Thread.

Arguments mk {Emu}.
Arguments _emu {Emu}.
Arguments _thread_instance {Emu}.
Arguments registered_main_loop {Emu}.
Arguments loop_scheduled {Emu}.
Arguments _display_buffer {Emu}.
Arguments _fps_frame_count {Emu}.
Arguments _fps_sec_start {Emu}.
Arguments _fps {Emu}.
Arguments _ticks_prev_frame {Emu}.
Arguments _ticks_cur_frame {Emu}.
Arguments init {Emu}.
Arguments set_registered {Emu}.
Arguments set_scheduled {Emu}.
Arguments set_display_buffer {Emu}.
Arguments set_fps {Emu}.
Arguments set_ticks {Emu}.
Arguments run_sets_thread {Emu}.
Arguments emu {Emu}.
Arguments register_main_loop {Emu}.
Arguments fps_count {Emu}.
Arguments _emu_cycle {Emu}.
Arguments loop_run_cycle {Emu}.
Arguments step {Emu}.
Arguments steps {Emu}.
Arguments chains {Emu}.
Arguments cycle_tail {Emu}.
Arguments consistent {Emu}.

End EmulatorThread.

(** ** controller/debug_overlay.py *)

Module DebugOverlay.

Definition REDRAW_DELAY : Z := 2.

(** The four fill colours used by [draw]. *)
Inductive Color : Type :=
  | COLOR_ACTOR
  | COLOR_OBJECTS
  | COLOR_PERFORMER
  | COLOR_EVENTS.

(** A bounding box as returned by [get_bounding_box_camera]:
    [(bbox[0], bbox[1], bbox[2], bbox[3])]. *)
Definition BBox : Type := Z * Z * Z * Z.

(** One [ctx.set_source_rgba; ctx.rectangle; ctx.fill] group. *)
Record Rect : Type := mkRect {
  rect_color : Color;
  rect_x : Z;
  rect_y : Z;
  rect_width : Z;
  rect_height : Z
}.

(** [ctx.rectangle(bbox[0], bbox[1], bbox[2] - bbox[0], bbox[3] - bbox[1])] *)
Definition rect_of (c : Color) (b : BBox) : Rect :=
  match b with
  | (b0, b1, b2, b3) => mkRect c b0 b1 (b2 - b0) (b3 - b1)
  end.

(** [not_none]: the elements of an iterable that are not [None]. *)
Fixpoint not_none {A : Type} (it : list (option A)) : list A :=
  match it with
  | [] => []
  | None :: r => not_none r
  | Some i :: r => i :: not_none r
  end.

Section Overlay.
(** Entities and the map of the ground engine are opaque, and so is the
    method that computes an entity's bounding box. *)
Variables Entity Map : Type.
Variable get_bounding_box_camera : Entity → Map → BBox.

(** What [_update_cache] reads of [debugger.ground_engine_state]. *)
Record GroundEngineState : Type := mkGes {
  running : bool;
  actors : list (option Entity);
  objects : list (option Entity);
  performers : list (option Entity);
  events : list (option Entity);
  map : Map
}.

(** The attributes of [DebugOverlayController].  [debugger] records
    whether [self.debugger] is truthy. *)
Record t : Type := mk {
  debugger : bool;
  enabled : bool;
  visible : bool;
  _refresh_cache : bool;
  _cache_running : bool;
  _cache_redrawing_registered : bool;
  _actor_bbox_cache : list BBox;
  _object_bbox_cache : list BBox;
  _perf_bbox_cache : list BBox;
  _event_bbox_cache : list BBox
}.

(** [__init__] *)
Definition init : t := mk true false false true false false [] [] [] [].

(** The four bounding-box collections. *)
Definition caches (c : t) : list BBox * list BBox * list BBox * list BBox :=
  (_actor_bbox_cache c, _object_bbox_cache c, _perf_bbox_cache c, _event_bbox_cache c).

Definition toggle (state : bool) (c : t) : t :=
  mk (debugger c) state (visible c) (_refresh_cache c) (_cache_running c)
     (_cache_redrawing_registered c)
     (_actor_bbox_cache c) (_object_bbox_cache c) (_perf_bbox_cache c) (_event_bbox_cache c).

Definition set_refresh_cache (b : bool) (c : t) : t :=
  mk (debugger c) (enabled c) (visible c) b (_cache_running c)
     (_cache_redrawing_registered c)
     (_actor_bbox_cache c) (_object_bbox_cache c) (_perf_bbox_cache c) (_event_bbox_cache c).

Definition set_cache_running (b : bool) (c : t) : t :=
  mk (debugger c) (enabled c) (visible c) (_refresh_cache c) b
     (_cache_redrawing_registered c)
     (_actor_bbox_cache c) (_object_bbox_cache c) (_perf_bbox_cache c) (_event_bbox_cache c).

Definition set_redrawing_registered (b : bool) (c : t) : t :=
  mk (debugger c) (enabled c) (visible c) (_refresh_cache c) (_cache_running c) b
     (_actor_bbox_cache c) (_object_bbox_cache c) (_perf_bbox_cache c) (_event_bbox_cache c).

Definition set_caches (a o p e : list BBox) (c : t) : t :=
  mk (debugger c) (enabled c) (visible c) (_refresh_cache c) (_cache_running c)
     (_cache_redrawing_registered c) a o p e.

(** [break_pulled] and [break_released] *)
Definition break_pulled (c : t) : t := set_refresh_cache false c.
Definition break_released (c : t) : t := set_refresh_cache true c.

(** The collections rebuilt from the ground engine state, lines 114-125. *)
Definition bboxes_of (ges : GroundEngineState) (l : list (option Entity)) : list BBox :=
  (λ e, get_bounding_box_camera e (map ges)) <$> not_none l.

(** The part of [_update_cache] under [debug_overlay_lock]. *)
Definition refresh_locked (ges : GroundEngineState) (c : t) : t :=
  let c1 := set_cache_running (running ges) c in
  if _cache_running c1
  then set_caches (bboxes_of ges (actors ges)) (bboxes_of ges (objects ges))
                  (bboxes_of ges (performers ges)) (bboxes_of ges (events ges)) c1
  else c1.

(** The controller together with its coroutines on the emulator thread's
    loop: [pending] counts the [_update_cache()] coroutines submitted with
    [threadsafe_emu_nonblocking_coro] that did not start yet, [sleeping]
    those suspended in [asyncio.sleep]. *)
Record Sys : Type := mkSys {
  ctl : t;
  pending : nat;
  sleeping : nat
}.

Definition inflight (s : Sys) : nat := (pending s + sleeping s)%nat.

(** [_update_cache] from its start to the [await] or to its end: the
    refresh, then either suspension in the sleep or the end of the chain. *)
Definition _update_cache (ges : GroundEngineState) (s : Sys) : Sys :=
  let c := refresh_locked ges (ctl s) in
  if _refresh_cache c
  then mkSys c (pending s) (S (sleeping s))
  else mkSys (set_redrawing_registered false c) (pending s) (sleeping s).

(** [_update_cache] after the sleep: it submits the next [_update_cache()]
    and ends. *)
Definition _update_cache_resume (s : Sys) : Sys :=
  mkSys (ctl s) (S (pending s)) (Nat.pred (sleeping s)).

Definition drawn (c : t) : list Rect :=
  (rect_of COLOR_ACTOR <$> _actor_bbox_cache c)
  ++ (rect_of COLOR_OBJECTS <$> _object_bbox_cache c)
  ++ (rect_of COLOR_PERFORMER <$> _perf_bbox_cache c)
  ++ (rect_of COLOR_EVENTS <$> _event_bbox_cache c).

(** [draw]: the rectangles filled on [ctx], in order, and the new state. *)
Definition draw (display_id : Z) (s : Sys) : list Rect * Sys :=
  let c := ctl s in
  if (display_id =? 1) && enabled c && debugger c then
    let s1 :=
      if _refresh_cache c && negb (_cache_redrawing_registered c)
      then mkSys (set_redrawing_registered true c) (S (pending s)) (sleeping s)
      else s in
    (if _cache_running (ctl s1) then drawn (ctl s1) else [], s1)
  else ([], s).

(** What can happen to the overlay: calls of its methods, the loop starting
    a submitted [_update_cache()] while the ground engine state is [ges],
    and a sleep running out. *)
Inductive Event : Type :=
  | CallDraw (display_id : Z)
  | CallToggle (state : bool)
  | CallBreakPulled
  | CallBreakReleased
  | LoopStartsUpdate (ges : GroundEngineState)
  | SleepEnds.

Definition step (ev : Event) (s : Sys) : Sys :=
  match ev with
  | CallDraw d => snd (draw d s)
  | CallToggle b => mkSys (toggle b (ctl s)) (pending s) (sleeping s)
  | CallBreakPulled => mkSys (break_pulled (ctl s)) (pending s) (sleeping s)
  | CallBreakReleased => mkSys (break_released (ctl s)) (pending s) (sleeping s)
  | LoopStartsUpdate ges =>
      match pending s with
      | O => s
      | S n => _update_cache ges (mkSys (ctl s) n (sleeping s))
      end
  | SleepEnds =>
      match sleeping s with
      | O => s
      | S _ => _update_cache_resume s
      end
  end.

Definition steps (evs : list Event) (s : Sys) : Sys := foldl (λ s ev, step ev s) s evs.

Definition is_release (ev : Event) : bool :=
  match ev with CallBreakReleased => true | _ => false end.

(** The event is not a refresh that finds the ground engine running. *)
Definition no_running_refresh (ev : Event) : bool :=
  match ev with LoopStartsUpdate ges => negb (running ges) | _ => true end.

End Overlay.

Arguments mkGes {Entity Map}.
Arguments running {Entity Map}.
Arguments actors {Entity Map}.
Arguments objects {Entity Map}.
Arguments performers {Entity Map}.
Arguments events {Entity Map}.
Arguments map {Entity Map}.
Arguments bboxes_of {Entity Map}.
Arguments refresh_locked {Entity Map}.
Arguments _update_cache {Entity Map}.
Arguments draw : clear implicits.
Arguments CallDraw {Entity Map}.
Arguments CallToggle {Entity Map}.
Arguments CallBreakPulled {Entity Map}.
Arguments CallBreakReleased {Entity Map}.
Arguments LoopStartsUpdate {Entity Map}.
Arguments SleepEnds {Entity Map}.
Arguments step {Entity Map}.
Arguments steps {Entity Map}.
Arguments is_release {Entity Map}.
Arguments no_running_refresh {Entity Map}.

(** A concrete instance: an entity is its own bounding box and the map is
    trivial. *)
Definition box_ges (r : bool) (a : list (option BBox)) : GroundEngineState BBox unit :=
  mkGes r a [] [] [] tt.
Definition box_bbox (e : BBox) (_ : unit) : BBox := e.

End DebugOverlay.

(** ** controller/main.py *)

Module Main.

Definition SAVESTATE_EXT_DESUME : string := "ds".
Definition SAVESTATE_EXT_GROUND_ENGINE : string := "ge.json".

(** *** os.path (POSIX) *)

(** [os.path.basename(p)]: what follows the last slash. *)
Fixpoint basename_from (acc p : string) : string :=
  match p with
  | EmptyString => acc
  | String c r =>
      if bool_decide (c = "/"%char) then basename_from EmptyString r
      else basename_from (acc +:+ String c EmptyString) r
  end.
Definition basename (p : string) : string := basename_from EmptyString p.

Fixpoint ends_with_slash (a : string) : bool :=
  match a with
  | EmptyString => false
  | String c EmptyString => bool_decide (c = "/"%char)
  | String _ r => ends_with_slash r
  end.

Definition starts_with_slash (b : string) : bool :=
  match b with
  | String c _ => bool_decide (c = "/"%char)
  | EmptyString => false
  end.

(** [os.path.join(a, b)] *)
Definition path_join (a b : string) : string :=
  if starts_with_slash b then b
  else if bool_decide (a = EmptyString) || ends_with_slash a then a +:+ b
  else a +:+ "/" +:+ b.

(** [__init__]: [self.config_dir = os.path.join(skytemple_config_dir(), 'debugger')] *)
Definition config_dir_init (skytemple_config_dir : string) : string :=
  path_join skytemple_config_dir "debugger".

(** [f'{rom_basename}.save.{i}.{ext}'] joined to [config_dir]. *)
Definition savestate_path (config_dir rom_filename : string) (i : Z) (ext : string) : string :=
  path_join config_dir (basename rom_filename +:+ ".save." +:+ pretty i +:+ "." +:+ ext).

(** *** model/breakpoint_state.py *)

(** A release hook is a bound method.  [HookMainBreakReleased] is
    [MainController.break_released], registered in
    [MainController.break_pulled]; the hooks of other controllers are named. *)
Inductive Hook : Type :=
  | HookMainBreakReleased
  | HookOther (name : string).

Inductive BreakpointPhase : Type :=
  | Stopped
  | Released
  | HardFailed.

(** Modelled from the spec: [BreakpointState] of [model/breakpoint_state.py],
    which is not part of the sources at hand: the hanger of the halted
    script, a stopped flag that is left either by a normal release or by a
    forced teardown which sets the hard-failed flag, and the ordered list of
    release hooks. *)
Record BreakpointState : Type := mkBreakpointState {
  hanger_id : Z;
  phase : BreakpointPhase;
  release_hooks : list Hook
}.

(** Modelled from the spec: [BreakpointState.is_stopped]. *)
Definition is_stopped (bs : BreakpointState) : bool :=
  match phase bs with Stopped => true | _ => false end.

Definition set_phase (p : BreakpointPhase) (bs : BreakpointState) : BreakpointState :=
  mkBreakpointState (hanger_id bs) p (release_hooks bs).

(** *** The widgets of the two emulator control buttons *)

Inductive PlayStopImage : Type := img_play | img_stop.
Inductive PauseImage : Type := img_pause | img_play2.

(** The image each button currently holds ([get_parent()] of an image is
    truthy exactly when a button holds it). *)
Record Buttons : Type := mkButtons {
  emulator_controls_playstop : PlayStopImage;
  emulator_controls_pause : PauseImage
}.

Definition _set_buttons_running (b : Buttons) : Buttons :=
  mkButtons
    (match emulator_controls_playstop b with img_play => img_stop | x => x end)
    (match emulator_controls_pause b with img_play2 => img_pause | x => x end).

Definition _set_buttons_stopped (b : Buttons) : Buttons :=
  mkButtons
    (match emulator_controls_playstop b with img_stop => img_play | x => x end)
    (match emulator_controls_pause b with img_play2 => img_pause | x => x end).

Definition _set_buttons_paused (b : Buttons) : Buttons :=
  mkButtons
    (match emulator_controls_playstop b with img_play => img_stop | x => x end)
    (match emulator_controls_pause b with img_pause => img_play2 | x => x end).

Inductive ButtonsMode : Type := ButtonsRunning | ButtonsStopped | ButtonsPaused.

(** *** Effects, in the order in which they happen *)

Inductive Effect : Type :=
  | EmuIsRunning                          (* threadsafe_emu: emu.is_running() *)
  | EmuOpen (fn : string)                 (* threadsafe_emu: emu.open(fn) *)
  | EmuReset                              (* threadsafe_emu: emu.reset() *)
  | EmuPause                              (* threadsafe_emu: emu.pause() *)
  | EmuDestroy                            (* threadsafe_emu: emu.destroy() *)
  | EmuVolumeSet (v : Z)                  (* threadsafe_emu_nonblocking: emu.volume_set(v) *)
  | SavestateSaveFile (path : string)     (* threadsafe_emu: emu.savestate.save_file(path) *)
  | SavestateLoadFile (path : string)     (* threadsafe_emu: emu.savestate.load_file(path) *)
  | OpenWrite (path : string)             (* open(path, 'w') *)
  | OpenRead (path : string)              (* open(path, 'r') *)
  | GesSerialize                          (* json.dump(ground_engine_state.serialize(), f) *)
  | GesDeserialize (doc : string)         (* ground_engine_state.deserialize(json.load(f)) *)
  | GesReset                              (* ground_engine_state.reset() *)
  | FailHard (bs : BreakpointState)       (* breakpoint_state.fail_hard() *)
  | ReleaseHook (h : Hook)                (* a release hook is called *)
  | SetButtons (m : ButtonsMode)          (* _set_buttons_running/_stopped/_paused *)
  | TogglePausedDebuggingFeatures (on_off : bool)
  | VariableSync                          (* variable_controller.sync() *)
  | GroundStateSync                       (* ground_state_controller.sync(...) *)
  | SyncBreakHanger                       (* ground_state_controller.sync_break_hanger() *)
  | OverlayBreakReleased                  (* debug_overlay.break_released() *)
  | WriteInfoBar (text : string)
  | ClearInfoBar
  | Print (text : string)
  | MessageDialog (title text : string)   (* Gtk.MessageDialog(...).run() *)
  | ThreadStop                            (* emu_thread.stop() *)
  | GtkMainQuit.

(** *** The emulator and the ground engine state, as interfaces *)

(** What the controller uses of [desmume.emulator.DeSmuME].  A call that can
    raise returns the exception next to the state it leaves. *)
Class Emulator (E : Type) : Type := {
  is_running : E → bool;
  open : string → E → E * option exn;
  reset : E → E;
  pause : E → E;
  destroy : E → E;
  (** [savestate.save_file(path)]: the snapshot written to [path], or the
      exception raised. *)
  savestate_save_file : string → E → Res string;
  (** [savestate.load_file(path)], given the content of the file at [path]
      if there is one. *)
  savestate_load_file : option string → E → E * option exn
}.

(** Modelled from the spec: what the controller uses of [GroundEngineState]
    ([model/ground_engine_state.py], not part of the sources at hand).
    [serialize] "must be pure data", so it returns the document (here already
    as the JSON text that [json.dump] writes) or raises, and leaves the state
    as it is; [deserialize] replaces the state and may raise; [reset] clears
    it. *)
Class GroundEngine (G : Type) : Type := {
  serialize_json : G → Res string;
  deserialize_json : string → G → G * option exn;
  ges_reset : G → G
}.

Section Controller.
Context {E G : Type} `{!Emulator E} `{!GroundEngine G}.

(** The attributes of [MainController] that the modelled methods use, the
    objects they reach, the files on disk and the effects so far.
    [emu_thread] records whether [self.emu_thread] is set; the debugger and
    the overlay exist exactly then ([__init__]). *)
Record World : Type := mkWorld {
  emu_thread : bool;
  breakpoint_state : option BreakpointState;
  _emu_is_running : bool;
  _stopped : bool;
  rom_filename : option string;
  config_dir : string;
  buttons : Buttons;
  volume_active : bool;          (* emulator_controls_volume.get_active() *)
  emu : E;
  ground_engine_state : option G;
  disk : gmap string string;
  unwritable : gset string;      (* paths that open(path, 'w') refuses *)
  log : list Effect
}.

Definition set_breakpoint_state (v : option BreakpointState) (w : World) : World :=
  mkWorld (emu_thread w) v (_emu_is_running w) (_stopped w) (rom_filename w)
    (config_dir w) (buttons w) (volume_active w) (emu w) (ground_engine_state w)
    (disk w) (unwritable w) (log w).
Definition set__emu_is_running (v : bool) (w : World) : World :=
  mkWorld (emu_thread w) (breakpoint_state w) v (_stopped w) (rom_filename w)
    (config_dir w) (buttons w) (volume_active w) (emu w) (ground_engine_state w)
    (disk w) (unwritable w) (log w).
Definition set__stopped (v : bool) (w : World) : World :=
  mkWorld (emu_thread w) (breakpoint_state w) (_emu_is_running w) v (rom_filename w)
    (config_dir w) (buttons w) (volume_active w) (emu w) (ground_engine_state w)
    (disk w) (unwritable w) (log w).
Definition set_buttons (v : Buttons) (w : World) : World :=
  mkWorld (emu_thread w) (breakpoint_state w) (_emu_is_running w) (_stopped w)
    (rom_filename w) (config_dir w) v (volume_active w) (emu w)
    (ground_engine_state w) (disk w) (unwritable w) (log w).
Definition set_emu (v : E) (w : World) : World :=
  mkWorld (emu_thread w) (breakpoint_state w) (_emu_is_running w) (_stopped w)
    (rom_filename w) (config_dir w) (buttons w) (volume_active w) v
    (ground_engine_state w) (disk w) (unwritable w) (log w).
Definition set_ground_engine_state (v : option G) (w : World) : World :=
  mkWorld (emu_thread w) (breakpoint_state w) (_emu_is_running w) (_stopped w)
    (rom_filename w) (config_dir w) (buttons w) (volume_active w) (emu w) v
    (disk w) (unwritable w) (log w).
Definition set_disk (v : gmap string string) (w : World) : World :=
  mkWorld (emu_thread w) (breakpoint_state w) (_emu_is_running w) (_stopped w)
    (rom_filename w) (config_dir w) (buttons w) (volume_active w) (emu w)
    (ground_engine_state w) v (unwritable w) (log w).
Definition set_log (v : list Effect) (w : World) : World :=
  mkWorld (emu_thread w) (breakpoint_state w) (_emu_is_running w) (_stopped w)
    (rom_filename w) (config_dir w) (buttons w) (volume_active w) (emu w)
    (ground_engine_state w) (disk w) (unwritable w) v.

(** *** A state monad with exceptions *)

Definition M (A : Type) : Type := World → Res A * World.

Definition ret {A} (a : A) : M A := λ w, (Ok a, w).
Definition raise {A} (e : exn) : M A := λ w, (Raise e, w).
Definition bind {A B} (m : M A) (k : A → M B) : M B :=
  λ w, match m w with
       | (Ok a, w') => k a w'
       | (Raise e, w') => (Raise e, w')
       end.
(** [try: m except <classes accepted by catches> as ex: handler ex] *)
Definition try_except {A} (m : M A) (catches : exn → bool) (handler : exn → M A) : M A :=
  λ w, match m w with
       | (Ok a, w') => (Ok a, w')
       | (Raise e, w') => if catches e then handler e w' else (Raise e, w')
       end.
Definition BaseException (e : exn) : bool := true.

Definition get {A} (f : World → A) : M A := λ w, (Ok (f w), w).
Definition modify (f : World → World) : M unit := λ w, (Ok tt, f w).
Definition effect (e : Effect) : M unit := modify (λ w, set_log (log w ++ [e]) w).
Definition when (b : bool) (m : M unit) : M unit := if b then m else ret tt.

Notation "x <~ m >> k" := (bind m (λ x, k))
  (at level 62, m at next level, right associativity).
Notation "m >> k" := (bind m (λ _, k))
  (at level 62, right associativity).

(** *** Calls into the emulator thread *)

(** Modelled from the spec: [threadsafe_emu] of [threadsafe.py], which is
    not part of the sources at hand, called as
    [threadsafe_emu(self.emu_thread, lambda: f(self.emu_thread.emu))]: the
    call "blocks the caller until it runs, returns its result or propagates
    its failure".  [what] is logged and [f] runs on the emulator.  With
    [self.emu_thread] being [None] the attribute access fails. *)
Definition threadsafe_emu {A} (what : Effect) (f : E → Res A * E) : M A :=
  λ w, if emu_thread w then
         let w1 := set_log (log w ++ [what]) w in
         let '(r, e') := f (emu w1) in (r, set_emu e' w1)
       else (Raise (AttributeError "'NoneType' object has no attribute 'emu'"), w).

Definition total (f : E → E) : E → Res unit * E := λ e, (Ok tt, f e).
Definition fallible (f : E → E * option exn) : E → Res unit * E :=
  λ e, match f e with
       | (e', None) => (Ok tt, e')
       | (e', Some ex) => (Raise ex, e')
       end.

Definition emu_is_running_call : M bool :=
  threadsafe_emu EmuIsRunning (λ e, (Ok (is_running e), e)).

(** *** Small UI methods *)

Definition do_set_buttons (m : ButtonsMode) : M unit :=
  modify (λ w, set_buttons
                 (match m with
                  | ButtonsRunning => _set_buttons_running
                  | ButtonsStopped => _set_buttons_stopped
                  | ButtonsPaused => _set_buttons_paused
                  end (buttons w)) w) >>
  effect (SetButtons m).

Definition toggle_paused_debugging_features (on_off : bool) : M unit :=
  effect (TogglePausedDebuggingFeatures on_off).

Definition load_debugger_state : M unit :=
  toggle_paused_debugging_features true >>
  effect VariableSync >>
  effect GroundStateSync.

(** *** The [emu_is_running] property and its setter *)

Definition emu_is_running (w : World) : bool :=
  if match breakpoint_state w with
     | Some bs => is_stopped bs
     | None => false
     end
  then false
  else _emu_is_running w.

Definition emu_is_running_setter (value : bool) (w : World) : World :=
  set__emu_is_running value w.

(** *** Release of a breakpoint *)

(** [break_released], the hook that [break_pulled] registers. *)
Definition break_released : M unit :=
  v <~ get volume_active >>
  when v (effect (EmuVolumeSet 100)) >>
  modify (set_breakpoint_state None) >>
  do_set_buttons ButtonsRunning >>
  toggle_paused_debugging_features false >>
  effect ClearInfoBar >>
  effect SyncBreakHanger >>
  effect OverlayBreakReleased.

Definition call_hook (h : Hook) : M unit :=
  effect (ReleaseHook h) >>
  match h with
  | HookMainBreakReleased => break_released
  | HookOther _ => ret tt
  end.

Fixpoint call_hooks (hs : list Hook) : M unit :=
  match hs with
  | [] => ret tt
  | h :: r => call_hook h >> call_hooks r
  end.

(** Modelled from the spec: [BreakpointState.fail_hard], called on
    [self.breakpoint_state]: it "marks the current BreakpointState
    hard-failed and fires release hooks immediately", in registration
    order. *)
Definition fail_hard : M unit :=
  b <~ get breakpoint_state >>
  match b with
  | None => raise (AttributeError "'NoneType' object has no attribute 'fail_hard'")
  | Some bs =>
      effect (FailHard bs) >>
      modify (set_breakpoint_state (Some (set_phase HardFailed bs))) >>
      call_hooks (release_hooks bs)
  end.

(** [if self.breakpoint_state: self.breakpoint_state.fail_hard()] *)
Definition fail_hard_if_set : M unit :=
  b <~ get breakpoint_state >>
  match b with
  | Some _ => fail_hard
  | None => ret tt
  end.

(** *** Reset, stop and quit *)

Definition emu_reset : M unit :=
  t <~ get emu_thread >>
  when t (
    fail_hard_if_set >>
    g <~ get ground_engine_state >>
    match g with
    | Some g0 => effect GesReset >>
                 modify (set_ground_engine_state (Some (ges_reset g0)))
    | None => ret tt
    end >>
    fn <~ get rom_filename >>
    try_except
      (match fn with
       | Some rom => threadsafe_emu (EmuOpen rom) (fallible (open rom))
       | None => raise (TypeError "argument must be str, not NoneType")
       end >>
       r <~ emu_is_running_call >>
       modify (emu_is_running_setter r))
      is_RuntimeError
      (λ _, effect (MessageDialog "Error!"
                      ("Emulator failed to load: " +:+ default "None" fn)))).

Definition emu_stop : M unit :=
  modify (set__stopped true) >>
  t <~ get emu_thread >>
  when t (
    fail_hard_if_set >>
    threadsafe_emu EmuReset (total reset) >>
    threadsafe_emu EmuPause (total pause) >>
    modify (emu_is_running_setter false) >>
    do_set_buttons ButtonsStopped >>
    load_debugger_state >>
    effect (WriteInfoBar "The game is stopped.")).

Definition gtk_main_quit : M unit :=
  fail_hard_if_set >>
  threadsafe_emu EmuDestroy (total destroy) >>
  effect ThreadStop >>
  effect GtkMainQuit.

Definition on_main_window_destroy : M unit :=
  fail_hard_if_set >>
  threadsafe_emu EmuDestroy (total destroy) >>
  effect ThreadStop >>
  effect GtkMainQuit.

(** *** Savestates *)

(** [self.debugger.ground_engine_state.<attr>]: the debugger exists exactly
    when the emulator thread does. *)
Definition the_ground_engine_state (attr : string) : M G :=
  t <~ get emu_thread >>
  if t then
    g <~ get ground_engine_state >>
    match g with
    | Some g0 => ret g0
    | None => raise (AttributeError
                       ("'NoneType' object has no attribute '" +:+ attr +:+ "'"))
    end
  else raise (AttributeError "'NoneType' object has no attribute 'ground_engine_state'").

(** [os.path.basename(self.rom_filename)] *)
Definition rom_basename_source : M string :=
  fn <~ get rom_filename >>
  match fn with
  | Some rom => ret rom
  | None => raise (TypeError "expected str, bytes or os.PathLike object, not NoneType")
  end.

(** [open(path, 'w')]: the file is created or truncated, unless the path
    cannot be written. *)
Definition open_write (path : string) : M unit :=
  effect (OpenWrite path) >>
  u <~ get unwritable >>
  if bool_decide (path ∈ u)
  then raise (OSError ("[Errno 13] Permission denied: '" +:+ path +:+ "'"))
  else modify (λ w, set_disk (<[path := EmptyString]> (disk w)) w).

(** [open(path, 'r')] and reading the file to its end. *)
Definition open_read (path : string) : M string :=
  effect (OpenRead path) >>
  d <~ get disk >>
  match d !! path with
  | Some text => ret text
  | None => raise (OSError ("[Errno 2] No such file or directory: '" +:+ path +:+ "'"))
  end.

Definition savestate (i : Z) : M unit :=
  try_except
    (rom <~ rom_basename_source >>
     cfg <~ get config_dir >>
     let desmume_savestate_path := savestate_path cfg rom i SAVESTATE_EXT_DESUME in
     let ground_engine_savestate_path :=
       savestate_path cfg rom i SAVESTATE_EXT_GROUND_ENGINE in
     open_write ground_engine_savestate_path >>
     g <~ the_ground_engine_state "serialize" >>
     effect GesSerialize >>
     match serialize_json g with
     | Ok text =>
         modify (λ w, set_disk (<[ground_engine_savestate_path := text]> (disk w)) w)
     | Raise ex => raise ex
     end >>
     blob <~ threadsafe_emu (SavestateSaveFile desmume_savestate_path)
               (λ e, (savestate_save_file desmume_savestate_path e, e)) >>
     modify (λ w, set_disk (<[desmume_savestate_path := blob]> (disk w)) w))
    BaseException
    (λ err, effect (MessageDialog "Unable to save savestate!" (exn_str err))).

Definition loadstate (i : Z) : M unit :=
  rom <~ rom_basename_source >>
  cfg <~ get config_dir >>
  let desmume_savestate_path := savestate_path cfg rom i SAVESTATE_EXT_DESUME in
  let ground_engine_savestate_path :=
    savestate_path cfg rom i SAVESTATE_EXT_GROUND_ENGINE in
  d <~ get disk >>
  match d !! ground_engine_savestate_path with
  | Some _ =>
      try_except
        (was_running <~ emu_is_running_call >>
         modify (set__stopped false) >>
         emu_reset >>
         d' <~ get disk >>
         threadsafe_emu (SavestateLoadFile desmume_savestate_path)
           (fallible (savestate_load_file (d' !! desmume_savestate_path))) >>
         text <~ open_read ground_engine_savestate_path >>
         g <~ the_ground_engine_state "deserialize" >>
         effect (GesDeserialize text) >>
         (let '(g', ex) := deserialize_json text g in
          modify (set_ground_engine_state (Some g')) >>
          match ex with Some e => raise e | None => ret tt end) >>
         r <~ emu_is_running_call >>
         modify (emu_is_running_setter r) >>
         load_debugger_state >>
         if was_running : bool
         then do_set_buttons ButtonsRunning
         else do_set_buttons ButtonsPaused)
        BaseException
        (λ ex, effect (Print "Savestate load error:") >>
               effect (Print (exn_str ex)) >>
               effect (MessageDialog "Unable to load savestate!" (exn_str ex)))
  | None => ret tt
  end.

(** The effects a run adds to the log. *)
Definition new_effects (before after : World) : list Effect :=
  drop (length (log before)) (log after).

(** *** Pause *)

Definition emu_pause : M unit :=
  b <~ get breakpoint_state >>
  if match b with
     | Some bs => is_stopped bs
     | None => false
     end
  then ret tt
  else
    r <~ get emu_is_running >>
    when r (threadsafe_emu EmuPause (total pause)) >>
    load_debugger_state >>
    effect (WriteInfoBar "The game is paused.") >>
    do_set_buttons ButtonsPaused >>
    modify (emu_is_running_setter false).

(** The methods of [MainController] that reset the ROM, stop the emulator,
    load a savestate or close the application. *)
Inductive Teardown : Type :=
  | CallEmuReset
  | CallEmuStop
  | CallLoadstate (i : Z)
  | CallGtkMainQuit
  | CallOnMainWindowDestroy.

Definition run_teardown (t : Teardown) : M unit :=
  match t with
  | CallEmuReset => emu_reset
  | CallEmuStop => emu_stop
  | CallLoadstate i => loadstate i
  | CallGtkMainQuit => gtk_main_quit
  | CallOnMainWindowDestroy => on_main_window_destroy
  end.

(** Two worlds that differ at most in the breakpoint state, the buttons and
    the log. *)
Definition same_machine (w w' : World) : Prop :=
  emu_thread w' = emu_thread w
  ∧ _emu_is_running w' = _emu_is_running w
  ∧ _stopped w' = _stopped w
  ∧ rom_filename w' = rom_filename w
  ∧ config_dir w' = config_dir w
  ∧ volume_active w' = volume_active w
  ∧ emu w' = emu w
  ∧ ground_engine_state w' = ground_engine_state w
  ∧ disk w' = disk w
  ∧ unwritable w' = unwritable w.

(** [w'] continues [w]: the log only grew and the breakpoint state is the
    same. *)
Definition continues (w w' : World) : Prop :=
  (∃ l, log w' = log w ++ l) ∧ breakpoint_state w' = breakpoint_state w.

(** A computation that only appends to the log and leaves the breakpoint
    state alone. *)
Definition appends {A} (m : M A) : Prop := ∀ w, continues w (snd (m w)).

(** At [w] the computation is [fail_hard_if_set] followed by something that
    only appends to the log. *)
Definition starts_at {A} (w : World) (m : M A) : Prop :=
  ∃ k : unit → M A, (∀ a, appends (k a)) ∧ m w = bind fail_hard_if_set k w.

(** The guards under which each method gets to its reset, stop or
    teardown. *)
Definition reaches_teardown (t : Teardown) (w : World) : bool :=
  match t with
  | CallEmuReset | CallEmuStop => emu_thread w
  | CallLoadstate i =>
      emu_thread w
      && match rom_filename w with
         | Some rom =>
             bool_decide (is_Some
               (disk w !! savestate_path (config_dir w) rom i SAVESTATE_EXT_GROUND_ENGINE))
         | None => false
         end
  | CallGtkMainQuit | CallOnMainWindowDestroy => true
  end.

End Controller.

(** The effects that reset, stop, reload or tear down the emulator or the
    ground engine state. *)
Definition is_teardown (e : Effect) : bool :=
  match e with
  | EmuOpen _ | EmuReset | EmuPause | EmuDestroy | SavestateLoadFile _
  | GesReset | GesDeserialize _ | ThreadStop | GtkMainQuit => true
  | _ => false
  end.

Definition is_dialog (e : Effect) : bool :=
  match e with MessageDialog _ _ => true | _ => false end.

(** The hook called by an effect, if the effect is the call of a hook. *)
Definition hook_of (e : Effect) : option Hook :=
  match e with ReleaseHook h => Some h | _ => None end.

(** What [break_released] adds to the log; [vol] is the state of the volume
    toggle. *)
Definition break_released_effects (vol : bool) : list Effect :=
  (if vol then [EmuVolumeSet 100] else [])
  ++ [SetButtons ButtonsRunning; TogglePausedDebuggingFeatures false;
      ClearInfoBar; SyncBreakHanger; OverlayBreakReleased].

Definition hook_effects (vol : bool) (h : Hook) : list Effect :=
  ReleaseHook h ::
  match h with
  | HookMainBreakReleased => break_released_effects vol
  | HookOther _ => []
  end.

(** What [if self.breakpoint_state: self.breakpoint_state.fail_hard()] adds
    to the log. *)
Definition fail_hard_effects (vol : bool) (b : option BreakpointState) : list Effect :=
  match b with
  | None => []
  | Some bs => FailHard bs :: concat (hook_effects vol <$> release_hooks bs)
  end.

(** No character of a string is a slash. *)
Fixpoint no_slash (s : string) : bool :=
  match s with
  | EmptyString => true
  | String c r => negb (bool_decide (c = "/"%char)) && no_slash r
  end.

(** No character of a string is a dot. *)
Fixpoint no_dot (s : string) : bool :=
  match s with
  | EmptyString => true
  | String c r => negb (bool_decide (c = "."%char)) && no_dot r
  end.

Arguments World : clear implicits.
Arguments M : clear implicits.

End Main.

(** ** controller/main.py: keyboard and touch input *)

Module MainInput.
Import Main.

(** [int(x)] of a float: the fraction is cut off, towards zero. *)
Definition int (q : Q) : Z := Z.quot (Qnum q) (Z.pos (Qden q)).

Definition Qltb (a b : Q) : bool := negb (Qle_bool b a).

(** The calls handed to [threadsafe_emu_nonblocking] for [emu.input]. *)
Inductive InputCall : Type :=
  | KeypadAddKey (key : Z)      (* emu.input.keypad_add_key(key) *)
  | KeypadRmKey (key : Z)       (* emu.input.keypad_rm_key(key) *)
  | TouchSetPos (x y : Z)       (* emu.input.touch_set_pos(x, y) *)
  | TouchRelease.               (* emu.input.touch_release() *)

(** How a handler ends: it returns, or one of the two exceptions that the
    modelled code can raise leaves it. *)
Inductive Outcome (A : Type) : Type :=
  | Returns (a : A)
  | IndexError                  (* list index out of range *)
  | ZeroDivisionError.          (* float division by zero *)
Arguments Returns {A}.
Arguments IndexError {A}.
Arguments ZeroDivisionError {A}.

(** What [lookup_key] returns: [False] ([None] here) or a key mask.  Its
    truth value decides whether the key is sent on. *)
Definition key_truthy (key : option Z) : bool :=
  match key with
  | Some k => negb (k =? 0)
  | None => false
  end.

(** What the pointer or an event reports: [x], [y] and the modifier state. *)
Record Pointer : Type := mkPointer {
  ptr_x : Q;
  ptr_y : Q;
  ptr_state : Z
}.

(** The attributes of [MainController] that the input handlers use beside
    those of [Main.World]: [_click], [_keyboard_cfg], the scale and rotation
    that [self.renderer] reports, and the calls submitted to the emulator
    thread so far. *)
Record Input : Type := mkInput {
  _click : bool;
  _keyboard_cfg : list Z;
  renderer_scale : Q;
  renderer_rotation : Z;
  submitted : list InputCall
}.

Definition set_click (b : bool) (s : Input) : Input :=
  mkInput b (_keyboard_cfg s) (renderer_scale s) (renderer_rotation s) (submitted s).

Definition submit (c : InputCall) (s : Input) : Input :=
  mkInput (_click s) (_keyboard_cfg s) (renderer_scale s) (renderer_rotation s)
    (submitted s ++ [c]).

Section Handlers.
(** Constants of [desmume.controls], [desmume.emulator] and [Gdk]. *)
Variables (NB_KEYS : nat) (keymask : nat → Z).
Variables (SCREEN_WIDTH SCREEN_HEIGHT : Z).
Variables (SHIFT_MASK CONTROL_MASK MOD1_MASK MOD5_MASK BUTTON1_MASK : Z).
Context {E G : Type} `{!Emulator E} `{!GroundEngine G}.

(** The loop of [lookup_key] from index [i] on, with [todo] indices left. *)
Fixpoint lookup_key_from (cfg : list Z) (keyval : Z) (todo i : nat) : Outcome (option Z) :=
  match todo with
  | O => Returns None
  | S todo' =>
      match cfg !! i with
      | None => IndexError
      | Some k =>
          if keyval =? k then Returns (Some (keymask i))
          else lookup_key_from cfg keyval todo' (S i)
      end
  end.

Definition lookup_key (s : Input) (keyval : Z) : Outcome (option Z) :=
  lookup_key_from (_keyboard_cfg s) keyval NB_KEYS 0.

(** [set_touch_pos(x, y)]: the position handed to [touch_set_pos].  The
    floats are taken as exact rationals. *)
Definition touch_pos (scale : Q) (rotation : Z) (x y : Q) : Outcome (Z * Z) :=
  if Qeq_bool scale 0 then ZeroDivisionError
  else
    let x := (x / scale)%Q in
    let y := (y / scale)%Q in
    let rotated := (rotation =? 90) || (rotation =? 270) in
    let emu_x := if rotated then (256 - y)%Q else x in
    let emu_y := if rotated then x else y in
    let emu_x :=
      if Qltb emu_x 0 then 0%Q
      else if Qltb (inject_Z (SCREEN_WIDTH - 1)) emu_x then inject_Z (SCREEN_WIDTH - 1)
      else emu_x in
    let emu_y :=
      if Qltb emu_y 9 then 0%Q
      else if Qltb (inject_Z SCREEN_HEIGHT) emu_y then inject_Z SCREEN_HEIGHT
      else emu_y in
    Returns (int emu_x, int emu_y).

Definition set_touch_pos (x y : Q) (s : Input) : Outcome unit * Input :=
  match touch_pos (renderer_scale s) (renderer_rotation s) x y with
  | Returns (ex, ey) => (Returns tt, submit (TouchSetPos ex ey) s)
  | IndexError => (IndexError, s)
  | ZeroDivisionError => (ZeroDivisionError, s)
  end.

(** [if state & Gdk.ModifierType.BUTTON1_MASK: self.set_touch_pos(x, y)] *)
Definition touch_if_button1 (p : Pointer) (s : Input) : Outcome unit * Input :=
  if negb (Z.land (ptr_state p) BUTTON1_MASK =? 0)
  then set_touch_pos (ptr_x p) (ptr_y p) s
  else (Returns tt, s).

(** The value a handler returns is [True], [False] or [None]. *)
Definition on_main_window_key_press_event (focus_is_text : bool) (keyval state : Z)
    (w : World E G) (s : Input) : Outcome (option bool) * Input :=
  if emu_thread w then
    if focus_is_text then (Returns (Some false), s)
    else
      match lookup_key s keyval with
      | Returns key =>
          let mask := Z.lor (Z.lor (Z.lor SHIFT_MASK CONTROL_MASK) MOD1_MASK) MOD5_MASK in
          if Z.land state mask =? 0 then
            if key_truthy key && emu_is_running w
            then (Returns (Some true), submit (KeypadAddKey (default 0 key)) s)
            else (Returns (Some false), s)
          else (Returns (Some false), s)
      | IndexError => (IndexError, s)
      | ZeroDivisionError => (ZeroDivisionError, s)
      end
  else (Returns None, s).

Definition on_main_window_key_release_event (keyval : Z)
    (w : World E G) (s : Input) : Outcome (option bool) * Input :=
  if emu_thread w then
    match lookup_key s keyval with
    | Returns key =>
        if key_truthy key && emu_is_running w
        then (Returns None, submit (KeypadRmKey (default 0 key)) s)
        else (Returns None, s)
    | IndexError => (IndexError, s)
    | ZeroDivisionError => (ZeroDivisionError, s)
    end
  else (Returns None, s).

(** [pointer] is what [widget.get_window().get_pointer()] reports, [ev] what
    the event carries. *)
Definition on_draw_motion_notify_event (is_hint : bool) (pointer ev : Pointer)
    (display_id : Z) (w : World E G) (s : Input) : Outcome (option bool) * Input :=
  if emu_thread w then
    if (display_id =? 1) && _click s then
      match touch_if_button1 (if is_hint then pointer else ev) s with
      | (Returns _, s') => (Returns None, s')
      | (IndexError, s') => (IndexError, s')
      | (ZeroDivisionError, s') => (ZeroDivisionError, s')
      end
    else (Returns None, s)
  else (Returns None, s).

Definition on_draw_button_release_event (display_id : Z)
    (w : World E G) (s : Input) : Outcome (option bool) * Input :=
  if emu_thread w then
    if (display_id =? 1) && _click s
    then (Returns (Some true), submit TouchRelease (set_click false s))
    else (Returns (Some true), s)
  else (Returns None, s).

Definition on_draw_button_press_event (button : Z) (pointer : Pointer)
    (display_id : Z) (w : World E G) (s : Input) : Outcome (option bool) * Input :=
  if emu_thread w then
    if button =? 1 then
      if (display_id =? 1) && emu_is_running w then
        match touch_if_button1 pointer (set_click true s) with
        | (Returns _, s') => (Returns (Some true), s')
        | (IndexError, s') => (IndexError, s')
        | (ZeroDivisionError, s') => (ZeroDivisionError, s')
        end
      else (Returns (Some true), s)
    else (Returns (Some true), s)
  else (Returns None, s).

(** The signals of the window and of the two drawing areas; the main screen
    is display 0, the touch screen display 1. *)
Inductive Event : Type :=
  | KeyPress (focus_is_text : bool) (keyval state : Z)
  | KeyRelease (keyval : Z)
  | MainMotion (is_hint : bool) (pointer ev : Pointer)
  | MainButtonRelease
  | MainButtonPress (button : Z) (pointer : Pointer)
  | SubMotion (is_hint : bool) (pointer ev : Pointer)
  | SubButtonRelease
  | SubButtonPress (button : Z) (pointer : Pointer).

Definition handle (ev : Event) (w : World E G) (s : Input) : Outcome (option bool) * Input :=
  match ev with
  | KeyPress f k st => on_main_window_key_press_event f k st w s
  | KeyRelease k => on_main_window_key_release_event k w s
  | MainMotion h p e => on_draw_motion_notify_event h p e 0 w s
  | MainButtonRelease => on_draw_button_release_event 0 w s
  | MainButtonPress b p => on_draw_button_press_event b p 0 w s
  | SubMotion h p e => on_draw_motion_notify_event h p e 1 w s
  | SubButtonRelease => on_draw_button_release_event 1 w s
  | SubButtonPress b p => on_draw_button_press_event b p 1 w s
  end.

(** A run of signals, each with the controller as it is when the signal
    arrives.  A handler that raises leaves the attributes as they are at that
    point, and the next signal is handled. *)
Definition handle_all (evs : list (World E G * Event)) (s : Input) : Input :=
  foldl (λ s we, snd (handle (snd we) (fst we) s)) s evs.

(** A touch position inside the range that [set_touch_pos] clamps to. *)
Definition touch_in_range (c : InputCall) : bool :=
  match c with
  | TouchSetPos x y =>
      (0 <=? x) && (x <=? SCREEN_WIDTH - 1)
      && ((y =? 0) || ((9 <=? y) && (y <=? SCREEN_HEIGHT)))
  | _ => true
  end.

End Handlers.

Definition is_touch (c : InputCall) : bool :=
  match c with
  | TouchSetPos _ _ | TouchRelease => true
  | _ => false
  end.

Definition is_key (c : InputCall) : bool :=
  match c with
  | KeypadAddKey _ | KeypadRmKey _ => true
  | _ => false
  end.

End MainInput.

(** ** controller/main.py: the filter of the file tree *)

Module FileTree.

(** A row of the tree store: the text of its column 1 and its child rows. *)
#[local] Unset Elimination Schemes.
Inductive Row : Type := mkRow (text : string) (children : list Row).
#[local] Set Elimination Schemes.

Definition row_text (r : Row) : string := match r with mkRow t _ => t end.
Definition row_children (r : Row) : list Row := match r with mkRow _ cs => cs end.

(** The texts of a row and of all rows below it, the row first. *)
Fixpoint subtree_texts (r : Row) : list string :=
  match r with
  | mkRow t cs => t :: concat (map subtree_texts cs)
  end.

(** The loop [for child in model[iter].iterchildren()] of a row at [path],
    from child number [i] on; [visit] is the recursive call for a child, given
    the child's path.  The first child that it finds visible ends the loop,
    after [expand_row(child.parent.path)]. *)
Section Children.
Variable visit : list nat → Row → bool * list (list nat).

Fixpoint each_child (path : list nat) (cs : list Row) (i : nat) {struct cs}
    : bool * list (list nat) :=
  match cs with
  | [] => (false, [])
  | child :: cs' =>
      let '(child_match, expanded) := visit (path ++ [i]) child in
      if child_match then (true, expanded ++ [path])
      else
        let '(m, expanded') := each_child path cs' (S i) in
        (m, expanded ++ expanded')
  end.

End Children.

Section Filter.
(** [search.lower() in text.lower()], for the search text and a row's text. *)
Variable found_in : string → string → bool.

(** [_recursive_filter_func(search, model, iter)].  The row at [iter] is
    given by its subtree [row], the texts [parents] of the rows above it,
    nearest first, and its [path].  The result is the returned value and the
    paths handed to [expand_row], in the order of the calls. *)
Fixpoint _recursive_filter_func (search : option string) (parents : list string)
    (path : list nat) (row : Row) {struct row} : bool * list (list nat) :=
  match search with
  | None => (true, [])
  | Some text =>
      match row with
      | mkRow t children =>
          if found_in text t then (true, [])
          else if existsb (found_in text) parents then (true, [])
          else each_child (_recursive_filter_func search (t :: parents)) path children 0
      end
  end.

(** [_ssb_item_filter_visible_func]: the filter with the current search
    text. *)
Definition _ssb_item_filter_visible_func (_search_text : option string)
    (parents : list string) (path : list nat) (row : Row) : bool * list (list nat) :=
  _recursive_filter_func _search_text parents path row.

End Filter.

End FileTree.

(** ** controller/code_editor.py *)

Module CodeEditor.
Import Main.

(** [filename.split('/')[-1][:-4]]: what follows the last slash, without its
    last four characters. *)
Definition tab_label (filename : string) : string :=
  let name := basename filename in
  String.substring 0 (String.length name - 4) name.

(** A Python [dict] with string keys, in insertion order. *)
Section Dict.
Context {V : Type}.

Fixpoint dict_get (k : string) (d : list (string * V)) : option V :=
  match d with
  | [] => None
  | (k', v) :: r => if bool_decide (k' = k) then Some v else dict_get k r
  end.

(** [del d[k]], for a key that is there. *)
Fixpoint dict_del (k : string) (d : list (string * V)) : list (string * V) :=
  match d with
  | [] => []
  | (k', v) :: r => if bool_decide (k' = k) then r else (k', v) :: dict_del k r
  end.

(** [d[k] = v] *)
Fixpoint dict_set (k : string) (v : V) (d : list (string * V)) : list (string * V) :=
  match d with
  | [] => [(k, v)]
  | (k', v') :: r => if bool_decide (k' = k) then (k', v) :: r else (k', v') :: dict_set k v r
  end.

End Dict.

(** What the controller uses of [Gtk.Notebook]; a page is known by the root
    object of its editor, and an editor by a number. *)
Class Notebook (N : Type) : Type := {
  get_current_page : N → Z;
  page_num : nat → N → Z;
  (** [insert_page(child, tab_label, position)]: the notebook and the number
      of the new page. *)
  insert_page : nat → string → Z → N → N * Z;
  set_menu_label : nat → string → N → N;
  set_tab_reorderable : nat → bool → N → N;
  set_current_page : Z → N → N;
  remove_page : Z → N → N;
  (** [get_tab_label(child).get_children()[0].set_markup(markup)] *)
  set_tab_markup : nat → string → N → N
}.

(** How a method ends. *)
Inductive Outcome (A : Type) : Type :=
  | Returns (a : A)
  | KeyError
  | AttributeError.
Arguments Returns {A}.
Arguments KeyError {A}.
Arguments AttributeError {A}.

Section Controller.
(** [Lines] is a list of halt lines [(type, id, opcode_addr)]. *)
Context {N : Type} `{!Notebook N} {Lines : Type}.

(** The calls that the controller makes on an [SSBEditorController]. *)
Inductive EditorCall : Type :=
  | InsertHangerHaltLines (lines : Lines)
  | RemoveHangerHaltLines
  | ToggleDebuggingControls (on_off : bool)
  | HaltedAtOpcode (opcode_addr : option Z)
  | FocusOpcode (opcode_addr : Z)
  | OnBreakpointAdded (opcode_offset : Z)
  | OnBreakpointRemoved (opcode_offset : Z)
  | Save
  | Destroy.

(** An [SSBEditorController]: its file, whether it has unsaved changes, and
    the calls it received, oldest first. *)
Record Editor : Type := mkEditor {
  ed_filename : string;
  has_changes : bool;
  calls : list EditorCall
}.

Definition add_call (c : EditorCall) (e : Editor) : Editor :=
  mkEditor (ed_filename e) (has_changes e) (calls e ++ [c]).

Definition set_has_changes (b : bool) (e : Editor) : Editor :=
  mkEditor (ed_filename e) b (calls e).

(** The attributes of [CodeEditorController].  [file_manager] records
    whether [self.file_manager] is set.  [editors] holds every editor
    created so far; the two dictionaries refer to them by position. *)
Record t : Type := mk {
  file_manager : bool;
  _open_editors : list (string * nat);
  _open_editors_by_page_num : gmap Z nat;
  _notebook : N;
  _cached_hanger_halt_lines : gmap string Lines;
  _cached_active_halted_filename : option string;
  _cached_active_halted_opcode : option Z;
  editors : list Editor
}.

(** [__init__] *)
Definition new (notebook : N) : t :=
  mk false [] ∅ notebook ∅ None None [].

(** [init]: the file manager and the breakpoint manager are set. *)
Definition init (s : t) : t :=
  mk true (_open_editors s) (_open_editors_by_page_num s) (_notebook s)
    (_cached_hanger_halt_lines s) (_cached_active_halted_filename s)
    (_cached_active_halted_opcode s) (editors s).

Definition set_open_editors (v : list (string * nat)) (s : t) : t :=
  mk (file_manager s) v (_open_editors_by_page_num s) (_notebook s)
    (_cached_hanger_halt_lines s) (_cached_active_halted_filename s)
    (_cached_active_halted_opcode s) (editors s).
Definition set_by_page_num (v : gmap Z nat) (s : t) : t :=
  mk (file_manager s) (_open_editors s) v (_notebook s)
    (_cached_hanger_halt_lines s) (_cached_active_halted_filename s)
    (_cached_active_halted_opcode s) (editors s).
Definition set_notebook (v : N) (s : t) : t :=
  mk (file_manager s) (_open_editors s) (_open_editors_by_page_num s) v
    (_cached_hanger_halt_lines s) (_cached_active_halted_filename s)
    (_cached_active_halted_opcode s) (editors s).
Definition set_halt_lines (v : gmap string Lines) (s : t) : t :=
  mk (file_manager s) (_open_editors s) (_open_editors_by_page_num s) (_notebook s)
    v (_cached_active_halted_filename s) (_cached_active_halted_opcode s) (editors s).
Definition set_active_halted (f : option string) (o : option Z) (s : t) : t :=
  mk (file_manager s) (_open_editors s) (_open_editors_by_page_num s) (_notebook s)
    (_cached_hanger_halt_lines s) f o (editors s).
Definition set_editors (v : list Editor) (s : t) : t :=
  mk (file_manager s) (_open_editors s) (_open_editors_by_page_num s) (_notebook s)
    (_cached_hanger_halt_lines s) (_cached_active_halted_filename s)
    (_cached_active_halted_opcode s) v.

(** A method call on the editor number [id]. *)
Definition send (id : nat) (c : EditorCall) (s : t) : t :=
  set_editors (alter (add_call c) id (editors s)) s.

(** [for editor in self._open_editors.values(): ...], each editor getting
    the calls [cs]. *)
Definition send_all (cs : list EditorCall) (s : t) : t :=
  foldl (λ s kv, foldl (λ s c, send (snd kv) c s) s cs) s (_open_editors s).

(** The [currently_open] property. *)
Definition currently_open (s : t) : Outcome (option nat) :=
  if -1 <? get_current_page (_notebook s) then
    match _open_editors_by_page_num s !! get_current_page (_notebook s) with
    | Some id => Returns (Some id)
    | None => KeyError
    end
  else Returns None.

(** The calls that [open] makes on the editor it creates. *)
Definition calls_on_open (filename : string) (s : t) : list EditorCall :=
  match _cached_hanger_halt_lines s !! filename with
  | Some lines => [InsertHangerHaltLines lines]
  | None => []
  end
  ++ (if bool_decide (_cached_active_halted_filename s = Some filename)
      then [ToggleDebuggingControls true; HaltedAtOpcode (_cached_active_halted_opcode s)]
      else []).

(** [open].  [file_manager.open_in_editor] and the constructor of
    [SSBEditorController] are taken to return; a new editor has no unsaved
    changes. *)
Definition open (filename : string) (s : t) : t :=
  if file_manager s then
    match dict_get filename (_open_editors s) with
    | Some id =>
        set_notebook (set_current_page (page_num id (_notebook s)) (_notebook s)) s
    | None =>
        let id := length (editors s) in
        let editor_controller := mkEditor filename false (calls_on_open filename s) in
        let current_page := get_current_page (_notebook s) in
        let '(nb, pnum) :=
          insert_page id (tab_label filename) (current_page + 1) (_notebook s) in
        let nb := set_menu_label id filename nb in
        let nb := set_tab_reorderable id true nb in
        let nb := set_current_page pnum nb in
        mk (file_manager s)
          (dict_set filename id (_open_editors s))
          (<[pnum := id]> (_open_editors_by_page_num s))
          nb
          (_cached_hanger_halt_lines s) (_cached_active_halted_filename s)
          (_cached_active_halted_opcode s)
          (editors s ++ [editor_controller])
    end
  else s.

(** [close_tab].  [response] is what [_show_are_you_sure] returns when it is
    asked, and [may_close] what [file_manager.close_in_editor] returns, after
    the warning that it may show. *)
Definition close_tab (filename : string) (response : Z) (may_close : bool) (s : t)
    : Outcome unit * t :=
  match dict_get filename (_open_editors s) with
  | None => (Returns tt, s)
  | Some id =>
      let pnum := page_num id (_notebook s) in
      let changed := from_option has_changes false (editors s !! id) in
      let s1 := if changed && (response =? 1) then send id Save s else s in
      if changed && negb (response =? 0) then (Returns tt, s1)
      else if negb (file_manager s1) then (AttributeError, s1)
      else if negb may_close then (Returns tt, s1)
      else
        let s2 := set_notebook (remove_page pnum (_notebook s1)) s1 in
        let s3 := send id Destroy s2 in
        let s4 := set_open_editors (dict_del filename (_open_editors s3)) s3 in
        match _open_editors_by_page_num s4 !! pnum with
        | Some _ => (Returns tt, set_by_page_num (delete pnum (_open_editors_by_page_num s4)) s4)
        | None => (KeyError, s4)
        end
  end.

Definition focus_by_opcode_addr (filename : string) (opcode_addr : Z) (s : t)
    : Outcome unit * t :=
  let s1 :=
    match dict_get filename (_open_editors s) with
    | None => open filename s
    | Some id =>
        set_notebook (set_current_page (page_num id (_notebook s)) (_notebook s)) s
    end in
  match dict_get filename (_open_editors s1) with
  | Some id => (Returns tt, send id (FocusOpcode opcode_addr) s1)
  | None => (KeyError, s1)
  end.

(** The hook that [break_pulled] hands to [state.add_release_hook]. *)
Definition release_hook : Hook := HookOther "CodeEditorController.break_released".

(** [break_pulled]: the new attributes and the hook added to [state]. *)
Definition break_pulled (filename : string) (opcode_addr : Z) (s : t) : t * Hook :=
  let s1 :=
    match dict_get filename (_open_editors s) with
    | Some id =>
        send id (HaltedAtOpcode (Some opcode_addr)) (send id (ToggleDebuggingControls true) s)
    | None => s
    end in
  (set_active_halted (Some filename) (Some opcode_addr) s1, release_hook).

Definition break_released (s : t) : t :=
  set_active_halted None None
    (send_all [ToggleDebuggingControls false; HaltedAtOpcode (Some (-1))] s).

(** [insert_hanger_halt_lines]; [halt_lines.items()] is given in its order. *)
Definition insert_hanger_halt_lines (halt_lines : list (string * Lines)) (s : t) : t :=
  foldl (λ s kv,
           let s1 := set_halt_lines (<[fst kv := snd kv]> (_cached_hanger_halt_lines s)) s in
           match dict_get (fst kv) (_open_editors s1) with
           | Some id => send id (InsertHangerHaltLines (snd kv)) s1
           | None => s1
           end) s halt_lines.

Definition remove_hanger_halt_lines (s : t) : t :=
  send_all [RemoveHangerHaltLines] (set_halt_lines ∅ s).

Definition on_breakpoint_added (filename : string) (opcode_offset : Z) (s : t) : t :=
  match dict_get filename (_open_editors s) with
  | Some id => send id (OnBreakpointAdded opcode_offset) s
  | None => s
  end.

Definition on_breakpoint_removed (filename : string) (opcode_offset : Z) (s : t) : t :=
  match dict_get filename (_open_editors s) with
  | Some id => send id (OnBreakpointRemoved opcode_offset) s
  | None => s
  end.

(** [on_ssb_editor_modified(controller, modified)], for the editor number
    [id]: the markup of its tab label.  For a number that is no editor there
    is no tab label, and [None.get_children()] fails. *)
Definition modified_markup (filename : string) (modified : bool) : string :=
  if modified then "<i>" +:+ tab_label filename +:+ "*</i>" else tab_label filename.

Definition on_ssb_editor_modified (id : nat) (modified : bool) (s : t) : Outcome unit * t :=
  match editors s !! id with
  | Some e =>
      (Returns tt,
       set_notebook (set_tab_markup id (modified_markup (ed_filename e) modified)
                       (_notebook s)) s)
  | None => (AttributeError, s)
  end.

(** What happens to the controller: calls of its methods, and the user
    changing or saving the text of an editor. *)
Inductive Op : Type :=
  | CallInit
  | CallOpen (filename : string)
  | CallCloseTab (filename : string) (response : Z) (may_close : bool)
  | CallFocusByOpcodeAddr (filename : string) (opcode_addr : Z)
  | CallBreakPulled (filename : string) (opcode_addr : Z)
  | CallBreakReleased
  | CallInsertHangerHaltLines (halt_lines : list (string * Lines))
  | CallRemoveHangerHaltLines
  | CallOnBreakpointAdded (filename : string) (opcode_offset : Z)
  | CallOnBreakpointRemoved (filename : string) (opcode_offset : Z)
  | CallOnSsbEditorModified (id : nat) (modified : bool)
  | TextChanged (id : nat) (changed : bool).

Definition run_op (op : Op) (s : t) : t :=
  match op with
  | CallInit => init s
  | CallOpen f => open f s
  | CallCloseTab f r m => snd (close_tab f r m s)
  | CallFocusByOpcodeAddr f a => snd (focus_by_opcode_addr f a s)
  | CallBreakPulled f a => fst (break_pulled f a s)
  | CallBreakReleased => break_released s
  | CallInsertHangerHaltLines hl => insert_hanger_halt_lines hl s
  | CallRemoveHangerHaltLines => remove_hanger_halt_lines s
  | CallOnBreakpointAdded f o => on_breakpoint_added f o s
  | CallOnBreakpointRemoved f o => on_breakpoint_removed f o s
  | CallOnSsbEditorModified id m => snd (on_ssb_editor_modified id m s)
  | TextChanged id b => set_editors (alter (set_has_changes b) id (editors s)) s
  end.

Definition run (ops : list Op) (s : t) : t := foldl (λ s op, run_op op s) s ops.

(** The editors that are open: those in [_open_editors]. *)
Definition open_ids (s : t) : list nat := snd <$> _open_editors s.

(** An editor that was destroyed got no call after that, and is not open. *)
Definition destroyed_is_final (s : t) : Prop :=
  ∀ id e, editors s !! id = Some e → Destroy ∈ calls e →
    (id ∉ open_ids s) ∧ ∃ before, calls e = before ++ [Destroy] ∧ (Destroy ∉ before).

(** The open editors are distinct editors that exist; each is registered
    under the name of its file, once; and none of them was destroyed. *)
Definition well_formed (s : t) : Prop :=
  NoDup (fst <$> _open_editors s)
  ∧ NoDup (open_ids s)
  ∧ (∀ f id, (f, id) ∈ _open_editors s →
       ∃ e, editors s !! id = Some e ∧ ed_filename e = f ∧ Destroy ∉ calls e)
  ∧ (file_manager s = false → _open_editors s = []).

Definition invariant (s : t) : Prop := well_formed s ∧ destroyed_is_final s.

(** An editor after it received the calls [cs]. *)
Definition add_calls (cs : list EditorCall) (e : Editor) : Editor :=
  mkEditor (ed_filename e) (has_changes e) (calls e ++ cs).

End Controller.

Arguments EditorCall : clear implicits.
Arguments Editor : clear implicits.
Arguments t : clear implicits.
Arguments Op : clear implicits.

End CodeEditor.

(** * Concrete instances used to evaluate the model *)

Module Demo.
Import Main.

(** A small emulator: a running flag, the opened ROM and the memory.  A
    snapshot starts with the running flag and ends with the memory. *)
Record SimpleEmu : Type := mkSimpleEmu {
  se_running : bool;
  se_rom : option string;
  se_memory : string
}.

#[export] Instance simple_emulator : Emulator SimpleEmu := {|
  is_running e := se_running e;
  open fn e :=
    if bool_decide (fn = EmptyString)
    then (e, Some (RuntimeError "Unable to open the ROM"))
    else (mkSimpleEmu (se_running e) (Some fn) EmptyString, None);
  reset e := mkSimpleEmu (se_running e) (se_rom e) EmptyString;
  pause e := mkSimpleEmu false (se_rom e) (se_memory e);
  destroy e := mkSimpleEmu false None EmptyString;
  savestate_save_file path e :=
    match se_rom e with
    | None => Raise (RuntimeError "Unable to save the savestate")
    | Some _ => Ok ((if se_running e then "1" else "0") +:+ se_memory e)
    end;
  savestate_load_file content e :=
    match content with
    | Some (String c r) =>
        (mkSimpleEmu (bool_decide (c = "1"%char)) (se_rom e) r, None)
    | _ => (e, Some (RuntimeError "Unable to load the savestate"))
    end
|}.

(** A small ground engine state: the state is its own JSON document. *)
#[export] Instance simple_ground_engine : GroundEngine string := {|
  serialize_json g := Ok g;
  deserialize_json text g :=
    if bool_decide (text = EmptyString)
    then (g, Some (ValueError "Expecting value: line 1 column 1 (char 0)"))
    else (text, None);
  ges_reset _ := "{}"
|}.

Definition demo_rom : string := "/home/user/roms/game.nds".
Definition demo_config_dir : string := config_dir_init "/home/user/.config/skytemple".

(** A controller with an open ROM. *)
Definition demo_world_with (e : SimpleEmu) (bp : option BreakpointState)
    (files : gmap string string) (ro : gset string) : World SimpleEmu string :=
  mkWorld true bp (se_running e) false (Some demo_rom) demo_config_dir
    (mkButtons img_stop img_pause) true e (Some "{hangers}"%string) files ro [].

Definition demo_world (running : bool) (bp : option BreakpointState)
    (files : gmap string string) (ro : gset string) : World SimpleEmu string :=
  demo_world_with (mkSimpleEmu running (Some demo_rom) "memory") bp files ro.

Definition demo_breakpoint : BreakpointState :=
  mkBreakpointState 3 Stopped [HookOther "GroundStateController"; HookMainBreakReleased].

Definition slot1_ds : string := savestate_path demo_config_dir demo_rom 1 SAVESTATE_EXT_DESUME.
Definition slot1_ge : string :=
  savestate_path demo_config_dir demo_rom 1 SAVESTATE_EXT_GROUND_ENGINE.

(** Slot 1 saved while the emulator was paused. *)
Definition slot1_files : gmap string string :=
  <[slot1_ds := "0saved memory"]> (<[slot1_ge := "{saved}"]> ∅).

Definition slot2_ge : string :=
  savestate_path demo_config_dir demo_rom 2 SAVESTATE_EXT_GROUND_ENGINE.

(** The emulator is running (resp. paused), no breakpoint is active, and slot
    1 is on disk. *)
Definition world_running : World SimpleEmu string := demo_world true None slot1_files ∅.
Definition world_paused : World SimpleEmu string := demo_world false None slot1_files ∅.

(** The emulator is running, halted at a breakpoint, and slot 1 is on disk. *)
Definition world_halted : World SimpleEmu string :=
  demo_world true (Some demo_breakpoint) slot1_files ∅.


(** Two runs of the emulation cycle on a running emulator, with the tick
    readings each run gets, and the thread object after the first and after
    the second run. *)
Definition first_cycle_obs : EmulatorThread.EmuObs :=
  EmulatorThread.mkObs true true [100; 101; 102; 110] [].
Definition second_cycle_obs : EmulatorThread.EmuObs :=
  EmulatorThread.mkObs true true [112; 113; 120; 127; 128; 129] [7].
Definition after_first_cycle : EmulatorThread.t unit :=
  EmulatorThread.mk tt None true [0%Q] (Some []) 1 100 0 110 102.
Definition after_second_cycle : EmulatorThread.t unit :=
  EmulatorThread.mk tt None true [(880 # 60000)%Q] (Some [7]) 2 100 0 128 127.

(** A thread object whose thread is thread 1. *)
Definition owned_by_thread_1 : EmulatorThread.t unit :=
  EmulatorThread.run_sets_thread 1%nat (EmulatorThread.init tt).

(** The overlay, switched on, drawn once (which submits the first refresh),
    and then a breakpoint is hit before that refresh started. *)
Definition overlay_break_before_refresh : DebugOverlay.Sys :=
  DebugOverlay.steps DebugOverlay.box_bbox
    [DebugOverlay.CallToggle true; DebugOverlay.CallDraw 1; DebugOverlay.CallBreakPulled]
    (DebugOverlay.mkSys DebugOverlay.init 0 0).

(** A running ground engine with one actor, and a stopped one. *)
Definition one_actor : DebugOverlay.GroundEngineState DebugOverlay.BBox unit :=
  DebugOverlay.box_ges true [None; Some (8, 8, 24, 40)].
Definition stopped_engine : DebugOverlay.GroundEngineState DebugOverlay.BBox unit :=
  DebugOverlay.box_ges false [Some (0, 0, 16, 16)].

(** The overlay after one complete refresh of a running engine: the cache is
    filled and the coroutine sleeps. *)
Definition overlay_refreshed : DebugOverlay.Sys :=
  DebugOverlay.steps DebugOverlay.box_bbox
    [DebugOverlay.CallToggle true; DebugOverlay.CallDraw 1;
     DebugOverlay.LoopStartsUpdate one_actor]
    (DebugOverlay.mkSys DebugOverlay.init 0 0).

(** The same overlay when a breakpoint is hit and the chain has run out. *)
Definition overlay_quiescent : DebugOverlay.Sys :=
  DebugOverlay.steps DebugOverlay.box_bbox
    [DebugOverlay.CallBreakPulled; DebugOverlay.SleepEnds;
     DebugOverlay.LoopStartsUpdate one_actor]
    overlay_refreshed.

(** A controller before any ROM was opened. *)
Definition world_no_rom : World SimpleEmu string :=
  mkWorld true None false false None demo_config_dir (mkButtons img_play img_pause) true
    (mkSimpleEmu false None EmptyString) (Some "{}"%string) ∅ ∅ [].

(** Slot 1 with its JSON file only: the native snapshot is missing. *)
Definition world_json_only : World SimpleEmu string :=
  demo_world true None (<[slot1_ge := "{saved}"%string]> ∅) ∅.

(** A controller whose debugger has no ground engine state yet, with slot 1
    on disk. *)
Definition world_no_ground_engine : World SimpleEmu string :=
  mkWorld true None true false (Some demo_rom) demo_config_dir
    (mkButtons img_stop img_pause) true (mkSimpleEmu true (Some demo_rom) "memory")
    None slot1_files ∅ [].

(** Three keys, with the masks [1 << k]; the configuration lists the key
    values of a, s and d, and a once more. *)
Definition demo_NB_KEYS : nat := 3.
Definition demo_keymask (k : nat) : Z := Z.shiftl 1 (Z.of_nat k).
Definition demo_input : MainInput.Input :=
  MainInput.mkInput false [97; 115; 100; 97] 2 0 [].

(** The handlers for a screen of 256 by 192 and the modifier masks of GDK. *)
Definition demo_handle :
    MainInput.Event → World SimpleEmu string → MainInput.Input
    → MainInput.Outcome (option bool) * MainInput.Input :=
  MainInput.handle demo_NB_KEYS demo_keymask 256 192 1 4 8 128 256.

Definition demo_handle_all :
    list (World SimpleEmu string * MainInput.Event) → MainInput.Input → MainInput.Input :=
  MainInput.handle_all demo_NB_KEYS demo_keymask 256 192 1 4 8 128 256.

(** A press on the touch screen, a motion with the button held and the
    release, while the emulator runs. *)
Definition demo_touch : list (World SimpleEmu string * MainInput.Event) :=
  [(world_running, MainInput.SubButtonPress 1 (MainInput.mkPointer 100 10 256));
   (world_running,
    MainInput.SubMotion false (MainInput.mkPointer 0 0 0) (MainInput.mkPointer 600 500 256));
   (world_running, MainInput.SubButtonRelease)].

(** A file tree, and a search that looks for the text as it is. *)
Definition demo_tree : FileTree.Row :=
  FileTree.mkRow "SCRIPT"
    [FileTree.mkRow "COMMON" [FileTree.mkRow "unionall.ssb" []];
     FileTree.mkRow "D01P11A"
       [FileTree.mkRow "enter.sse" []; FileTree.mkRow "enter00.ssb" []]].

Definition demo_found_in (search text : string) : bool :=
  match String.index 0 search text with
  | Some _ => true
  | None => false
  end.

(** A notebook as the list of its pages, each the number of its editor, and
    the number of the current page. *)
Record SimpleNotebook : Type := mkSimpleNotebook {
  nb_pages : list nat;
  nb_current : Z
}.

Fixpoint page_index (id : nat) (pages : list nat) : Z :=
  match pages with
  | [] => -1
  | p :: r =>
      if bool_decide (p = id) then 0
      else let i := page_index id r in if i <? 0 then -1 else i + 1
  end.

#[export] Instance simple_notebook : CodeEditor.Notebook SimpleNotebook := {|
  CodeEditor.get_current_page nb := nb_current nb;
  CodeEditor.page_num id nb := page_index id (nb_pages nb);
  CodeEditor.insert_page id label position nb :=
    let n := Z.of_nat (length (nb_pages nb)) in
    let at_ := if (position <? 0) || (n <? position) then n else position in
    (mkSimpleNotebook
       (take (Z.to_nat at_) (nb_pages nb) ++ id :: drop (Z.to_nat at_) (nb_pages nb))
       (if nb_current nb <? 0 then at_ else nb_current nb),
     at_);
  CodeEditor.set_menu_label id label nb := nb;
  CodeEditor.set_tab_reorderable id b nb := nb;
  CodeEditor.set_current_page p nb :=
    if (0 <=? p) && (p <? Z.of_nat (length (nb_pages nb)))
    then mkSimpleNotebook (nb_pages nb) p else nb;
  CodeEditor.remove_page p nb :=
    if (0 <=? p) && (p <? Z.of_nat (length (nb_pages nb)))
    then mkSimpleNotebook (delete (Z.to_nat p) (nb_pages nb))
           (Z.min (nb_current nb) (Z.of_nat (length (nb_pages nb)) - 2))
    else nb;
  CodeEditor.set_tab_markup id markup nb := nb
|}.

(** A code editor controller with a file manager and no tab. *)
Definition demo_editors : CodeEditor.t SimpleNotebook string :=
  CodeEditor.init (CodeEditor.new (mkSimpleNotebook [] (-1))).

Definition demo_script : string := "SCRIPT/D01P11A/enter00.ssb".

(** The script is opened and edited. *)
Definition demo_edited : CodeEditor.t SimpleNotebook string :=
  CodeEditor.run [CodeEditor.CallOpen demo_script; CodeEditor.TextChanged 0 true]
    demo_editors.



End Demo.

(** * Properties of the emulator thread *)

Module EmulatorThreadFacts.
Import EmulatorThread.

Section Facts.
Context {Emu : Type}.
Implicit Types s : t Emu.

Lemma fps_count_frame s ts s1 ts1 :
  fps_count s ts = Some (s1, ts1) →
  registered_main_loop s1 = registered_main_loop s
  ∧ loop_scheduled s1 = loop_scheduled s
  ∧ _ticks_prev_frame s1 = _ticks_prev_frame s.
Proof.
  unfold fps_count, tbind, tret, get_ticks. intros H.
  repeat match type of H with
  | context [if ?b then _ else _] => destruct b
  | context [match ?l with [] => _ | _ :: _ => _ end] => destruct l
  end; simplify_eq; done.
Qed.

Lemma spin_exit prev cur ts c ts' :
  spin prev cur ts = Some (c, ts') → TICKS_PER_FRAME ≤ c - prev.
Proof.
  revert cur. induction ts as [|x r IH]; intros cur; simpl.
  - destruct (Z.ltb_spec (cur - prev) TICKS_PER_FRAME); intros; simplify_eq; done.
  - destruct (Z.ltb_spec (cur - prev) TICKS_PER_FRAME); [apply IH|].
    intros; simplify_eq; done.
Qed.

Lemma spin_returns prev cur pre x post :
  TICKS_PER_FRAME ≤ x - prev →
  ∃ c k, spin prev cur (pre ++ x :: post) = Some (c, k ++ post).
Proof.
  intros Hx. revert cur. induction pre as [|p pre IH]; intros cur; simpl.
  - destruct (Z.ltb_spec (cur - prev) TICKS_PER_FRAME).
    + exists x, []. destruct post; simpl;
        destruct (Z.ltb_spec (x - prev) TICKS_PER_FRAME); done || lia.
    + by exists cur, [x].
  - destruct (Z.ltb_spec (cur - prev) TICKS_PER_FRAME); [apply IH|].
    by exists cur, (p :: pre ++ [x]); rewrite <- !app_comm_cons, <- app_assoc.
Qed.

Lemma ticks_to_wait_nonneg cur prev : (0 <= ticks_to_wait cur prev)%Q.
Proof.
  unfold ticks_to_wait.
  match goal with |- context [(?w ?= 0)%Q] => destruct (w ?= 0)%Q eqn:Hc end.
  - apply Qeq_alt in Hc. rewrite Hc. apply Qle_refl.
  - apply Qle_refl.
  - apply Qgt_alt in Hc. by apply Qlt_le_weak.
Qed.

Lemma ticks_to_wait_upper cur prev :
  TICKS_PER_FRAME ≤ cur - prev →
  (ticks_to_wait cur prev <= 1 / 60 - 2 / 1000)%Q.
Proof.
  intros Hd. unfold ticks_to_wait.
  match goal with |- context [(?w ?= 0)%Q] => destruct (w ?= 0)%Q eqn:Hc end;
    try (unfold Qle; simpl; lia).
  all: unfold TICKS_PER_FRAME, FRAMES_PER_SECOND in *;
    assert (Hq : (inject_Z 2 <= inject_Z (cur - prev - 17 + 2))%Q)
      by (rewrite <- Zle_Qle; lia);
    change (inject_Z 2) with 2%Q in Hq;
    set (q := inject_Z (cur - prev - 17 + 2)) in *; clearbody q; clear Hc;
    change (inject_Z 60) with 60%Q; lra.
Qed.


Lemma init_consistent (e : Emu) : consistent (init e).
Proof. reflexivity. Qed.

Lemma register_main_loop_consistent s :
  consistent s → consistent (register_main_loop s).
Proof.
  unfold consistent, register_main_loop, chains.
  destruct (registered_main_loop s) eqn:Hr; simpl; [by rewrite Hr|].
  rewrite length_app. simpl. lia.
Qed.

Lemma cycle_tail_inv s1 ts s2 ts' :
  cycle_tail s1 ts = Some (s2, ts') →
  ∃ cur prev',
    s2 = set_scheduled
           (loop_scheduled s1 ++ [ticks_to_wait cur (_ticks_prev_frame s1)])
           (set_ticks prev' cur s1)
    ∧ TICKS_PER_FRAME ≤ cur - _ticks_prev_frame s1.
Proof.
  unfold cycle_tail, tbind, tret, get_ticks.
  destruct ts as [|cur0 ts2]; [done|].
  destruct (spin _ _ _) as [[cur ts3]|] eqn:Hspin; [|done].
  destruct ts3 as [|prev' ts4]; [done|].
  intros [= <- <-]. exists cur, prev'. split; [done|]. by eapply spin_exit.
Qed.

Lemma _emu_cycle_running_inv o s r s' :
  obs_truthy o = true → obs_running o = true →
  _emu_cycle o s = Some (r, s') →
  r = true
  ∧ registered_main_loop s' = registered_main_loop s
  ∧ loop_scheduled s' =
      loop_scheduled s ++ [ticks_to_wait (_ticks_cur_frame s') (_ticks_prev_frame s)]
  ∧ TICKS_PER_FRAME ≤ _ticks_cur_frame s' - _ticks_prev_frame s.
Proof.
  unfold _emu_cycle. intros -> ->. simpl.
  unfold tbind.
  destruct (fps_count _ _) as [[s1 ts1]|] eqn:Hf; [|done].
  apply fps_count_frame in Hf as (Hr1 & Hq1 & Hp1).
  destruct (cycle_tail s1 ts1) as [[s2 ts2]|] eqn:Ht; [|done].
  apply cycle_tail_inv in Ht as (cur & prev' & -> & Hd).
  intros [= <- <-]. simpl. rewrite Hq1, Hp1 in *. done.
Qed.

Lemma loop_run_cycle_consistent o s s' :
  consistent s → loop_run_cycle o s = Some s' → consistent s'.
Proof.
  unfold consistent, chains, loop_run_cycle. intros Hs.
  destruct (loop_scheduled s) as [|d rest] eqn:Hq; [by intros [= <-]; rewrite Hq|].
  destruct (registered_main_loop s) eqn:Hr; simpl in Hs; [|lia].
  destruct rest; [|simpl in Hs; lia].
  destruct (_emu_cycle o (set_scheduled [] s)) as [[r s1]|] eqn:Hc; [|done].
  simpl. intros [= <-]. pose proof Hc as Hc'. revert Hc'. unfold _emu_cycle at 1.
  destruct (obs_truthy o) eqn:Ht; simpl; [|by intros [= <- <-]].
  destruct (obs_running o) eqn:Hrun; simpl; [|by intros [= <- <-]].
  intros _.
  apply _emu_cycle_running_inv in Hc as (_ & Hr1 & Hq1 & _); [|done..].
  simpl in Hr1, Hq1. by rewrite Hr1, Hq1, Hr.
Qed.

Lemma steps_consistent evs : ∀ s s',
  consistent s → steps evs s = Some s' → consistent s'.
Proof.
  induction evs as [|ev evs IH]; intros s s' Hs; simpl; [by intros [= <-]|].
  destruct (step ev s) as [s1|] eqn:H1; [|done].
  apply IH. destruct ev; simpl in H1.
  - injection H1 as <-. by apply register_main_loop_consistent.
  - by eapply loop_run_cycle_consistent.
Qed.

Lemma register_main_loop_registered s :
  registered_main_loop (register_main_loop s) = true.
Proof. unfold register_main_loop. by destruct (registered_main_loop s) eqn:H. Qed.

Lemma register_main_loop_noop s :
  registered_main_loop s = true → register_main_loop s = s.
Proof. unfold register_main_loop. by intros ->. Qed.

Lemma register_main_loop_iter n s :
  Nat.iter (S n) register_main_loop s = register_main_loop s.
Proof.
  induction n as [|n IH]; [done|].
  change (register_main_loop (Nat.iter (S n) register_main_loop s) = register_main_loop s).
  rewrite IH. apply register_main_loop_noop, register_main_loop_registered.
Qed.

(** C7. [register_main_loop] is idempotent: in every state the thread
    object can reach from [__init__] by calls of [register_main_loop] and
    runs of the scheduled cycle, the loop holds one [_emu_cycle] handle when
    the flag is set and none otherwise; any number of further calls of
    [register_main_loop] acts like a single call, leaves exactly one chain
    scheduled, and changes nothing when the flag was already set. *)
Theorem register_main_loop_idempotent (e : Emu) (evs : list Event) s (n : nat) :
  steps evs (init e) = Some s →
  chains s = (if registered_main_loop s then 1%nat else 0%nat)
  ∧ Nat.iter (S n) register_main_loop s = register_main_loop s
  ∧ registered_main_loop (Nat.iter (S n) register_main_loop s) = true
  ∧ chains (Nat.iter (S n) register_main_loop s) = 1%nat
  ∧ (registered_main_loop s = true → Nat.iter (S n) register_main_loop s = s).
Proof.
  intros Hsteps.
  assert (Hs : consistent s) by (eapply steps_consistent; [apply init_consistent|done]).
  rewrite register_main_loop_iter.
  split_and!; try done.
  - apply register_main_loop_registered.
  - pose proof (register_main_loop_consistent s Hs) as Hc.
    unfold consistent in Hc. by rewrite register_main_loop_registered in Hc.
  - apply register_main_loop_noop.
Qed.

Lemma cycle_tail_returns s1 cur0 pre x y post :
  TICKS_PER_FRAME ≤ x - _ticks_prev_frame s1 →
  ∃ s2 ts, cycle_tail s1 (cur0 :: pre ++ x :: y :: post) = Some (s2, ts).
Proof.
  intros Hx. unfold cycle_tail, tbind at 1, get_ticks at 1. unfold tbind at 1.
  destruct (spin_returns (_ticks_prev_frame s1) cur0 pre x (y :: post) Hx)
    as (c & k & ->).
  unfold tbind, tret, get_ticks. destruct k; simpl; eauto.
Qed.

Lemma fps_count_returns s r1 r2 r3 rest :
  ∃ s1 ts, fps_count s (r1 :: r2 :: r3 :: rest) = Some (s1, ts)
           ∧ _ticks_prev_frame s1 = _ticks_prev_frame s
           ∧ (ts = r2 :: r3 :: rest ∨ ts = r3 :: rest ∨ ts = rest).
Proof.
  unfold fps_count, tbind, tret, get_ticks.
  destruct (_fps_sec_start s =? 0); simpl.
  - destruct (r2 - r1 >=? 1000); simpl; eauto 10.
  - destruct (r1 - _fps_sec_start s >=? 1000); simpl; eauto 10.
Qed.

Lemma _emu_cycle_returns o s r1 r2 r3 a pre x y post :
  obs_truthy o = true → obs_running o = true →
  obs_ticks o = r1 :: r2 :: r3 :: a :: pre ++ x :: y :: post →
  TICKS_PER_FRAME ≤ x - _ticks_prev_frame s →
  ∃ s', _emu_cycle o s = Some (true, s').
Proof.
  intros Ht Hr Hts Hx. unfold _emu_cycle. rewrite Ht, Hr, Hts. simpl negb. cbv iota.
  unfold tbind.
  destruct (fps_count_returns s r1 r2 r3 (a :: pre ++ x :: y :: post))
    as (s1 & ts & -> & Hp & Hcase).
  rewrite <- Hp in Hx.
  destruct Hcase as [-> | [-> | ->]].
  - destruct (cycle_tail_returns s1 r2 (r3 :: a :: pre) x y post Hx) as (s2 & k & Hk).
    simpl in Hk. rewrite Hk. eauto.
  - destruct (cycle_tail_returns s1 r3 (a :: pre) x y post Hx) as (s2 & k & Hk).
    simpl in Hk. rewrite Hk. eauto.
  - destruct (cycle_tail_returns s1 a pre x y post Hx) as (s2 & k & ->). eauto.
Qed.

(** C8. In every emulation cycle (the emulator handle is set and running)
    the delay handed to [call_later] for the next cycle is the computed
    [ticks_to_wait], it is never negative, being clamped at zero, and it is
    never longer than a frame period less two ticks; the cycle does return
    as soon as the tick counter shows a frame's worth of ticks. *)
Theorem _emu_cycle_wait_clamped (o : EmuObs) s :
  obs_truthy o = true → obs_running o = true →
  (∀ r s', _emu_cycle o s = Some (r, s') →
     ∃ w, loop_scheduled s' = loop_scheduled s ++ [w]
          ∧ w = ticks_to_wait (_ticks_cur_frame s') (_ticks_prev_frame s)
          ∧ (0 <= w)%Q
          ∧ (w <= 1 / 60 - 2 / 1000)%Q)
  ∧ (∀ r1 r2 r3 a pre x y post,
       obs_ticks o = r1 :: r2 :: r3 :: a :: pre ++ x :: y :: post →
       TICKS_PER_FRAME ≤ x - _ticks_prev_frame s →
       ∃ s', _emu_cycle o s = Some (true, s')).
Proof.
  intros Ht Hr. split.
  - intros r s' H. apply _emu_cycle_running_inv in H as (_ & _ & Hq & Hd); [|done..].
    eexists. split_and!; [exact Hq|done|..].
    + apply ticks_to_wait_nonneg.
    + by apply ticks_to_wait_upper.
  - intros. by eapply _emu_cycle_returns.
Qed.

(** C9 (amended). An access to the emulator through the [emu] property from
    a thread other than the emulator thread raises [RuntimeError] when
    [THREAD_DEBUG] is on, and returns the emulator when it is off. *)
Theorem emu_foreign_thread (THREAD_DEBUG : bool) (current_thread : ThreadId) s :
  Some current_thread ≠ _thread_instance s →
  emu THREAD_DEBUG current_thread s =
    if THREAD_DEBUG
    then Raise (RuntimeError
           "The emulator may only be accessed from withing the emulator thread")
    else Ok (_emu s).
Proof.
  intros Hne. unfold emu. rewrite bool_decide_eq_false_2 by done.
  by destruct THREAD_DEBUG.
Qed.

End Facts.

Import Demo.

Lemma register_main_loop_idempotent_witness :
  steps [CallRegister; LoopRuns first_cycle_obs; CallRegister] (init tt)
    = Some after_first_cycle
  ∧ chains after_first_cycle = 1%nat
  ∧ Nat.iter 3 register_main_loop after_first_cycle = after_first_cycle.
Proof.
  split; [vm_compute; reflexivity|].
  destruct (register_main_loop_idempotent tt
              [CallRegister; LoopRuns first_cycle_obs; CallRegister]
              after_first_cycle 2) as (Hc & _ & _ & _ & Hid).
  - vm_compute. reflexivity.
  - split; [exact Hc|]. apply Hid. reflexivity.
Defined.

Lemma _emu_cycle_wait_clamped_witness :
  ∃ s', _emu_cycle second_cycle_obs after_first_cycle = Some (true, s')
        ∧ ∃ w, loop_scheduled s' = loop_scheduled after_first_cycle ++ [w]
               ∧ (0 <= w)%Q ∧ (w <= 1 / 60 - 2 / 1000)%Q.
Proof.
  destruct (_emu_cycle_wait_clamped second_cycle_obs after_first_cycle eq_refl eq_refl)
    as [Hw Hret].
  destruct (Hret 112 113 120 127 [] 128 129 [] eq_refl) as [s' Hs'].
  { vm_compute. discriminate. }
  exists s'. split; [exact Hs'|].
  destruct (Hw true s' Hs') as (w & Hq & _ & Hnn & Hup). by exists w.
Defined.

Lemma emu_foreign_thread_witness :
  Some 2%nat ≠ _thread_instance owned_by_thread_1
  ∧ emu true 2%nat owned_by_thread_1
    = Raise (RuntimeError
        "The emulator may only be accessed from withing the emulator thread").
Proof.
  split; [discriminate|].
  apply (emu_foreign_thread true 2%nat owned_by_thread_1). discriminate.
Defined.

(** C9 as stated fails: with [THREAD_DEBUG] off, thread 2 reads the emulator
    of a thread object owned by thread 1 and nothing is raised. *)
Lemma emu_foreign_thread_debug_off :
  Some 2%nat ≠ _thread_instance owned_by_thread_1
  ∧ emu false 2%nat owned_by_thread_1 = Ok tt
  ∧ ¬ ∃ e, emu false 2%nat owned_by_thread_1 = Raise e.
Proof. split_and!; [discriminate|reflexivity|]. intros [e H]. discriminate H. Qed.

Example second_cycle_runs :
  _emu_cycle second_cycle_obs after_first_cycle
  = Some (true, set_scheduled [0%Q; (880 # 60000)%Q] after_second_cycle).
Proof. vm_compute. reflexivity. Qed.

End EmulatorThreadFacts.

(** * Properties of the debug overlay *)

Module DebugOverlayFacts.
Import DebugOverlay.

Section Facts.
Context {Entity Map : Type} (bbox : Entity → Map → BBox).
Implicit Types (s : Sys) (ges : GroundEngineState Entity Map).

Lemma refresh_locked_refresh_cache ges c :
  _refresh_cache (refresh_locked bbox ges c) = _refresh_cache c.
Proof. unfold refresh_locked. simpl. by destruct (running ges). Qed.

Lemma refresh_locked_stopped ges c :
  running ges = false →
  _cache_running (refresh_locked bbox ges c) = false
  ∧ caches (refresh_locked bbox ges c) = caches c.
Proof. unfold refresh_locked. simpl. by intros ->. Qed.

Lemma _update_cache_stopped ges s :
  running ges = false →
  _cache_running (ctl (_update_cache bbox ges s)) = false
  ∧ caches (ctl (_update_cache bbox ges s)) = caches (ctl s).
Proof.
  intros Hr. destruct (refresh_locked_stopped ges (ctl s) Hr) as [H1 H2].
  unfold _update_cache. by destruct (_refresh_cache _).
Qed.

Lemma draw_ctl d s :
  _cache_running (ctl (snd (draw d s))) = _cache_running (ctl s)
  ∧ _refresh_cache (ctl (snd (draw d s))) = _refresh_cache (ctl s)
  ∧ caches (ctl (snd (draw d s))) = caches (ctl s).
Proof.
  unfold draw.
  destruct ((d =? 1) && enabled (ctl s) && debugger (ctl s)); [|done].
  destruct (_refresh_cache (ctl s) && negb (_cache_redrawing_registered (ctl s)));
    simpl; by destruct (_cache_running (ctl s)).
Qed.

Lemma draw_not_running d s :
  _cache_running (ctl s) = false → fst (draw d s) = [].
Proof.
  intros Hr. unfold draw.
  destruct ((d =? 1) && enabled (ctl s) && debugger (ctl s)); [|done].
  destruct (_refresh_cache (ctl s) && negb (_cache_redrawing_registered (ctl s)));
    simpl; by rewrite Hr.
Qed.

Lemma step_not_running ev s :
  no_running_refresh ev = true → _cache_running (ctl s) = false →
  _cache_running (ctl (step bbox ev s)) = false.
Proof.
  intros Hev Hr. destruct ev as [d|b| | |ges|]; simpl in *; try done.
  - by rewrite (proj1 (draw_ctl d s)).
  - destruct (pending s) as [|n]; [done|].
    apply negb_true_iff in Hev.
    apply (_update_cache_stopped ges (mkSys (ctl s) n (sleeping s)) Hev).
  - by destruct (sleeping s).
Qed.

Lemma steps_not_running evs : ∀ s,
  forallb no_running_refresh evs = true → _cache_running (ctl s) = false →
  _cache_running (ctl (steps bbox evs s)) = false.
Proof.
  induction evs as [|ev evs IH]; intros s Hevs Hr; [done|].
  simpl in Hevs. apply andb_true_iff in Hevs as [Hev Hevs].
  change (steps bbox (ev :: evs) s) with (steps bbox evs (step bbox ev s)).
  apply IH; [done|]. by apply step_not_running.
Qed.

(** C6. A refresh that finds [ground_engine_state.running] false sets the
    cached running flag to false and does not rebuild the four collections;
    [draw] fills bounding boxes only when the cached flag is true, and what
    it fills is the cached collections; so after such a refresh [draw] fills
    nothing, whatever else is called, until a refresh finds the ground engine
    running again. *)
Theorem stale_collections_not_drawn ges s (d : Z) :
  (running ges = false →
     _cache_running (ctl (_update_cache bbox ges s)) = false
     ∧ caches (ctl (_update_cache bbox ges s)) = caches (ctl s)
     ∧ ∀ evs, forallb no_running_refresh evs = true →
              fst (draw d (steps bbox evs (_update_cache bbox ges s))) = [])
  ∧ (_cache_running (ctl s) = false → fst (draw d s) = [])
  ∧ (fst (draw d s) ≠ [] →
       _cache_running (ctl s) = true ∧ fst (draw d s) = drawn (ctl s)).
Proof.
  split_and!.
  - intros Hr. destruct (_update_cache_stopped ges s Hr) as [H1 H2].
    split_and!; [done..|]. intros evs Hevs.
    apply draw_not_running. by apply steps_not_running.
  - apply draw_not_running.
  - intros Hne. destruct (_cache_running (ctl s)) eqn:Hr.
    + split; [done|]. revert Hne. unfold draw.
      destruct ((d =? 1) && enabled (ctl s) && debugger (ctl s)); [|done].
      destruct (_refresh_cache (ctl s) && negb (_cache_redrawing_registered (ctl s)));
        simpl; by rewrite Hr.
    + by rewrite draw_not_running in Hne.
Qed.

Lemma step_frozen ev s :
  is_release ev = false → _refresh_cache (ctl s) = false →
  _refresh_cache (ctl (step bbox ev s)) = false
  ∧ (inflight (step bbox ev s) ≤ inflight s)%nat
  ∧ (inflight s = 0%nat → caches (ctl (step bbox ev s)) = caches (ctl s)).
Proof.
  intros Hev Hf. destruct ev as [d|b| | |ges|]; simpl in *; try done.
  - destruct (draw_ctl d s) as (_ & H2 & H3). split_and!; [congruence| |done].
    unfold draw, inflight.
    destruct ((d =? 1) && enabled (ctl s) && debugger (ctl s)); [|done].
    rewrite Hf. simpl. by destruct (_cache_running (ctl s)).
  - unfold inflight. destruct (pending s) as [|n] eqn:Hp; [rewrite Hp; done|].
    unfold _update_cache. simpl.
    rewrite refresh_locked_refresh_cache, Hf. simpl.
    rewrite refresh_locked_refresh_cache. split_and!; [done|lia|lia].
  - unfold inflight. destruct (sleeping s) as [|n] eqn:Hs; [rewrite Hs; done|].
    unfold _update_cache_resume. simpl. rewrite Hs. simpl.
    split_and!; [done|lia|lia].
Qed.

Lemma steps_frozen evs : ∀ s,
  forallb (λ ev, negb (is_release ev)) evs = true →
  _refresh_cache (ctl s) = false →
  _refresh_cache (ctl (steps bbox evs s)) = false
  ∧ (inflight (steps bbox evs s) ≤ inflight s)%nat
  ∧ (inflight s = 0%nat → caches (ctl (steps bbox evs s)) = caches (ctl s)).
Proof.
  induction evs as [|ev evs IH]; intros s Hevs Hf; [done|].
  simpl in Hevs. apply andb_true_iff in Hevs as [Hev Hevs].
  apply negb_true_iff in Hev.
  destruct (step_frozen ev s Hev Hf) as (H1 & H2 & H3).
  destruct (IH (step bbox ev s) Hevs H1) as (I1 & I2 & I3).
  change (steps bbox (ev :: evs) s) with (steps bbox evs (step bbox ev s)).
  split_and!; [done|lia|].
  intros H0. rewrite I3 by lia. by apply H3.
Qed.

(** C5 (amended). After [break_pulled()] and until [break_released()] is
    called, no new refresh is started: [draw] submits none and an
    [_update_cache] that runs does not reschedule itself, so the number of
    refresh coroutines in flight never grows; and once none is in flight,
    whatever is called, the four bounding-box collections stay as they
    were.  (A refresh that was already in flight when [break_pulled()] was
    called still runs and rebuilds the collections.) *)
Theorem overlay_frozen_after_break_pulled s (evs : list (Event Entity Map)) :
  forallb (λ ev, negb (is_release ev)) evs = true →
  let s0 := step bbox CallBreakPulled s in
  (inflight (steps bbox evs s0) ≤ inflight s)%nat
  ∧ (inflight s = 0%nat → caches (ctl (steps bbox evs s0)) = caches (ctl s))
  ∧ (∀ ges, pending (_update_cache bbox ges s0) = pending s
            ∧ sleeping (_update_cache bbox ges s0) = sleeping s
            ∧ _cache_redrawing_registered (ctl (_update_cache bbox ges s0)) = false)
  ∧ (∀ d, snd (draw d s0) = s0).
Proof.
  intros Hevs s0.
  assert (Hf : _refresh_cache (ctl s0) = false) by done.
  destruct (steps_frozen evs s0 Hevs Hf) as (_ & H2 & H3).
  split_and!; [done|done| |].
  - intros ges. unfold _update_cache.
    rewrite refresh_locked_refresh_cache, Hf. done.
  - intros d. unfold draw.
    destruct ((d =? 1) && enabled (ctl s0) && debugger (ctl s0)); [|done].
    rewrite Hf. simpl. by destruct (_cache_running (ctl s0)).
Qed.

End Facts.

Import Demo.

Lemma stale_collections_not_drawn_witness :
  running stopped_engine = false
  ∧ _cache_running (ctl (_update_cache box_bbox stopped_engine overlay_refreshed)) = false
  ∧ caches (ctl (_update_cache box_bbox stopped_engine overlay_refreshed))
    = ([(8, 8, 24, 40)], [], [], [])
  ∧ fst (draw 1 (steps box_bbox [SleepEnds; CallDraw 1; LoopStartsUpdate stopped_engine]
                   (_update_cache box_bbox stopped_engine overlay_refreshed))) = [].
Proof.
  split; [reflexivity|].
  destruct (stale_collections_not_drawn box_bbox stopped_engine overlay_refreshed 1)
    as (H & _ & _).
  destruct (H eq_refl) as (H1 & H2 & H3).
  split_and!; [exact H1|rewrite H2; reflexivity|].
  apply (H3 [SleepEnds; CallDraw 1; LoopStartsUpdate stopped_engine]). reflexivity.
Defined.

Lemma overlay_frozen_after_break_pulled_witness :
  inflight overlay_quiescent = 0%nat
  ∧ caches (ctl (steps box_bbox
                   [CallDraw 1; LoopStartsUpdate one_actor; SleepEnds;
                    LoopStartsUpdate stopped_engine; CallDraw 1]
                   (step box_bbox CallBreakPulled overlay_quiescent)))
    = caches (ctl overlay_quiescent).
Proof.
  split; [reflexivity|].
  refine (proj1 (proj2 (overlay_frozen_after_break_pulled box_bbox overlay_quiescent
    [CallDraw 1; LoopStartsUpdate one_actor; SleepEnds;
     LoopStartsUpdate stopped_engine; CallDraw 1] _)) _); reflexivity.
Defined.

(** C5 as stated fails: [draw] submitted a refresh, [break_pulled()] is
    called before the refresh starts, and the refresh, run afterwards and
    before any [break_released()], rebuilds the actor collection. *)
Lemma refresh_after_break_pulled_rebuilds :
  _refresh_cache (ctl overlay_break_before_refresh) = false
  ∧ caches (ctl overlay_break_before_refresh) = ([], [], [], [])
  ∧ caches (ctl (step box_bbox (LoopStartsUpdate one_actor) overlay_break_before_refresh))
    = ([(8, 8, 24, 40)], [], [], [])
  ∧ caches (ctl (_update_cache box_bbox one_actor overlay_break_before_refresh))
    ≠ caches (ctl overlay_break_before_refresh).
Proof. split_and!; [reflexivity..|discriminate]. Qed.

Example draw_after_refresh :
  fst (draw 1 overlay_refreshed) = [mkRect COLOR_ACTOR 8 8 16 32].
Proof. reflexivity. Qed.

End DebugOverlayFacts.

(** * Properties of the main controller *)

Module MainFacts.
Import Main.

(** ** Paths *)

Lemma no_slash_app a b : no_slash (a +:+ b) = no_slash a && no_slash b.
Proof. induction a as [|c a IH]; simpl; [done|]. rewrite IH. by rewrite andb_assoc. Qed.

Lemma basename_from_no_slash p : ∀ acc,
  no_slash acc = true → no_slash (basename_from acc p) = true.
Proof.
  induction p as [|c p IH]; intros acc Hacc; simpl; [done|].
  case_bool_decide as Hc; [by apply IH|].
  apply IH. rewrite no_slash_app, Hacc. simpl. by rewrite bool_decide_eq_false_2.
Qed.

Lemma basename_no_slash p : no_slash (basename p) = true.
Proof. by apply basename_from_no_slash. Qed.

Lemma starts_with_slash_file x rest :
  no_slash x = true → starts_with_slash (x +:+ "." +:+ rest) = false.
Proof.
  destruct x as [|c x]; simpl; [done|].
  intros [Hc _]%andb_true_iff. by apply negb_true_iff in Hc.
Qed.

Lemma ends_with_slash_app a b :
  b ≠ EmptyString → ends_with_slash (a +:+ b) = ends_with_slash b.
Proof.
  intros Hb. induction a as [|c a IH]; [done|].
  simpl. rewrite IH. destruct (a +:+ b) eqn:Hab; [|done].
  destruct a; simpl in Hab; [done|discriminate].
Qed.

Lemma app_not_empty a b : b ≠ EmptyString → a +:+ b ≠ EmptyString.
Proof. destruct a; simpl; [done|discriminate]. Qed.

Lemma config_dir_shape base :
  path_join base "debugger" ≠ EmptyString
  ∧ ends_with_slash (path_join base "debugger") = false.
Proof.
  unfold path_join. simpl.
  destruct (bool_decide (base = EmptyString) || ends_with_slash base).
  - split; [by apply app_not_empty|by rewrite ends_with_slash_app].
  - split; [by apply app_not_empty|].
    rewrite ends_with_slash_app; done.
Qed.

Lemma savestate_path_eq base rom i ext :
  savestate_path (path_join base "debugger") rom i ext
  = path_join base "debugger" +:+ "/" +:+ basename rom +:+ ".save." +:+ pretty i
      +:+ "." +:+ ext.
Proof.
  destruct (config_dir_shape base) as [Hne Hend].
  unfold savestate_path. unfold path_join at 1.
  change (basename rom +:+ ".save." +:+ pretty i +:+ "." +:+ ext)
    with (basename rom +:+ "." +:+ ("save." +:+ pretty i +:+ "." +:+ ext)).
  rewrite starts_with_slash_file by apply basename_no_slash.
  rewrite Hend, bool_decide_eq_false_2 by done. done.
Qed.


Section Facts.
Context {E G : Type} `{!Emulator E} `{!GroundEngine G}.
Implicit Types w : World E G.

(** ** The monad *)

Lemma bind_ok {A B} (m : M E G A) (k : A → M E G B) w a w' :
  m w = (Ok a, w') → bind m k w = k a w'.
Proof. unfold bind. by intros ->. Qed.

Lemma same_machine_refl w : same_machine w w.
Proof. by repeat split. Qed.

Lemma same_machine_trans w1 w2 w3 :
  same_machine w1 w2 → same_machine w2 w3 → same_machine w1 w3.
Proof. unfold same_machine. intros ? ?. destruct_and!. split_and!; congruence. Qed.

(** ** Release hooks and [fail_hard] *)

Lemma break_released_spec w :
  ∃ w', break_released w = (Ok tt, w')
        ∧ same_machine w w'
        ∧ log w' = log w ++ break_released_effects (volume_active w)
        ∧ breakpoint_state w' = None.
Proof.
  unfold break_released, bind, get, when, do_set_buttons, modify, effect,
    toggle_paused_debugging_features, bind, modify, ret.
  destruct (volume_active w) eqn:Hv; simpl; eexists; split_and!;
    try reflexivity; try (by repeat split); simpl;
    rewrite <- ?app_assoc; simpl; by rewrite ?Hv.
Qed.

Lemma call_hook_spec h w :
  ∃ w', call_hook h w = (Ok tt, w')
        ∧ same_machine w w'
        ∧ log w' = log w ++ hook_effects (volume_active w) h
        ∧ (breakpoint_state w' = breakpoint_state w ∨ breakpoint_state w' = None).
Proof.
  unfold call_hook. destruct h as [|name].
  - destruct (break_released_spec (set_log (log w ++ [ReleaseHook HookMainBreakReleased]) w))
      as (w' & Hrun & Hm & Hl & Hb).
    exists w'. split_and!; [exact Hrun|exact Hm| |by right].
    rewrite Hl. simpl. by rewrite <- app_assoc.
  - eexists. split_and!; [reflexivity|by repeat split|done|by left].
Qed.

Lemma call_hooks_spec hs : ∀ w,
  ∃ w', call_hooks hs w = (Ok tt, w')
        ∧ same_machine w w'
        ∧ log w' = log w ++ concat (hook_effects (volume_active w) <$> hs)
        ∧ (breakpoint_state w' = breakpoint_state w ∨ breakpoint_state w' = None).
Proof.
  induction hs as [|h hs IH]; intros w; simpl.
  - exists w. split_and!; [done|apply same_machine_refl|by rewrite app_nil_r|by left].
  - destruct (call_hook_spec h w) as (w1 & Hrun1 & Hm1 & Hl1 & Hb1).
    destruct (IH w1) as (w2 & Hrun2 & Hm2 & Hl2 & Hb2).
    exists w2. split_and!.
    + by rewrite (bind_ok _ _ _ _ _ Hrun1).
    + by eapply same_machine_trans.
    + rewrite Hl2, Hl1, <- app_assoc.
      by replace (volume_active w1) with (volume_active w) by (symmetry; apply Hm1).
    + destruct Hb2 as [Hb2|Hb2]; [rewrite Hb2; exact Hb1|by right].
Qed.

Lemma fail_hard_if_set_spec w :
  ∃ w', fail_hard_if_set w = (Ok tt, w')
        ∧ same_machine w w'
        ∧ log w' = log w ++ fail_hard_effects (volume_active w) (breakpoint_state w)
        ∧ match breakpoint_state w with
          | Some bs => breakpoint_state w' = None
                       ∨ breakpoint_state w' = Some (set_phase HardFailed bs)
          | None => w' = w
          end.
Proof.
  unfold fail_hard_if_set, fail_hard, bind at 1, get at 1.
  destruct (breakpoint_state w) as [bs|] eqn:Hb; simpl.
  - unfold bind at 1, get. rewrite Hb. simpl.
    rewrite (bind_ok (effect (FailHard bs)) _ w tt _ eq_refl).
    rewrite (bind_ok (modify _) _ _ tt _ eq_refl).
    destruct (call_hooks_spec (release_hooks bs)
                (set_breakpoint_state (Some (set_phase HardFailed bs))
                   (set_log (log w ++ [FailHard bs]) w)))
      as (w' & Hrun & Hm & Hl & Hbp).
    exists w'. split_and!; [exact Hrun| | |].
    + eapply same_machine_trans; [|exact Hm]. by repeat split.
    + rewrite Hl. simpl. by rewrite <- app_assoc.
    + destruct Hbp as [->| ->]; [by right|by left].
  - exists w. split_and!; [done|apply same_machine_refl|by rewrite app_nil_r|done].
Qed.

Lemma hook_effects_hook vol h : omap hook_of (hook_effects vol h) = [h].
Proof. destruct h; [|done]. by destruct vol. Qed.

Lemma hooks_effects_hooks vol hs :
  omap hook_of (concat (hook_effects vol <$> hs)) = hs.
Proof.
  induction hs as [|h hs IH]; [done|].
  rewrite fmap_cons, concat_cons, omap_app, IH, hook_effects_hook. done.
Qed.

Lemma fail_hard_effects_hooks vol bs :
  omap hook_of (fail_hard_effects vol (Some bs)) = release_hooks bs.
Proof. apply hooks_effects_hooks. Qed.

Lemma fail_hard_effects_no_teardown vol b :
  Forall (λ e, is_teardown e = false ∧ is_dialog e = false) (fail_hard_effects vol b).
Proof.
  destruct b as [bs|]; simpl; [|done].
  constructor; [done|].
  induction (release_hooks bs) as [|h hs IH]; simpl; [done|].
  constructor; [done|]. apply Forall_app. split; [|done].
  destruct h; simpl; [|done]. by destruct vol; repeat constructor.
Qed.


(** ** The [emu_is_running] property *)

(** C10. The [emu_is_running] property returns [False] whenever a
    [breakpoint_state] exists and is stopped, whatever [_emu_is_running]
    holds; when there is no stopped [breakpoint_state], it returns the
    stored [_emu_is_running], which is what the setter stored. *)
Theorem emu_is_running_property w :
  (∀ bs, breakpoint_state w = Some bs → is_stopped bs = true →
         emu_is_running w = false)
  ∧ ((∀ bs, breakpoint_state w = Some bs → is_stopped bs = false) →
     emu_is_running w = _emu_is_running w
     ∧ ∀ value, emu_is_running (emu_is_running_setter value w) = value).
Proof.
  unfold emu_is_running. split.
  - by intros bs -> ->.
  - intros Hns. simpl. destruct (breakpoint_state w) as [bs|]; [|done].
    by rewrite (Hns bs eq_refl).
Qed.

(** ** Savestates *)

Lemma new_effects_app w w' l : log w' = log w ++ l → new_effects w w' = l.
Proof. unfold new_effects. intros ->. apply drop_app_length. Qed.


Ltac log_eq := simpl; rewrite <- ?app_assoc; reflexivity.

(** C1 (amended). If the ground engine JSON file of the slot does not exist,
    [loadstate] returns normally and leaves everything as it was: nothing
    is reported, the emulator is not reset, the native snapshot is not
    loaded and no state changes. *)
Theorem loadstate_missing_json w (i : Z) (rom : string) :
  rom_filename w = Some rom →
  disk w !! savestate_path (config_dir w) rom i SAVESTATE_EXT_GROUND_ENGINE = None →
  loadstate i w = (Ok tt, w).
Proof.
  intros Hrom Hnone.
  unfold loadstate, rom_basename_source, bind, get, ret. rewrite Hrom. simpl.
  by rewrite Hnone.
Qed.

Local Opaque fail_hard_if_set.

Ltac use_machine Hm :=
  destruct Hm as (?Ht & ?Hr & ?Hst & ?Hrom & ?Hcfg & ?Hvol & ?Hemu & ?Hges & ?Hdisk & ?Hro);
  simpl in *.

Lemma loadstate_runs w (i : Z) (rom text : string) (g g' : G) (e1 e2 : E) :
  emu_thread w = true →
  rom_filename w = Some rom →
  disk w !! savestate_path (config_dir w) rom i SAVESTATE_EXT_GROUND_ENGINE = Some text →
  ground_engine_state w = Some g →
  open rom (emu w) = (e1, None) →
  savestate_load_file
    (disk w !! savestate_path (config_dir w) rom i SAVESTATE_EXT_DESUME) e1 = (e2, None) →
  deserialize_json text (ges_reset g) = (g', None) →
  ∃ w', loadstate i w = (Ok tt, w')
    ∧ log w' = log w ++ [EmuIsRunning]
               ++ fail_hard_effects (volume_active w) (breakpoint_state w)
               ++ [GesReset; EmuOpen rom; EmuIsRunning;
                   SavestateLoadFile
                     (savestate_path (config_dir w) rom i SAVESTATE_EXT_DESUME);
                   OpenRead
                     (savestate_path (config_dir w) rom i SAVESTATE_EXT_GROUND_ENGINE);
                   GesDeserialize text; EmuIsRunning;
                   TogglePausedDebuggingFeatures true; VariableSync; GroundStateSync;
                   SetButtons (if is_running (emu w) then ButtonsRunning
                               else ButtonsPaused)]
    ∧ emu w' = e2
    ∧ ground_engine_state w' = Some g'
    ∧ _emu_is_running w' = is_running e2
    ∧ _stopped w' = false
    ∧ disk w' = disk w
    ∧ buttons w' = mkButtons img_stop
                     (if is_running (emu w) then img_pause else img_play2).
Proof.
  intros Hthread Hrom Hge Hg Hopen Hload Hdes.
  unfold loadstate, rom_basename_source, emu_reset, emu_is_running_call,
    the_ground_engine_state, open_read, load_debugger_state, do_set_buttons,
    toggle_paused_debugging_features, try_except, when, threadsafe_emu, fallible,
    effect, modify, bind, get, ret, emu_is_running_setter.
  repeat progress (simpl; rewrite ?Hrom, ?Hge, ?Hthread).
  match goal with |- context [fail_hard_if_set ?w0] =>
    destruct (fail_hard_if_set_spec w0) as (w1 & Hrun & Hm & Hl & _); rewrite Hrun
  end.
  use_machine Hm.
  repeat progress (simpl; rewrite ?Hges, ?Hg, ?Hrom0, ?Hrom, ?Ht, ?Hthread, ?Hemu, ?Hopen,
    ?Hdisk, ?Hcfg, ?Hload, ?Hge, ?Hdes).
  destruct (is_running (emu w)); simpl.
  all: eexists; split; [reflexivity|]; simpl.
  all: rewrite ?Hl, ?Hvol, ?Hst; simpl.
  all: split_and!; try done.
  all: try (by rewrite <- !app_assoc).
  all: by destruct (buttons w1) as [[] []].
Qed.

Ltac norm_with tac := repeat progress (simpl; tac).
Ltac split_case :=
  match goal with
  | |- context [match ground_engine_state ?x with _ => _ end] =>
      destruct (ground_engine_state x) eqn:?
  | |- context [let (_, _) := open ?r ?e in _] =>
      destruct (open r e) as [? [?|]] eqn:?
  | |- context [if is_RuntimeError ?e then _ else _] =>
      destruct (is_RuntimeError e) eqn:?
  | |- context [let (_, _) := savestate_load_file ?c ?e in _] =>
      destruct (savestate_load_file c e) as [? [?|]] eqn:?
  | |- context [let (_, _) := deserialize_json ?t ?g in _] =>
      destruct (deserialize_json t g) as [? [?|]] eqn:?
  | |- context [if is_running ?e then _ else _] =>
      destruct (is_running e) eqn:?
  end.

Lemma loadstate_reports_failure w (i : Z) (rom text : string) :
  rom_filename w = Some rom →
  disk w !! savestate_path (config_dir w) rom i SAVESTATE_EXT_GROUND_ENGINE = Some text →
  (emu_thread w = true
   ∧ ∃ g g' e1 e2,
       ground_engine_state w = Some g
       ∧ open rom (emu w) = (e1, None)
       ∧ savestate_load_file
           (disk w !! savestate_path (config_dir w) rom i SAVESTATE_EXT_DESUME) e1
         = (e2, None)
       ∧ deserialize_json text (ges_reset g) = (g', None))
  ∨ existsb is_dialog (new_effects w (snd (loadstate i w))) = true.
Proof.
  intros Hrom Hge.
  unfold loadstate, rom_basename_source, emu_reset, emu_is_running_call,
    the_ground_engine_state, open_read, load_debugger_state, do_set_buttons,
    toggle_paused_debugging_features, try_except, when, threadsafe_emu, fallible,
    effect, modify, bind, get, ret, raise, emu_is_running_setter, BaseException.
  simpl. rewrite Hrom. simpl. rewrite Hge.
  destruct (emu_thread w) eqn:Hthread; repeat progress (simpl; rewrite ?Hthread).
  2:{ right. erewrite new_effects_app by log_eq. reflexivity. }
  match goal with |- context [fail_hard_if_set ?w0] =>
    destruct (fail_hard_if_set_spec w0) as (w1 & Hrun & Hm & Hl & _); rewrite Hrun
  end.
  use_machine Hm.
  repeat (norm_with ltac:(rewrite ?Hges, ?Hrom0, ?Hrom, ?Ht, ?Hthread, ?Hemu, ?Hdisk,
                            ?Hcfg, ?Hge);
          split_case).
  all: norm_with ltac:(rewrite ?Hges, ?Hrom0, ?Hrom, ?Ht, ?Hthread, ?Hemu, ?Hdisk,
                         ?Hcfg, ?Hge).
  all: try (right; erewrite new_effects_app by (rewrite ?Hl; log_eq);
            simpl; rewrite ?existsb_app; simpl; by rewrite ?orb_true_r).
  all: left; split; [done|]; eexists _, _, _, _; eauto.
Qed.


(** C3 (amended). A [loadstate] of a slot whose JSON file exists and which
    shows no error dialog has exactly these effects in this order: the
    running flag of the emulator is read; the breakpoint state, if any, is
    failed hard; the ground engine state and the emulator are reset
    ([emu.open]); the native snapshot is loaded; the JSON is deserialized into
    the ground engine state; the debugger state is reloaded; and the buttons
    are set to running or paused according to the running flag read at the
    start, before the reset. *)
Theorem loadstate_effects w (i : Z) (rom text : string) :
  rom_filename w = Some rom →
  disk w !! savestate_path (config_dir w) rom i SAVESTATE_EXT_GROUND_ENGINE = Some text →
  existsb is_dialog (new_effects w (snd (loadstate i w))) = false →
  let w' := snd (loadstate i w) in
  let ds := savestate_path (config_dir w) rom i SAVESTATE_EXT_DESUME in
  let ge := savestate_path (config_dir w) rom i SAVESTATE_EXT_GROUND_ENGINE in
  fst (loadstate i w) = Ok tt
  ∧ new_effects w w'
    = [EmuIsRunning] ++ fail_hard_effects (volume_active w) (breakpoint_state w)
      ++ [GesReset; EmuOpen rom; EmuIsRunning; SavestateLoadFile ds; OpenRead ge;
          GesDeserialize text; EmuIsRunning;
          TogglePausedDebuggingFeatures true; VariableSync; GroundStateSync;
          SetButtons (if is_running (emu w) then ButtonsRunning else ButtonsPaused)]
  ∧ buttons w' = mkButtons img_stop (if is_running (emu w) then img_pause else img_play2)
  ∧ emu w' = fst (savestate_load_file (disk w !! ds) (fst (open rom (emu w))))
  ∧ (∃ g, ground_engine_state w = Some g
          ∧ ground_engine_state w' = Some (fst (deserialize_json text (ges_reset g))))
  ∧ _emu_is_running w' = is_running (emu w')
  ∧ _stopped w' = false
  ∧ disk w' = disk w.
Proof.
  intros Hrom Hge Hquiet. cbv zeta.
  destruct (loadstate_reports_failure w i rom text Hrom Hge)
    as [(Ht & g & g' & e1 & e2 & Hg & Hopen & Hload & Hdes)|Hdialog];
    [|congruence].
  destruct (loadstate_runs w i rom text g g' e1 e2 Ht Hrom Hge Hg Hopen Hload Hdes)
    as (w' & Hrun & Hlog & Hemu & Hges & Hr & Hst & Hdisk & Hbtn).
  rewrite Hrun. simpl. rewrite Hopen. simpl. rewrite Hload. simpl.
  split_and!; try done.
  - by apply new_effects_app.
  - exists g. by rewrite Hdes.
  - by rewrite Hemu.
Qed.




(** ** Computations that only append to the log *)

Lemma continues_refl w : continues w w.
Proof. split; [|done]. exists []. by rewrite app_nil_r. Qed.

Lemma continues_trans w1 w2 w3 : continues w1 w2 → continues w2 w3 → continues w1 w3.
Proof.
  intros [[l1 H1] B1] [[l2 H2] B2]. split; [|congruence].
  exists (l1 ++ l2). by rewrite H2, H1, app_assoc.
Qed.

Lemma appends_ret {A} (a : A) : appends (ret (E:=E) (G:=G) a).
Proof. intros w. apply continues_refl. Qed.

Lemma appends_raise {A} e : appends (raise (E:=E) (G:=G) (A:=A) e).
Proof. intros w. apply continues_refl. Qed.

Lemma appends_get {A} (f : World E G → A) : appends (get f).
Proof. intros w. apply continues_refl. Qed.

Lemma appends_effect e : appends (effect (E:=E) (G:=G) e).
Proof. intros w. split; [|done]. by exists [e]. Qed.

Lemma appends_modify (f : World E G → World E G) :
  (∀ w, log (f w) = log w ∧ breakpoint_state (f w) = breakpoint_state w) →
  appends (modify f).
Proof.
  intros Hf w. destruct (Hf w) as [Hl Hb]. split; [|done].
  exists []. simpl. by rewrite Hl, app_nil_r.
Qed.

Lemma appends_bind {A B} (m : M E G A) (k : A → M E G B) :
  appends m → (∀ a, appends (k a)) → appends (bind m k).
Proof.
  intros Hm Hk w. unfold bind. specialize (Hm w).
  destruct (m w) as [[a|e] w1]; simpl in *; [|done].
  eapply continues_trans; [exact Hm|apply Hk].
Qed.

Lemma appends_try_except {A} (m : M E G A) c h :
  appends m → (∀ e, appends (h e)) → appends (try_except m c h).
Proof.
  intros Hm Hh w. unfold try_except. specialize (Hm w).
  destruct (m w) as [[a|e] w1]; simpl in *; [done|].
  destruct (c e); [|done].
  eapply continues_trans; [exact Hm|apply Hh].
Qed.

Lemma appends_threadsafe_emu {A} what (f : E → Res A * E) :
  appends (threadsafe_emu (G:=G) what f).
Proof.
  intros w. unfold threadsafe_emu. destruct (emu_thread w); [|apply continues_refl].
  simpl. destruct (f (emu w)) as [r e']. simpl. split; [|done]. by exists [what].
Qed.

Ltac appends_step :=
  first
    [ apply appends_bind
    | apply appends_try_except
    | apply appends_ret
    | apply appends_raise
    | apply appends_get
    | apply appends_effect
    | apply appends_threadsafe_emu
    | apply appends_modify; intros; split; reflexivity
    | match goal with
      | |- appends (match ?x with _ => _ end) => destruct x
      | |- appends (if ?b then _ else _) => destruct b
      end ].

Ltac appends_tac :=
  unfold emu_is_running_call, load_debugger_state, do_set_buttons,
    toggle_paused_debugging_features, the_ground_engine_state, open_read, when;
  repeat (intros; appends_step).

(** ** [fail_hard] comes first *)

Lemma starts_at_bind {A B} w (m : M E G A) (k2 : A → M E G B) :
  starts_at w m → (∀ a, appends (k2 a)) → starts_at w (bind m k2).
Proof.
  intros (k & Hk & Hm) Hk2. exists (λ a, bind (k a) k2). split.
  - intros a. by apply appends_bind.
  - unfold bind at 1. rewrite Hm. unfold bind.
    by destruct (fail_hard_if_set w) as [[[]|e] w1].
Qed.

Lemma starts_at_try_except {A} w (m : M E G A) c h :
  starts_at w m → (∀ e, appends (h e)) → starts_at w (try_except m c h).
Proof.
  intros (k & Hk & Hm) Hh. exists (λ a, try_except (k a) c h). split.
  - intros a. by apply appends_try_except.
  - unfold try_except at 1. rewrite Hm. unfold bind.
    destruct (fail_hard_if_set_spec w) as (w1 & -> & _). done.
Qed.

Lemma starts_at_effects {A} w (m : M E G A) bs :
  starts_at w m → breakpoint_state w = Some bs →
  ∃ post,
    log (snd (m w)) = log w ++ fail_hard_effects (volume_active w) (Some bs) ++ post
    ∧ (breakpoint_state (snd (m w)) = None
       ∨ breakpoint_state (snd (m w)) = Some (set_phase HardFailed bs)).
Proof.
  intros (k & Hk & ->) Hbs.
  destruct (fail_hard_if_set_spec w) as (w1 & Hrun & _ & Hl & Hb).
  rewrite Hbs in Hl, Hb. rewrite (bind_ok _ _ _ _ _ Hrun).
  destruct (Hk tt w1) as [[post Hpost] Hbp].
  exists post. split; [by rewrite Hpost, Hl, <- app_assoc|by rewrite Hbp].
Qed.

Lemma emu_reset_starts w : emu_thread w = true → starts_at w emu_reset.
Proof.
  intros Ht. eexists. split; [|unfold emu_reset, bind at 1, get, when; rewrite Ht; reflexivity].
  appends_tac.
Qed.


Lemma starts_at_intro {A} w (k : unit → M E G A) :
  (∀ a, appends (k a)) → starts_at w (bind fail_hard_if_set k).
Proof. intros Hk. by exists k. Qed.

Lemma try_except_bind_ok {A B} (m : M E G A) (k : A → M E G B) c h w a w1 :
  m w = (Ok a, w1) → try_except (bind m k) c h w = try_except (k a) c h w1.
Proof. intros Hm. unfold try_except, bind. by rewrite Hm. Qed.

Lemma new_effects_nil w : new_effects w w = [].
Proof. unfold new_effects. apply drop_all. Qed.

(** C4. Whenever a breakpoint state is set and the ROM is reset
    ([emu_reset]), the emulator is stopped ([emu_stop]), a savestate is
    loaded ([loadstate]) or the window is closed ([gtk_main_quit],
    [on_main_window_destroy]), [fail_hard] is called on that breakpoint
    state before any effect that resets, stops, reloads or tears down the
    emulator; its release hooks are then called, each once and in
    registration order, and afterwards the controller holds no stopped
    breakpoint state.  When the guards of the method keep it from acting
    (no emulator thread, no JSON file for the slot), nothing is reset,
    stopped or torn down at all. *)
Theorem fail_hard_before_teardown (t : Teardown) w (bs : BreakpointState) :
  breakpoint_state w = Some bs →
  let w' := snd (run_teardown t w) in
  if reaches_teardown t w
  then ∃ pre post,
         new_effects w w'
           = pre ++ fail_hard_effects (volume_active w) (Some bs) ++ post
         ∧ Forall (λ e, is_teardown e = false) pre
         ∧ omap hook_of (fail_hard_effects (volume_active w) (Some bs))
             = release_hooks bs
         ∧ (breakpoint_state w' = None
            ∨ breakpoint_state w' = Some (set_phase HardFailed bs))
  else Forall (λ e, is_teardown e = false) (new_effects w w').
Proof.
  intros Hbs. cbv zeta.
  assert (Hstart : ∀ (m : M E G unit) w0 pre,
    starts_at w0 m → breakpoint_state w0 = Some bs →
    volume_active w0 = volume_active w → log w0 = log w ++ pre →
    Forall (λ e, is_teardown e = false) pre →
    ∃ pre post,
      new_effects w (snd (m w0))
        = pre ++ fail_hard_effects (volume_active w) (Some bs) ++ post
      ∧ Forall (λ e, is_teardown e = false) pre
      ∧ omap hook_of (fail_hard_effects (volume_active w) (Some bs)) = release_hooks bs
      ∧ (breakpoint_state (snd (m w0)) = None
         ∨ breakpoint_state (snd (m w0)) = Some (set_phase HardFailed bs))).
  { intros m w0 pre Hm Hb0 Hv0 Hl0 Hpre.
    destruct (starts_at_effects w0 m bs Hm Hb0) as (post & Hl & Hb).
    exists pre, post. split_and!; [|done|apply fail_hard_effects_hooks|done].
    apply new_effects_app. by rewrite Hl, Hl0, Hv0, <- app_assoc. }
  destruct t as [| |i| |]; simpl.
  - (* emu_reset *)
    destruct (emu_thread w) eqn:Ht.
    + apply (Hstart emu_reset w []); [by apply emu_reset_starts|done..| |done].
      by rewrite app_nil_r.
    + unfold emu_reset, bind, get, when. rewrite Ht. simpl.
      by rewrite new_effects_nil.
  - (* emu_stop *)
    destruct (emu_thread w) eqn:Ht.
    + unfold emu_stop. rewrite (bind_ok (modify _) _ w tt _ eq_refl).
      rewrite (bind_ok (get _) _ _ _ _ eq_refl). simpl. rewrite Ht.
      unfold when.
      match goal with |- context [(bind fail_hard_if_set ?k _).2] =>
        apply (Hstart (bind fail_hard_if_set k) _ []) end;
        [apply starts_at_intro; appends_tac|done..| |done].
      simpl. by rewrite app_nil_r.
    + unfold emu_stop, bind, get, when, modify. simpl. rewrite Ht. simpl.
      unfold new_effects. simpl. by rewrite drop_all.
  - (* loadstate *)
    destruct (emu_thread w) eqn:Ht; simpl.
    + destruct (rom_filename w) as [rom|] eqn:Hrom.
      * unfold loadstate.
        erewrite bind_ok
          by (unfold rom_basename_source, bind, get; rewrite Hrom; reflexivity).
        rewrite (bind_ok (get _) _ _ _ _ eq_refl). cbv zeta.
        rewrite (bind_ok (get _) _ _ _ _ eq_refl).
        destruct (disk w !! _) as [text|] eqn:Hge.
        -- rewrite bool_decide_eq_true_2 by done.
           erewrite try_except_bind_ok
             by (unfold emu_is_running_call, threadsafe_emu; rewrite Ht; reflexivity).
           erewrite try_except_bind_ok by reflexivity.
           match goal with |- context [(try_except ?m ?c ?h ?w0).2] =>
             apply (Hstart (try_except m c h) w0 [EmuIsRunning]) end;
             [|done..|by repeat constructor].
           apply starts_at_try_except; [|appends_tac].
           apply starts_at_bind; [by apply emu_reset_starts|appends_tac].
        -- rewrite bool_decide_eq_false_2 by (by intros [? ?]).
           unfold ret. simpl. by rewrite new_effects_nil.
      * unfold loadstate, rom_basename_source, bind, get, raise. rewrite Hrom. simpl.
        by rewrite new_effects_nil.
    + destruct (rom_filename w) as [rom|] eqn:Hrom.
      * unfold loadstate, rom_basename_source, try_except, emu_is_running_call,
          threadsafe_emu, effect, modify, bind, get, ret. rewrite Hrom. simpl.
        destruct (disk w !! _); simpl; [|by rewrite new_effects_nil].
        rewrite Ht. simpl.
        erewrite new_effects_app by (simpl; rewrite <- ?app_assoc; reflexivity).
        by repeat constructor.
      * unfold loadstate, rom_basename_source, bind, get, raise. rewrite Hrom. simpl.
        by rewrite new_effects_nil.
  - (* gtk_main_quit *)
    unfold gtk_main_quit.
    match goal with |- context [(bind fail_hard_if_set ?k _).2] =>
      apply (Hstart (bind fail_hard_if_set k) w []) end;
      [apply starts_at_intro; appends_tac|done..| |done].
    by rewrite app_nil_r.
  - (* on_main_window_destroy *)
    unfold on_main_window_destroy.
    match goal with |- context [(bind fail_hard_if_set ?k _).2] =>
      apply (Hstart (bind fail_hard_if_set k) w []) end;
      [apply starts_at_intro; appends_tac|done..| |done].
    by rewrite app_nil_r.
Qed.

End Facts.

Import Demo.

Lemma emu_is_running_property_witness :
  emu_is_running world_halted = false ∧ emu_is_running world_running = true.
Proof.
  split.
  - apply (proj1 (emu_is_running_property world_halted) demo_breakpoint); reflexivity.
  - apply (proj2 (emu_is_running_property world_running)). intros bs Hbs. discriminate Hbs.
Defined.

Lemma loadstate_missing_json_witness :
  disk world_running !! slot2_ge = None ∧ loadstate 2 world_running = (Ok tt, world_running).
Proof.
  split; [vm_compute; reflexivity|].
  apply (loadstate_missing_json world_running 2 demo_rom); [reflexivity|].
  vm_compute. reflexivity.
Defined.

(** C1 as stated fails: slot 2 has no JSON file, and [loadstate(2)] returns
    without an exception and without any dialog or other effect. *)
Lemma loadstate_missing_json_reports_nothing :
  disk world_running !! slot2_ge = None
  ∧ fst (loadstate 2 world_running) = Ok tt
  ∧ log (snd (loadstate 2 world_running)) = []
  ∧ existsb is_dialog (log (snd (loadstate 2 world_running))) = false.
Proof. split_and!; vm_compute; reflexivity. Qed.

Lemma loadstate_effects_witness :
  fst (loadstate 1 world_halted) = Ok tt
  ∧ last (new_effects world_halted (snd (loadstate 1 world_halted)))
    = Some (SetButtons ButtonsRunning)
  ∧ emu (snd (loadstate 1 world_halted))
    = mkSimpleEmu false (Some demo_rom) "saved memory"
  ∧ ground_engine_state (snd (loadstate 1 world_halted)) = Some "{saved}"%string.
Proof.
  destruct (loadstate_effects world_halted 1 demo_rom "{saved}")
    as (Hrun & Hlog & _ & Hemu & (g & Hg & Hges) & _);
    try (vm_compute; reflexivity).
  split_and!; [exact Hrun| | |].
  - rewrite Hlog. vm_compute. reflexivity.
  - rewrite Hemu. vm_compute. reflexivity.
  - rewrite Hges. injection Hg as <-. vm_compute. reflexivity.
Defined.

(** C3 as stated fails: slot 1 was saved with the emulator paused.  Loaded
    while the emulator runs, the buttons are set to running although the
    restored emulator is paused; loaded from the same files while the
    emulator is paused, the buttons are set to paused. *)
Lemma loadstate_buttons_follow_state_before_load :
  disk world_running = disk world_paused
  ∧ fst (loadstate 1 world_running) = Ok tt
  ∧ existsb is_dialog (log (snd (loadstate 1 world_running))) = false
  ∧ is_running (emu (snd (loadstate 1 world_running))) = false
  ∧ last (log (snd (loadstate 1 world_running))) = Some (SetButtons ButtonsRunning)
  ∧ buttons (snd (loadstate 1 world_running)) = mkButtons img_stop img_pause
  ∧ fst (loadstate 1 world_paused) = Ok tt
  ∧ last (log (snd (loadstate 1 world_paused))) = Some (SetButtons ButtonsPaused)
  ∧ buttons (snd (loadstate 1 world_paused)) = mkButtons img_stop img_play2.
Proof. split; [reflexivity|]. split_and!; vm_compute; reflexivity. Qed.


Lemma fail_hard_before_teardown_witness :
  ∃ pre post,
    new_effects world_halted (snd (loadstate 1 world_halted))
      = pre ++ fail_hard_effects true (Some demo_breakpoint) ++ post
    ∧ Forall (λ e, is_teardown e = false) pre
    ∧ omap hook_of (fail_hard_effects true (Some demo_breakpoint))
        = [HookOther "GroundStateController"; HookMainBreakReleased]
    ∧ (breakpoint_state (snd (loadstate 1 world_halted)) = None
       ∨ breakpoint_state (snd (loadstate 1 world_halted))
         = Some (set_phase HardFailed demo_breakpoint)).
Proof.
  pose proof (fail_hard_before_teardown (CallLoadstate 1) world_halted demo_breakpoint
                eq_refl) as H.
  replace (reaches_teardown (CallLoadstate 1) world_halted) with true in H
    by (vm_compute; reflexivity).
  exact H.
Defined.

Example savestate_both_written :
  map_to_list (disk (snd (savestate 2 world_running)))
  = [(slot1_ge, "{saved}"); (slot1_ds, "0saved memory");
     (slot2_ge, "{hangers}");
     (savestate_path demo_config_dir demo_rom 2 SAVESTATE_EXT_DESUME, "1memory")].
Proof. vm_compute. reflexivity. Qed.

Example emu_stop_halted_effects :
  log (snd (emu_stop world_halted))
  = [FailHard demo_breakpoint; ReleaseHook (HookOther "GroundStateController");
     ReleaseHook HookMainBreakReleased; EmuVolumeSet 100; SetButtons ButtonsRunning;
     TogglePausedDebuggingFeatures false; ClearInfoBar; SyncBreakHanger;
     OverlayBreakReleased; EmuReset; EmuPause; SetButtons ButtonsStopped;
     TogglePausedDebuggingFeatures true; VariableSync; GroundStateSync;
     WriteInfoBar "The game is stopped."].
Proof. vm_compute. reflexivity. Qed.

End MainFacts.

(** * The emulation cycle: delay, wait and end of the chain *)

Module CycleFacts.
Import EmulatorThread EmulatorThreadFacts.

(** X1. The delay before the next cycle, by the ticks that the frame took: no
    delay from 32 ticks on, and below that the frame period less the ticks
    over 15, which is positive.  A longer frame never waits longer. *)
Theorem ticks_to_wait_by_frame_length (cur prev : Z) :
  ticks_to_wait cur prev
  = (if cur - prev <? 32
     then (1 / inject_Z FRAMES_PER_SECOND
           - inject_Z (cur - prev - TICKS_PER_FRAME + 2) / 1000)%Q
     else 0%Q)
  ∧ (cur - prev < 32 → (0 < ticks_to_wait cur prev)%Q)
  ∧ (∀ cur', cur ≤ cur' → (ticks_to_wait cur' prev <= ticks_to_wait cur prev)%Q).
Proof.
  assert (Hform : ∀ c, ticks_to_wait c prev
     = (if c - prev <? 32
        then (1 / inject_Z FRAMES_PER_SECOND
              - inject_Z (c - prev - TICKS_PER_FRAME + 2) / 1000)%Q
        else 0%Q)).
  { intros c. unfold ticks_to_wait, TICKS_PER_FRAME, FRAMES_PER_SECOND.
    set (w := (1 / inject_Z 60 - inject_Z (c - prev - 17 + 2) / 1000)%Q).
    assert (Hw : (w ?= 0)%Q = (1000 ?= 60 * (c - prev - 15))%Z).
    { unfold w, Qcompare, Qminus, Qplus, Qopp, Qdiv, Qmult, Qinv, inject_Z.
      cbn [Qnum Qden].
      destruct (Z.compare_spec 1000 (60 * (c - prev - 15)));
        [apply Z.compare_eq_iff|apply Z.compare_lt_iff|apply Z.compare_gt_iff]; lia. }
    rewrite Hw. destruct (Z.ltb_spec (c - prev) 32).
    - destruct (Z.compare_spec 1000 (60 * (c - prev - 15))); [lia|lia|done].
    - destruct (Z.compare_spec 1000 (60 * (c - prev - 15))); [lia|done|lia]. }
  assert (Hraw : ∀ c, ((1 / inject_Z FRAMES_PER_SECOND
              - inject_Z (c - prev - TICKS_PER_FRAME + 2) / 1000)
              == (1000 - 60 * (c - prev - 15)) # 60000)%Q).
  { intros c. unfold TICKS_PER_FRAME, FRAMES_PER_SECOND, Qeq. simpl. lia. }
  split_and!; [apply Hform| |].
  - intros Hd. rewrite Hform. destruct (Z.ltb_spec (cur - prev) 32); [|lia].
    rewrite Hraw. unfold Qlt. simpl. lia.
  - intros cur' Hle. rewrite !Hform.
    destruct (Z.ltb_spec (cur' - prev) 32), (Z.ltb_spec (cur - prev) 32);
      rewrite ?Hraw; unfold Qle; simpl; lia.
Qed.

(** X2. The wait for the frame's ticks returns the first reading that is at
    least [TICKS_PER_FRAME] past the previous frame and consumes exactly the
    earlier ones; it has no result only when every reading is too early. *)
Theorem spin_first_late_reading (prev cur : Z) (ts : list Z) :
  (∀ c rest, spin prev cur ts = Some (c, rest) →
     ∃ early, cur :: ts = early ++ c :: rest
              ∧ Forall (λ t, t - prev < TICKS_PER_FRAME) early
              ∧ TICKS_PER_FRAME ≤ c - prev)
  ∧ (spin prev cur ts = None ↔ Forall (λ t, t - prev < TICKS_PER_FRAME) (cur :: ts)).
Proof.
  revert cur. induction ts as [|x r IH]; intros cur; simpl.
  - destruct (Z.ltb_spec (cur - prev) TICKS_PER_FRAME); split.
    + done.
    + split; [by repeat constructor|done].
    + intros c rest [= <- <-]. by exists [].
    + split; [done|]. intros [? _]%Forall_cons. lia.
  - destruct (Z.ltb_spec (cur - prev) TICKS_PER_FRAME) as [Hlt|Hge]; split.
    + intros c rest Hs. destruct (proj1 (IH x) c rest Hs) as (early & Heq & Hall & Hc).
      exists (cur :: early). split_and!; [by rewrite Heq|by constructor|done].
    + rewrite (proj2 (IH x)). split; [by constructor|by intros [_ ?]%Forall_cons].
    + intros c rest [= <- <-]. by exists [].
    + split; [done|]. intros [? _]%Forall_cons. lia.
Qed.

Section Facts.
Context {Emu : Type}.
Implicit Types s : t Emu.

(** X3. When the loop runs the cycle and the emulator is not running, the chain
    ends: nothing is scheduled any more, the flag is cleared, the frame and
    tick counters are untouched, and the next [register_main_loop] schedules
    exactly one cycle, without delay. *)
Theorem paused_cycle_ends_chain (e : Emu) (evs : list Event) (o : EmuObs) s :
  steps evs (init e) = Some s →
  obs_truthy o = true → obs_running o = false →
  ∃ s', loop_run_cycle o s = Some s'
        ∧ loop_scheduled s' = []
        ∧ registered_main_loop s' = false
        ∧ _fps_frame_count s' = _fps_frame_count s
        ∧ _ticks_prev_frame s' = _ticks_prev_frame s
        ∧ loop_scheduled (register_main_loop s') = [0%Q].
Proof.
  intros Hsteps Ht Hr.
  assert (Hs : consistent s) by (eapply steps_consistent; [apply init_consistent|done]).
  unfold consistent, chains in Hs. unfold loop_run_cycle, _emu_cycle.
  destruct (loop_scheduled s) as [|d rest] eqn:Hq.
  - destruct (registered_main_loop s) eqn:Hreg; [done|].
    exists s. unfold register_main_loop. rewrite Hreg, Hq. done.
  - destruct (registered_main_loop s) eqn:Hreg; [|done].
    destruct rest; [|done]. rewrite Ht, Hr. simpl. eexists. split; [done|]. done.
Qed.

End Facts.

Import Demo.

Lemma paused_cycle_ends_chain_witness :
  ∃ s', loop_run_cycle (mkObs true false [] [3]) after_first_cycle = Some s'
        ∧ loop_scheduled s' = []
        ∧ registered_main_loop s' = false
        ∧ _fps_frame_count s' = 1
        ∧ _ticks_prev_frame s' = 110
        ∧ loop_scheduled (register_main_loop s') = [0%Q].
Proof.
  apply (paused_cycle_ends_chain tt [CallRegister; LoopRuns first_cycle_obs]
           (mkObs true false [] [3]) after_first_cycle); reflexivity.
Defined.

End CycleFacts.

(** * The refresh chain of the overlay and what [draw] shows *)

Module RefreshFacts.
Import DebugOverlay DebugOverlayFacts.

Lemma not_none_elem_of {A} (it : list (option A)) (x : A) :
  x ∈ not_none it ↔ Some x ∈ it.
Proof.
  induction it as [|[y|] it IH]; simpl.
  - by rewrite !elem_of_nil.
  - rewrite !elem_of_cons, IH. split; intros [H|H]; auto; left; congruence.
  - rewrite elem_of_cons, IH. split; [auto|]. by intros [H|H].
Qed.

Section Facts.
Context {Entity Map : Type} (bbox : Entity → Map → BBox).
Implicit Types (s : Sys) (ges : GroundEngineState Entity Map).

Lemma step_single_chain (ev : Event Entity Map) s :
  inflight s = (if _cache_redrawing_registered (ctl s) then 1%nat else 0%nat) →
  inflight (step bbox ev s)
  = if _cache_redrawing_registered (ctl (step bbox ev s)) then 1%nat else 0%nat.
Proof.
  intros Hs. unfold inflight in *.
  destruct ev as [d|b| | |ges|]; simpl; try done.
  - unfold draw.
    destruct ((d =? 1) && enabled (ctl s) && debugger (ctl s)); [|exact Hs].
    destruct (_refresh_cache (ctl s)), (_cache_redrawing_registered (ctl s)) eqn:Hreg;
      simpl in *; rewrite ?Hreg in *; lia.
  - destruct (pending s) as [|n] eqn:Hp; [by rewrite Hp|].
    unfold _update_cache. simpl.
    rewrite refresh_locked_refresh_cache.
    destruct (_refresh_cache (ctl s)); simpl.
    + replace (_cache_redrawing_registered (refresh_locked bbox ges (ctl s)))
        with (_cache_redrawing_registered (ctl s))
        by (unfold refresh_locked; simpl; by destruct (running ges)).
      destruct (_cache_redrawing_registered (ctl s)); simpl in *; lia.
    + destruct (_cache_redrawing_registered (ctl s)); simpl in *; lia.
  - destruct (sleeping s) as [|n] eqn:Hsl; [by rewrite Hsl|].
    unfold _update_cache_resume. simpl. rewrite Hsl. simpl.
    destruct (_cache_redrawing_registered (ctl s)); simpl in *; lia.
Qed.

Lemma steps_single_chain (evs : list (Event Entity Map)) : ∀ s,
  inflight s = (if _cache_redrawing_registered (ctl s) then 1%nat else 0%nat) →
  inflight (steps bbox evs s)
  = if _cache_redrawing_registered (ctl (steps bbox evs s)) then 1%nat else 0%nat.
Proof.
  induction evs as [|ev evs IH]; intros s Hs; [done|].
  apply IH. by apply step_single_chain.
Qed.

Lemma steps_debugger (evs : list (Event Entity Map)) : ∀ s,
  debugger (ctl (steps bbox evs s)) = debugger (ctl s).
Proof.
  induction evs as [|ev evs IH]; intros s; [done|].
  simpl. rewrite IH. destruct ev as [d|b| | |ges|]; simpl; try done.
  - unfold draw. destruct ((d =? 1) && enabled (ctl s) && debugger (ctl s)); [|done].
    by destruct (_refresh_cache (ctl s) && negb (_cache_redrawing_registered (ctl s))).
  - destruct (pending s); [done|]. unfold _update_cache, refresh_locked.
    destruct (running ges); simpl; by destruct (_refresh_cache (ctl s)).
  - by destruct (sleeping s).
Qed.

(** X4. From a new controller with nothing submitted, whatever is called and
    whenever the loop runs, at most one refresh coroutine is in flight:
    exactly one while [_cache_redrawing_registered] is set and none
    otherwise. *)
Theorem single_refresh_chain (evs : list (Event Entity Map)) :
  let s := steps bbox evs (mkSys init 0 0) in
  inflight s = if _cache_redrawing_registered (ctl s) then 1%nat else 0%nat.
Proof. cbv zeta. by apply steps_single_chain. Qed.

(** X5. [draw] only reads the cache: it never changes the four collections, the
    cached running flag, the enabled flag or the refresh flag; and on any
    display but display 1, or while the overlay is disabled, it fills nothing,
    submits nothing and changes nothing at all. *)
Theorem draw_reads_only (d : Z) s :
  caches (ctl (snd (draw d s))) = caches (ctl s)
  ∧ _cache_running (ctl (snd (draw d s))) = _cache_running (ctl s)
  ∧ enabled (ctl (snd (draw d s))) = enabled (ctl s)
  ∧ _refresh_cache (ctl (snd (draw d s))) = _refresh_cache (ctl s)
  ∧ sleeping (snd (draw d s)) = sleeping s
  ∧ (pending s ≤ pending (snd (draw d s)) ≤ S (pending s))%nat
  ∧ (d ≠ 1 ∨ enabled (ctl s) = false → draw d s = ([], s)).
Proof.
  unfold draw.
  repeat match goal with |- _ ∧ _ => split end;
    try (destruct ((d =? 1) && enabled (ctl s) && debugger (ctl s)); [|simpl; done || lia];
         destruct (_refresh_cache (ctl s) && negb (_cache_redrawing_registered (ctl s)));
         simpl; done || lia).
  intros [Hd| ->].
  - by rewrite (proj2 (Z.eqb_neq d 1) Hd).
  - by rewrite andb_false_r.
Qed.

(** X6. After a refresh that finds the ground engine running, an enabled overlay
    fills on display 1 one rectangle per entity that is not [None]: the
    actors first, then the objects, the performers and the events, each at the
    top left corner of its bounding box with the box's width and height. *)
Theorem draw_after_running_refresh ges s :
  running ges = true → enabled (ctl s) = true → debugger (ctl s) = true →
  fst (draw 1 (_update_cache bbox ges s))
  = (rect_of COLOR_ACTOR <$> bboxes_of bbox ges (actors ges))
    ++ (rect_of COLOR_OBJECTS <$> bboxes_of bbox ges (objects ges))
    ++ (rect_of COLOR_PERFORMER <$> bboxes_of bbox ges (performers ges))
    ++ (rect_of COLOR_EVENTS <$> bboxes_of bbox ges (events ges))
  ∧ length (fst (draw 1 (_update_cache bbox ges s)))
    = (length (not_none (actors ges)) + length (not_none (objects ges))
       + length (not_none (performers ges)) + length (not_none (events ges)))%nat
  ∧ (∀ e, e ∈ not_none (actors ges) ↔ Some e ∈ actors ges).
Proof.
  intros Hr He Hd.
  assert (Heq : fst (draw 1 (_update_cache bbox ges s))
    = (rect_of COLOR_ACTOR <$> bboxes_of bbox ges (actors ges))
      ++ (rect_of COLOR_OBJECTS <$> bboxes_of bbox ges (objects ges))
      ++ (rect_of COLOR_PERFORMER <$> bboxes_of bbox ges (performers ges))
      ++ (rect_of COLOR_EVENTS <$> bboxes_of bbox ges (events ges))).
  { unfold draw, _update_cache, refresh_locked. simpl. rewrite Hr. simpl.
    destruct (_refresh_cache (ctl s)) eqn:Hf, (_cache_redrawing_registered (ctl s)) eqn:Hg;
      repeat progress (simpl; rewrite ?He, ?Hd, ?Hf, ?Hg, ?Hr); done. }
  split_and!; [done| |intros e; apply not_none_elem_of]. rewrite Heq. unfold bboxes_of.
  rewrite !length_app, !length_fmap. lia.
Qed.

(** X7. Once [break_released()] was called, the next [draw] of an enabled
    overlay on display 1 leaves exactly one refresh in flight: it submits one
    when the chain had ended, and none when a refresh is still in flight. *)
Theorem draw_rearms_after_release (evs : list (Event Entity Map)) :
  let s := steps bbox (evs ++ [CallBreakReleased]) (mkSys init 0 0) in
  enabled (ctl s) = true →
  inflight (snd (draw 1 s)) = 1%nat
  ∧ _cache_redrawing_registered (ctl (snd (draw 1 s))) = true.
Proof.
  cbv zeta. intros He.
  pose proof (steps_single_chain (evs ++ [CallBreakReleased]) (mkSys init 0 0) eq_refl)
    as Hinv.
  pose proof (steps_debugger (evs ++ [CallBreakReleased]) (mkSys init 0 0)) as Hd.
  set (s := steps bbox (evs ++ [CallBreakReleased]) (mkSys init 0 0)) in *.
  assert (Hf : _refresh_cache (ctl s) = true).
  { unfold s, steps. by rewrite foldl_app. }
  simpl in Hd. unfold draw. rewrite He, Hd, Hf. simpl.
  destruct (_cache_redrawing_registered (ctl s)) eqn:Hg; simpl.
  - by rewrite Hg.
  - split; [|done]. unfold inflight in *. simpl. lia.
Qed.

End Facts.

Import Demo.

Lemma draw_after_running_refresh_witness :
  fst (draw 1 (_update_cache box_bbox one_actor overlay_refreshed))
  = [mkRect COLOR_ACTOR 8 8 16 32]
  ∧ length (fst (draw 1 (_update_cache box_bbox one_actor overlay_refreshed)))
    = 1%nat.
Proof.
  destruct (draw_after_running_refresh box_bbox one_actor overlay_refreshed
              eq_refl eq_refl eq_refl) as (H1 & H2 & _).
  split; [exact H1|exact H2].
Defined.

Lemma draw_rearms_after_release_witness :
  inflight (snd (draw 1
             (steps box_bbox
                ([CallToggle true; CallDraw 1; CallBreakPulled;
                  LoopStartsUpdate one_actor] ++ [CallBreakReleased])
                (mkSys init 0 0)))) = 1%nat.
Proof.
  apply (draw_rearms_after_release box_bbox
           [CallToggle true; CallDraw 1; CallBreakPulled; LoopStartsUpdate one_actor]).
  reflexivity.
Defined.

End RefreshFacts.

(** * Stop, reset and pause of the emulator, and the savestate slots *)

Module ControlFacts.
Import Main MainFacts.

Section Facts.
Context {E G : Type} `{!Emulator E} `{!GroundEngine G}.
Implicit Types w : World E G.
Local Opaque fail_hard_if_set.

Ltac machine Hm :=
  destruct Hm as (?Ht & ?Hr & ?Hst & ?Hrom & ?Hcfg & ?Hvol & ?Hemu & ?Hges & ?Hdisk & ?Hro);
  simpl in *.
Ltac unfold_controller :=
  unfold loadstate, savestate, emu_stop, emu_pause, emu_reset, rom_basename_source,
    emu_is_running_call, the_ground_engine_state, open_read, open_write,
    load_debugger_state, do_set_buttons, toggle_paused_debugging_features, try_except,
    when, threadsafe_emu, fallible, total, effect, modify, bind, get, ret, raise,
    emu_is_running_setter, BaseException.
Ltac with_fail_hard :=
  match goal with |- context [fail_hard_if_set ?w0] =>
    let w1 := fresh "w1" in
    destruct (fail_hard_if_set_spec w0) as (w1 & ?Hrun & ?Hm & ?Hl & ?Hb); rewrite Hrun;
    machine Hm
  end.
Ltac log_is := apply new_effects_app; simpl; rewrite <- ?app_assoc; reflexivity.

Lemma not_stopped_after bs (o : option BreakpointState) :
  o = None ∨ o = Some (set_phase HardFailed bs) →
  match o with Some b => is_stopped b | None => false end = false.
Proof. by intros [-> | ->]. Qed.

Lemma fail_hard_effects_no_dialog vol (b : option BreakpointState) :
  existsb is_dialog (fail_hard_effects vol b) = false.
Proof.
  pose proof (fail_hard_effects_no_teardown vol b) as Hfh.
  induction Hfh as [|e l [_ He] _ IH]; [done|]. simpl. by rewrite He, IH.
Qed.

(** X8. [emu_stop]: with an emulator thread the emulator is reset and paused, the
    controller is stopped and not running, the buttons show play and pause,
    no breakpoint state stays stopped, and neither the ground engine state nor
    the disk is touched; without an emulator thread only [_stopped] is set. *)
Theorem emu_stop_outcome w :
  fst (emu_stop w) = Ok tt
  ∧ _stopped (snd (emu_stop w)) = true
  ∧ (emu_thread w = false → snd (emu_stop w) = set__stopped true w)
  ∧ (emu_thread w = true →
       _emu_is_running (snd (emu_stop w)) = false
       ∧ emu_is_running (snd (emu_stop w)) = false
       ∧ emu (snd (emu_stop w)) = pause (reset (emu w))
       ∧ buttons (snd (emu_stop w)) = mkButtons img_play img_pause
       ∧ ground_engine_state (snd (emu_stop w)) = ground_engine_state w
       ∧ disk (snd (emu_stop w)) = disk w
       ∧ last (log (snd (emu_stop w))) = Some (WriteInfoBar "The game is stopped.")).
Proof.
  destruct (emu_thread w) eqn:Hthread.
  - unfold_controller. simpl. rewrite Hthread. with_fail_hard.
    repeat progress (simpl; rewrite ?Ht, ?Hthread).
    split_and!; try done. intros _.
    unfold emu_is_running. simpl.
    destruct (breakpoint_state w) as [bs|] eqn:Hbs.
    + rewrite (not_stopped_after bs _ Hb).
      split_and!; try done; try congruence.
      * by destruct (buttons w1) as [[] []].
      * by rewrite last_snoc.
    + subst w1. simpl. rewrite Hbs.
      split_and!; try done.
      * by destruct (buttons w) as [[] []].
      * by rewrite last_snoc.
  - unfold_controller. simpl. rewrite Hthread. simpl. done.
Qed.


(** X9. [emu_reset] with an emulator thread and an open ROM, by what [emu.open]
    does.  A [RuntimeError] is swallowed: the method returns normally after
    the dialog "Emulator failed to load: <rom>", and the stored running flag
    keeps its old value.  Any other exception reaches the caller without a
    dialog.  In every case the ground engine state was reset before. *)
Theorem emu_reset_outcome w (rom : string) :
  emu_thread w = true → rom_filename w = Some rom →
  let w' := snd (emu_reset w) in
  let e1 := fst (open rom (emu w)) in
  emu w' = e1
  ∧ ground_engine_state w' = ges_reset <$> ground_engine_state w
  ∧ match snd (open rom (emu w)) with
    | None =>
        fst (emu_reset w) = Ok tt
        ∧ _emu_is_running w' = is_running e1
        ∧ existsb is_dialog (new_effects w w') = false
    | Some ex =>
        if is_RuntimeError ex
        then fst (emu_reset w) = Ok tt
             ∧ _emu_is_running w' = _emu_is_running w
             ∧ last (log w')
               = Some (MessageDialog "Error!" ("Emulator failed to load: " +:+ rom))
        else fst (emu_reset w) = Raise ex
             ∧ _emu_is_running w' = _emu_is_running w
             ∧ existsb is_dialog (new_effects w w') = false
    end.
Proof.
  intros Hthread Hrom0. cbv zeta.
  pose proof (fail_hard_effects_no_dialog (volume_active w) (breakpoint_state w)) as Hnd.
  unfold_controller. simpl. rewrite Hthread. with_fail_hard.
  repeat progress (simpl; rewrite ?Hges, ?Hrom, ?Hrom0, ?Ht, ?Hthread, ?Hemu).
  destruct (ground_engine_state w) as [g|] eqn:Hg;
    repeat progress (simpl; rewrite ?Hges, ?Hrom, ?Hrom0, ?Ht, ?Hthread, ?Hemu);
    destruct (open rom (emu w)) as [e1 [ex|]] eqn:Hopen; simpl;
    try destruct (is_RuntimeError ex) eqn:Hex; simpl;
    rewrite ?Ht, ?Hthread; simpl;
    (split_and!; try done; try congruence; try (by rewrite last_snoc));
    erewrite new_effects_app by (simpl; rewrite Hl, <- ?app_assoc; reflexivity);
    rewrite existsb_app, Hnd; reflexivity.
Qed.


(** X10. [emu_pause] is ignored while a breakpoint state is stopped.  Otherwise
    [emu.pause()] is called exactly when the stored running flag is set;
    then the debugger state is loaded, the info bar says that the game is
    paused, the buttons show stop and play, and the running flag is cleared.
    The one way to fail is a set running flag without an emulator thread. *)
Theorem emu_pause_outcome w :
  let w' := snd (emu_pause w) in
  if emu_is_running w
  then if emu_thread w
       then fst (emu_pause w) = Ok tt
            ∧ new_effects w w'
              = [EmuPause; TogglePausedDebuggingFeatures true; VariableSync;
                 GroundStateSync; WriteInfoBar "The game is paused.";
                 SetButtons ButtonsPaused]
            ∧ emu w' = pause (emu w)
            ∧ _emu_is_running w' = false
            ∧ buttons w' = mkButtons img_stop img_play2
       else emu_pause w
            = (Raise (AttributeError "'NoneType' object has no attribute 'emu'"), w)
  else if match breakpoint_state w with
          | Some bs => is_stopped bs
          | None => false
          end
       then emu_pause w = (Ok tt, w)
       else fst (emu_pause w) = Ok tt
            ∧ new_effects w w'
              = [TogglePausedDebuggingFeatures true; VariableSync;
                 GroundStateSync; WriteInfoBar "The game is paused.";
                 SetButtons ButtonsPaused]
            ∧ emu w' = emu w
            ∧ _emu_is_running w' = false
            ∧ buttons w' = mkButtons img_stop img_play2.
Proof.
  cbv zeta. unfold emu_is_running.
  unfold_controller. unfold emu_is_running. simpl.
  destruct (match breakpoint_state w with Some bs => is_stopped bs | None => false end)
    eqn:Hh; simpl; [done|].
  destruct (_emu_is_running w) eqn:Hr; repeat progress (simpl; rewrite ?Hh, ?Hr).
  - destruct (emu_thread w) eqn:Ht; repeat progress (simpl; rewrite ?Ht); [|done].
    split_and!; [done|log_is|done|done|by destruct (buttons w) as [[] []]].
  - split_and!; [done|log_is|done|done|by destruct (buttons w) as [[] []]].
Qed.

(** X11. A [loadstate] whose JSON file exists but whose native snapshot cannot be
    loaded ends in the dialog "Unable to load savestate!" and returns
    normally, and it does not restore what it changed before the failure: the
    emulator and the ground engine state were reset, and the ground engine
    state is not deserialized. *)
Theorem loadstate_snapshot_failure w (i : Z) (rom text : string) (g : G) (e1 e2 : E) ex :
  emu_thread w = true →
  rom_filename w = Some rom →
  disk w !! savestate_path (config_dir w) rom i SAVESTATE_EXT_GROUND_ENGINE = Some text →
  ground_engine_state w = Some g →
  open rom (emu w) = (e1, None) →
  savestate_load_file
    (disk w !! savestate_path (config_dir w) rom i SAVESTATE_EXT_DESUME) e1
    = (e2, Some ex) →
  let w' := snd (loadstate i w) in
  fst (loadstate i w) = Ok tt
  ∧ last (log w') = Some (MessageDialog "Unable to load savestate!" (exn_str ex))
  ∧ emu w' = e2
  ∧ ground_engine_state w' = Some (ges_reset g)
  ∧ _emu_is_running w' = is_running e1
  ∧ _stopped w' = false
  ∧ Forall (λ e, ∀ doc, e ≠ GesDeserialize doc) (new_effects w w').
Proof.
  intros Hthread Hrom0 Hge Hg Hopen Hload. cbv zeta.
  pose proof (fail_hard_effects_no_teardown (volume_active w) (breakpoint_state w)) as Hfh.
  unfold_controller. simpl. rewrite Hrom0. simpl. rewrite Hge.
  repeat progress (simpl; rewrite ?Hthread).
  with_fail_hard.
  repeat progress (simpl; rewrite ?Hges, ?Hg, ?Hrom, ?Hrom0, ?Ht, ?Hthread, ?Hemu, ?Hopen,
    ?Hdisk, ?Hcfg, ?Hload).
  split_and!; try done.
  - by rewrite last_snoc.
  - erewrite new_effects_app by (simpl; rewrite Hl, <- ?app_assoc; reflexivity).
    simpl. apply Forall_cons. split; [done|]. apply Forall_app. split.
    + eapply Forall_impl; [exact Hfh|]. by intros e [He _] doc ->.
    + repeat (apply Forall_cons; split; [done|]). apply Forall_nil_2.
Qed.

(** X12. Before a ROM is opened ([rom_filename] is [None]) [loadstate] raises a
    [TypeError] that reaches its caller, with no effect at all, while
    [savestate] catches the same error, reports it in the dialog "Unable to
    save savestate!" and writes nothing. *)
Theorem savestates_without_rom w (i : Z) :
  rom_filename w = None →
  loadstate i w
    = (Raise (TypeError "expected str, bytes or os.PathLike object, not NoneType"), w)
  ∧ fst (savestate i w) = Ok tt
  ∧ disk (snd (savestate i w)) = disk w
  ∧ new_effects w (snd (savestate i w))
    = [MessageDialog "Unable to save savestate!"
         "expected str, bytes or os.PathLike object, not NoneType"].
Proof.
  intros Hrom. unfold_controller. simpl. rewrite Hrom. simpl.
  split_and!; try done. log_is.
Qed.

Lemma savestate_paths_differ base rom i :
  savestate_path (config_dir_init base) rom i SAVESTATE_EXT_DESUME
  ≠ savestate_path (config_dir_init base) rom i SAVESTATE_EXT_GROUND_ENGINE.
Proof.
  unfold config_dir_init. rewrite !savestate_path_eq.
  intros Heq. do 6 apply (inj (String.append _)) in Heq. discriminate Heq.
Qed.

(** X13. What [savestate] wrote is what a following [loadstate] of the same slot
    reads: the native snapshot handed to the emulator is the one saved, and
    the document deserialized into the (reset) ground engine state is the one
    serialized. *)
Theorem savestate_then_loadstate w (i : Z) (rom base text blob : string)
    (g g' : G) (e1 e2 : E) :
  emu_thread w = true →
  rom_filename w = Some rom →
  config_dir w = config_dir_init base →
  savestate_path (config_dir w) rom i SAVESTATE_EXT_GROUND_ENGINE ∉ unwritable w →
  ground_engine_state w = Some g →
  serialize_json g = Ok text →
  savestate_save_file (savestate_path (config_dir w) rom i SAVESTATE_EXT_DESUME) (emu w)
    = Ok blob →
  open rom (emu w) = (e1, None) →
  savestate_load_file (Some blob) e1 = (e2, None) →
  deserialize_json text (ges_reset g) = (g', None) →
  let w1 := snd (savestate i w) in
  let w2 := snd (loadstate i w1) in
  disk w1 !! savestate_path (config_dir w) rom i SAVESTATE_EXT_GROUND_ENGINE = Some text
  ∧ disk w1 !! savestate_path (config_dir w) rom i SAVESTATE_EXT_DESUME = Some blob
  ∧ fst (loadstate i w1) = Ok tt
  ∧ emu w2 = e2
  ∧ ground_engine_state w2 = Some g'
  ∧ existsb is_dialog (new_effects w1 w2) = false.
Proof.
  intros Hthread Hrom Hcfg Hrw Hg Hser Hsave Hopen Hload Hdes. cbv zeta.
  assert (Hne : savestate_path (config_dir w) rom i SAVESTATE_EXT_DESUME
                ≠ savestate_path (config_dir w) rom i SAVESTATE_EXT_GROUND_ENGINE)
    by (rewrite Hcfg; apply savestate_paths_differ).
  set (ds := savestate_path (config_dir w) rom i SAVESTATE_EXT_DESUME) in *.
  set (ge := savestate_path (config_dir w) rom i SAVESTATE_EXT_GROUND_ENGINE) in *.
  assert (Hw1 : snd (savestate i w)
    = set_disk (<[ds := blob]> (<[ge := text]> (<[ge := EmptyString]> (disk w))))
        (set_log (log w ++ [OpenWrite ge; GesSerialize; SavestateSaveFile ds]) w)).
  { unfold_controller. simpl. rewrite Hrom. simpl. fold ds ge.
    rewrite bool_decide_eq_false_2 by done.
    repeat progress (simpl; rewrite ?Hthread, ?Hg, ?Hser, ?Hsave).
    by rewrite <- !app_assoc. }
  rewrite Hw1.
  match goal with |- context [loadstate i ?w0] => set (w1 := w0) end.
  assert (Hd1 : disk w1 !! ge = Some text).
  { subst w1. simpl. rewrite lookup_insert_ne by done. apply lookup_insert_eq. }
  assert (Hd2 : disk w1 !! ds = Some blob) by (subst w1; simpl; apply lookup_insert_eq).
  destruct (loadstate_runs w1 i rom text g g' e1 e2) as
    (w2 & Hrun & Hlog & Hemu & Hges & _);
    try done.
  { change (config_dir w1) with (config_dir w). fold ds. by rewrite Hd2. }
  rewrite Hrun. simpl. split_and!; try done.
  erewrite new_effects_app by exact Hlog.
  simpl. rewrite existsb_app, fail_hard_effects_no_dialog. simpl.
  by destruct (is_running (emu w1)).
Qed.


(** X14. A [savestate] that fails after it opened the JSON file and before it
    wrote the document (there is no emulator thread or no ground engine state,
    or [serialize] raises) leaves the JSON file of the slot empty, whatever
    the slot held before, does not ask the emulator for a snapshot, and ends
    in the dialog "Unable to save savestate!". *)
Theorem savestate_failure_truncates_json w (i : Z) (rom : string) :
  rom_filename w = Some rom →
  savestate_path (config_dir w) rom i SAVESTATE_EXT_GROUND_ENGINE ∉ unwritable w →
  emu_thread w = false ∨ ground_engine_state w = None
  ∨ (∃ g ex, ground_engine_state w = Some g ∧ serialize_json g = Raise ex) →
  let ge := savestate_path (config_dir w) rom i SAVESTATE_EXT_GROUND_ENGINE in
  let w' := snd (savestate i w) in
  fst (savestate i w) = Ok tt
  ∧ disk w' = <[ge := EmptyString]> (disk w)
  ∧ emu w' = emu w
  ∧ Forall (λ e, ∀ p, e ≠ SavestateSaveFile p) (new_effects w w')
  ∧ ∃ msg, last (new_effects w w')
           = Some (MessageDialog "Unable to save savestate!" msg).
Proof.
  intros Hrom Hrw Hfail. cbv zeta.
  set (ge := savestate_path (config_dir w) rom i SAVESTATE_EXT_GROUND_ENGINE) in *.
  unfold_controller. simpl. rewrite Hrom. simpl. fold ge.
  rewrite bool_decide_eq_false_2 by done. simpl.
  destruct (emu_thread w) eqn:Ht; simpl.
  2:{ split_and!; try done.
      - erewrite new_effects_app by (simpl; rewrite <- ?app_assoc; reflexivity).
        repeat (apply Forall_cons; split; [done|]). apply Forall_nil_2.
      - eexists. erewrite new_effects_app by (simpl; rewrite <- ?app_assoc; reflexivity).
        reflexivity. }
  destruct (ground_engine_state w) as [g|] eqn:Hg; simpl.
  2:{ split_and!; try done.
      - erewrite new_effects_app by (simpl; rewrite <- ?app_assoc; reflexivity).
        repeat (apply Forall_cons; split; [done|]). apply Forall_nil_2.
      - eexists. erewrite new_effects_app by (simpl; rewrite <- ?app_assoc; reflexivity).
        reflexivity. }
  destruct Hfail as [?|[?|(g0 & ex & [= <-] & Hser)]]; [done|done|].
  rewrite Hser. simpl. split_and!; try done.
  - erewrite new_effects_app by (simpl; rewrite <- ?app_assoc; reflexivity).
    repeat (apply Forall_cons; split; [done|]). apply Forall_nil_2.
  - eexists. erewrite new_effects_app by (simpl; rewrite <- ?app_assoc; reflexivity).
    reflexivity.
Qed.

End Facts.

(** ** Slots do not share files *)

Lemma pretty_N_go_no_dot (x : N) : ∀ s, no_dot s = true → no_dot (pretty_N_go x s) = true.
Proof.
  induction (N.lt_wf_0 x) as [x _ IH]; intros s Hs.
  assert (x = 0 ∨ 0 < x)%N as [->|?] by lia; [by rewrite pretty_N_go_0|].
  rewrite pretty_N_go_step by done. apply IH; [by apply N.div_lt|].
  simpl. rewrite Hs, andb_true_r. unfold pretty_N_char. by repeat case_match.
Qed.

Lemma pretty_Z_no_dot (i : Z) : no_dot (pretty i) = true.
Proof.
  assert (HN : ∀ n : N, no_dot (pretty n) = true).
  { intros n. unfold pretty, pretty_N. case_decide; [done|].
    by apply pretty_N_go_no_dot. }
  destruct i as [|p|p]; [done|apply (HN (Npos p))|].
  change (no_dot ("-" +:+ pretty (Npos p)) = true). simpl. apply HN.
Qed.

Lemma no_dot_prefix_inj (a b x y : string) :
  no_dot a = true → no_dot b = true →
  a +:+ "." +:+ x = b +:+ "." +:+ y → a = b.
Proof.
  revert b. induction a as [|c a IH]; intros [|d b]; simpl; intros Ha Hb Heq.
  - done.
  - injection Heq as <- _. by rewrite bool_decide_eq_true_2 in Hb.
  - injection Heq as -> _. by rewrite bool_decide_eq_true_2 in Ha.
  - injection Heq as -> Heq.
    apply andb_true_iff in Ha as [_ Ha]. apply andb_true_iff in Hb as [_ Hb].
    f_equal. by apply IH.
Qed.

Lemma savestate_path_slot_inj base rom (i j : Z) ext1 ext2 :
  savestate_path (config_dir_init base) rom i ext1
  = savestate_path (config_dir_init base) rom j ext2 → i = j.
Proof.
  unfold config_dir_init. rewrite !savestate_path_eq. intros Heq.
  do 4 apply (inj (String.append _)) in Heq.
  apply no_dot_prefix_inj in Heq; [|apply pretty_Z_no_dot..].
  by apply (inj pretty).
Qed.

Section Slots.
Context {E G : Type} `{!Emulator E} `{!GroundEngine G}.
Implicit Types w : World E G.

Lemma savestate_touches_two_files w (i : Z) (rom p : string) :
  rom_filename w = Some rom →
  p ≠ savestate_path (config_dir w) rom i SAVESTATE_EXT_DESUME →
  p ≠ savestate_path (config_dir w) rom i SAVESTATE_EXT_GROUND_ENGINE →
  disk (snd (savestate i w)) !! p = disk w !! p.
Proof.
  intros Hrom Hds Hge.
  unfold savestate, rom_basename_source, the_ground_engine_state, open_write,
    try_except, threadsafe_emu, effect, modify, bind, get, ret, raise, BaseException.
  simpl. rewrite Hrom. simpl.
  case_bool_decide; simpl; [done|].
  destruct (emu_thread w) eqn:Ht; simpl; [|by rewrite lookup_insert_ne].
  destruct (ground_engine_state w) as [g|]; simpl; [|by rewrite lookup_insert_ne].
  destruct (serialize_json g) as [text|ex]; simpl; [|by rewrite lookup_insert_ne].
  rewrite Ht. simpl.
  destruct (savestate_save_file _ (emu w)) as [blob|ex]; simpl;
    by rewrite !lookup_insert_ne.
Qed.

(** X15. Saving slot [i] leaves the two files of every other slot [j] as they
    are, whatever happens during the save. *)
Theorem savestate_other_slot_untouched w (i j : Z) (rom base ext : string) :
  rom_filename w = Some rom →
  config_dir w = config_dir_init base →
  i ≠ j →
  disk (snd (savestate i w)) !! savestate_path (config_dir w) rom j ext
  = disk w !! savestate_path (config_dir w) rom j ext.
Proof.
  intros Hrom Hcfg Hij.
  apply (savestate_touches_two_files w i rom); [done|..]; rewrite Hcfg;
    intros Heq; apply savestate_path_slot_inj in Heq; congruence.
Qed.

End Slots.

Import Demo.

Lemma emu_reset_outcome_witness :
  fst (emu_reset world_running) = Ok tt
  ∧ _emu_is_running (snd (emu_reset world_running)) = true
  ∧ ground_engine_state (snd (emu_reset world_running)) = Some "{}"%string
  ∧ existsb is_dialog (new_effects world_running (snd (emu_reset world_running))) = false.
Proof.
  destruct (emu_reset_outcome world_running demo_rom eq_refl eq_refl) as (_ & H2 & H3).
  destruct H3 as (H3 & H4 & H5). split_and!; [exact H3|exact H4|exact H2|exact H5].
Defined.

Lemma loadstate_snapshot_failure_witness :
  fst (loadstate 1 world_json_only) = Ok tt
  ∧ last (log (snd (loadstate 1 world_json_only)))
    = Some (MessageDialog "Unable to load savestate!" "Unable to load the savestate")
  ∧ ground_engine_state (snd (loadstate 1 world_json_only)) = Some "{}"%string.
Proof.
  destruct (loadstate_snapshot_failure world_json_only 1 demo_rom "{saved}" "{hangers}"
              (mkSimpleEmu true (Some demo_rom) EmptyString)
              (mkSimpleEmu true (Some demo_rom) EmptyString)
              (RuntimeError "Unable to load the savestate"))
    as (H1 & H2 & _ & H4 & _); try reflexivity.
  split_and!; [exact H1|exact H2|exact H4].
Defined.

Lemma savestates_without_rom_witness :
  loadstate 1 world_no_rom
    = (Raise (TypeError "expected str, bytes or os.PathLike object, not NoneType"),
       world_no_rom)
  ∧ fst (savestate 1 world_no_rom) = Ok tt
  ∧ disk (snd (savestate 1 world_no_rom)) = ∅.
Proof.
  destruct (savestates_without_rom world_no_rom 1 eq_refl) as (H1 & H2 & H3 & _).
  split_and!; [exact H1|exact H2|exact H3].
Defined.

Lemma savestate_then_loadstate_witness :
  fst (loadstate 2 (snd (savestate 2 world_running))) = Ok tt
  ∧ emu (snd (loadstate 2 (snd (savestate 2 world_running))))
    = mkSimpleEmu true (Some demo_rom) "memory"
  ∧ ground_engine_state (snd (loadstate 2 (snd (savestate 2 world_running))))
    = Some "{hangers}"%string.
Proof.
  destruct (savestate_then_loadstate world_running 2 demo_rom
              "/home/user/.config/skytemple" "{hangers}" "1memory" "{hangers}" "{hangers}"
              (mkSimpleEmu true (Some demo_rom) EmptyString)
              (mkSimpleEmu true (Some demo_rom) "memory"))
    as (_ & _ & H3 & H4 & H5 & _); try reflexivity.
  { apply not_elem_of_empty. }
  split_and!; [exact H3|exact H4|exact H5].
Defined.

Lemma savestate_other_slot_untouched_witness :
  disk (snd (savestate 2 world_running)) !! slot1_ds = Some "0saved memory"%string.
Proof.
  etrans; [|reflexivity].
  apply (savestate_other_slot_untouched world_running 2 1 demo_rom
           "/home/user/.config/skytemple" SAVESTATE_EXT_DESUME); [reflexivity|reflexivity|lia].
Defined.

Lemma savestate_failure_truncates_json_witness :
  slot1_files !! slot1_ge = Some "{saved}"%string
  ∧ fst (savestate 1 world_no_ground_engine) = Ok tt
  ∧ disk (snd (savestate 1 world_no_ground_engine)) !! slot1_ge = Some EmptyString
  ∧ disk (snd (savestate 1 world_no_ground_engine)) !! slot1_ds
    = Some "0saved memory"%string.
Proof.
  split; [reflexivity|].
  destruct (savestate_failure_truncates_json world_no_ground_engine 1 demo_rom eq_refl)
    as (H1 & H2 & _).
  - apply not_elem_of_empty.
  - right. left. reflexivity.
  - split; [exact H1|]. rewrite H2. split; reflexivity.
Defined.

End ControlFacts.

(** * Properties of the keyboard and touch input *)

Module MainInputFacts.
Import Main MainInput.


Lemma Qltb_ge (a b : Q) : Qltb a b = false ↔ (b <= a)%Q.
Proof.
  unfold Qltb. rewrite negb_false_iff. apply Qle_bool_iff.
Qed.

Lemma int_inject_Z (z : Z) : int (inject_Z z) = z.
Proof. unfold int, inject_Z. simpl. apply Z.quot_1_r. Qed.

Lemma int_0 : int 0 = 0.
Proof. reflexivity. Qed.

Lemma int_between (a b : Z) (q : Q) :
  0 ≤ a → (inject_Z a <= q)%Q → (q <= inject_Z b)%Q → a ≤ int q ≤ b.
Proof.
  destruct q as [n d]. unfold int, Qle, inject_Z. simpl. intros Ha Hl Hu.
  assert (0 ≤ n) by nia.
  rewrite Z.quot_div_nonneg by lia. split.
  - apply Z.div_le_lower_bound; lia.
  - apply Z.div_le_upper_bound; lia.
Qed.

Section Facts.
Variables (NB_KEYS : nat) (keymask : nat → Z).
Variables (SCREEN_WIDTH SCREEN_HEIGHT : Z).
Variables (SHIFT_MASK CONTROL_MASK MOD1_MASK MOD5_MASK BUTTON1_MASK : Z).
Context {E G : Type} `{!Emulator E} `{!GroundEngine G}.
Implicit Types (w : World E G) (s : Input).

#[local, warnings="-notation-for-abbreviation"]
Notation lookup_key := (lookup_key NB_KEYS keymask).
#[local, warnings="-notation-for-abbreviation"]
Notation touch_pos := (touch_pos SCREEN_WIDTH SCREEN_HEIGHT).
#[local, warnings="-notation-for-abbreviation"]
Notation handle :=
  (handle NB_KEYS keymask SCREEN_WIDTH SCREEN_HEIGHT
     SHIFT_MASK CONTROL_MASK MOD1_MASK MOD5_MASK BUTTON1_MASK).
#[local, warnings="-notation-for-abbreviation"]
Notation handle_all :=
  (handle_all NB_KEYS keymask SCREEN_WIDTH SCREEN_HEIGHT
     SHIFT_MASK CONTROL_MASK MOD1_MASK MOD5_MASK BUTTON1_MASK).
#[local, warnings="-notation-for-abbreviation"]
Notation touch_in_range := (touch_in_range SCREEN_WIDTH SCREEN_HEIGHT).
#[local, warnings="-notation-for-abbreviation"]
Notation modifiers :=
  (Z.lor (Z.lor (Z.lor SHIFT_MASK CONTROL_MASK) MOD1_MASK) MOD5_MASK).

(** ** [lookup_key] *)

Lemma lookup_key_from_spec (cfg : list Z) (keyval : Z) (todo : nat) : ∀ i : nat,
  keyval ∉ take i cfg → (i ≤ length cfg)%nat →
  match lookup_key_from keymask cfg keyval todo i with
  | Returns (Some m) =>
      ∃ j : nat, (i ≤ j < i + todo)%nat ∧ cfg !! j = Some keyval ∧ m = keymask j
                 ∧ keyval ∉ take j cfg
  | Returns None => (i + todo ≤ length cfg)%nat ∧ keyval ∉ take (i + todo) cfg
  | IndexError => (length cfg < i + todo)%nat ∧ keyval ∉ cfg
  | ZeroDivisionError => False
  end.
Proof.
  induction todo as [|todo IH]; intros i Hnot Hlen; simpl.
  - rewrite Nat.add_0_r. done.
  - destruct (cfg !! i) as [k|] eqn:Hi.
    + destruct (Z.eqb_spec keyval k) as [->|Hne].
      * exists i. split_and!; [lia|lia|done|done|done].
      * assert (Hnot' : keyval ∉ take (S i) cfg).
        { erewrite take_S_r by done. rewrite not_elem_of_app, not_elem_of_cons.
          split_and!; [done|done|apply not_elem_of_nil]. }
        apply lookup_lt_Some in Hi as Hlt.
        specialize (IH (S i) Hnot' ltac:(lia)).
        destruct (lookup_key_from keymask cfg keyval todo (S i)) as [[m|]| |].
        -- destruct IH as (j & ? & ? & ? & ?). exists j. split_and!; [lia|lia|done..].
        -- by rewrite <- Nat.add_succ_comm.
        -- split; [lia|tauto].
        -- done.
    + apply lookup_ge_None in Hi. split; [lia|].
      by rewrite take_ge in Hnot by lia.
Qed.

(** X16. [lookup_key] returns the mask of the first of the [NB_KEYS] configured
    keys that equals [keyval], whatever comes later in the configuration;
    [False] when none of them does; and it fails with [IndexError] exactly
    when the configuration has fewer than [NB_KEYS] keys and none of them
    equals [keyval]. *)
Theorem lookup_key_first_match s (keyval : Z) :
  match lookup_key s keyval with
  | Returns (Some m) =>
      ∃ i : nat, (i < NB_KEYS)%nat ∧ _keyboard_cfg s !! i = Some keyval ∧ m = keymask i
                 ∧ keyval ∉ take i (_keyboard_cfg s)
  | Returns None =>
      (NB_KEYS ≤ length (_keyboard_cfg s))%nat ∧ keyval ∉ take NB_KEYS (_keyboard_cfg s)
  | IndexError =>
      (length (_keyboard_cfg s) < NB_KEYS)%nat ∧ keyval ∉ _keyboard_cfg s
  | ZeroDivisionError => False
  end.
Proof.
  unfold MainInput.lookup_key.
  pose proof (lookup_key_from_spec (_keyboard_cfg s) keyval NB_KEYS 0%nat) as Hspec.
  specialize (Hspec ltac:(apply not_elem_of_nil) ltac:(lia)).
  destruct (lookup_key_from keymask (_keyboard_cfg s) keyval NB_KEYS 0) as [[m|]| |];
    [|done..].
  destruct Hspec as (j & ? & ? & ? & ?). exists j. split_and!; [lia|done..].
Qed.

Lemma lookup_key_found s (keyval : Z) (i : nat) :
  (i < NB_KEYS)%nat → _keyboard_cfg s !! i = Some keyval →
  keyval ∉ take i (_keyboard_cfg s) →
  lookup_key s keyval = Returns (Some (keymask i)).
Proof.
  intros Hi Hk Hfirst.
  assert (Hgen : ∀ todo j : nat, (j ≤ i < j + todo)%nat →
    lookup_key_from keymask (_keyboard_cfg s) keyval todo j = Returns (Some (keymask i))).
  { induction todo as [|todo IH]; intros j Hj; [lia|]. simpl.
    destruct (decide (j = i)) as [->|Hne].
    - rewrite Hk, Z.eqb_refl. done.
    - assert (Hlt : (j < length (_keyboard_cfg s))%nat)
        by (apply lookup_lt_Some in Hk; lia).
      destruct (lookup_lt_is_Some_2 _ _ Hlt) as [k Hjk]. rewrite Hjk.
      destruct (Z.eqb_spec keyval k) as [->|_]; [|apply IH; lia].
      exfalso. apply Hfirst. apply list_elem_of_lookup. exists j.
      rewrite lookup_take_lt by lia. done. }
  apply Hgen. lia.
Qed.

(** ** Keys *)

(** X17. No key press and no key release reaches the emulator while there is no
    emulator thread, while the emulator is not running, or while a breakpoint
    state is stopped: the handlers submit nothing and leave the controller as
    it is.  A key that went down before the halt and up during it is
    therefore never taken off the keypad by its release. *)
Theorem keys_need_running_emulator w s (ev : Event) :
  emu_thread w = false ∨ _emu_is_running w = false
  ∨ (∃ bs, breakpoint_state w = Some bs ∧ is_stopped bs = true) →
  match ev with KeyPress _ _ _ | KeyRelease _ => True | _ => False end →
  snd (handle ev w s) = s.
Proof.
  intros Hw Hev.
  assert (Hrun : emu_thread w = false ∨ emu_is_running w = false).
  { destruct Hw as [?|[?|(bs & Hbs & Hst)]]; [by left|right..].
    - unfold emu_is_running. by repeat case_match.
    - unfold emu_is_running. by rewrite Hbs, Hst. }
  destruct ev as [f k st|k| | | | | |]; try done; cbn [MainInput.handle].
  - unfold on_main_window_key_press_event.
    destruct Hrun as [->| ->]; [done|].
    repeat case_match; try done. by rewrite andb_false_r in *.
  - unfold on_main_window_key_release_event.
    destruct Hrun as [->| ->]; [done|].
    repeat case_match; try done. by rewrite andb_false_r in *.
Qed.

(** X18. With the emulator running, a configured key whose mask is not zero is
    added to the keypad by its press only when no entry or text view has the
    focus and none of shift, control and the two alt keys is held, and the
    handler then returns [True]; its release takes it off the keypad whatever
    is held and wherever the focus is. *)
Theorem key_press_and_release w s (keyval : Z) (i : nat) (focus_is_text : bool) (state : Z) :
  emu_thread w = true → emu_is_running w = true →
  (i < NB_KEYS)%nat → _keyboard_cfg s !! i = Some keyval →
  keyval ∉ take i (_keyboard_cfg s) → keymask i ≠ 0 →
  handle (KeyPress focus_is_text keyval state) w s
  = (if negb focus_is_text && (Z.land state modifiers =? 0)
     then (Returns (Some true), submit (KeypadAddKey (keymask i)) s)
     else (Returns (Some false), s))
  ∧ handle (KeyRelease keyval) w s
    = (Returns None, submit (KeypadRmKey (keymask i)) s).
Proof.
  intros Ht Hr Hi Hk Hfirst Hm. cbn [MainInput.handle].
  unfold on_main_window_key_press_event, on_main_window_key_release_event.
  rewrite Ht, Hr, (lookup_key_found s keyval i) by done. simpl.
  rewrite (proj2 (Z.eqb_neq _ _) Hm). simpl.
  split; [|done]. destruct focus_is_text; [done|]. simpl. by case_match.
Qed.

(** ** Touch *)

Lemma touch_pos_range (scale : Q) (rotation : Z) (x y : Q) (ex ey : Z) :
  1 ≤ SCREEN_WIDTH → 9 ≤ SCREEN_HEIGHT →
  touch_pos scale rotation x y = Returns (ex, ey) →
  0 ≤ ex ≤ SCREEN_WIDTH - 1 ∧ (ey = 0 ∨ 9 ≤ ey ≤ SCREEN_HEIGHT).
Proof.
  intros HW HH. unfold MainInput.touch_pos.
  destruct (Qeq_bool scale 0); [done|]. cbv zeta.
  set (emu_x := if (rotation =? 90) || (rotation =? 270) then _ else _).
  set (emu_y := if (rotation =? 90) || (rotation =? 270) then _ else _).
  clearbody emu_x emu_y. intros [= <- <-]. split.
  - destruct (Qltb emu_x 0) eqn:H0; [rewrite int_0; lia|].
    destruct (Qltb (inject_Z (SCREEN_WIDTH - 1)) emu_x) eqn:H1;
      [rewrite int_inject_Z; lia|].
    apply Qltb_ge in H0, H1. apply int_between; [lia|done|done].
  - destruct (Qltb emu_y 9) eqn:H0; [left; apply int_0|].
    right.
    destruct (Qltb (inject_Z SCREEN_HEIGHT) emu_y) eqn:H1;
      [rewrite int_inject_Z; lia|].
    apply Qltb_ge in H0, H1. apply int_between; [lia|done|done].
Qed.


Lemma set_touch_pos_in_range (x y : Q) s :
  1 ≤ SCREEN_WIDTH → 9 ≤ SCREEN_HEIGHT →
  Forall (λ c, touch_in_range c = true) (submitted s) →
  Forall (λ c, touch_in_range c = true)
    (submitted (snd (set_touch_pos SCREEN_WIDTH SCREEN_HEIGHT x y s))).
Proof.
  intros HW HH Hs. unfold set_touch_pos.
  destruct (touch_pos _ _ x y) as [[ex ey]| |] eqn:Hp; [|done..]. simpl.
  apply Forall_app. split; [done|]. apply Forall_singleton.
  apply touch_pos_range in Hp as [Hx Hy]; [|done..]. simpl.
  destruct Hy as [->|Hy]; [simpl; lia|].
  apply andb_true_intro. split; [lia|]. apply orb_true_intro. right. lia.
Qed.

Lemma touch_if_button1_in_range (p : Pointer) s :
  1 ≤ SCREEN_WIDTH → 9 ≤ SCREEN_HEIGHT →
  Forall (λ c, touch_in_range c = true) (submitted s) →
  Forall (λ c, touch_in_range c = true)
    (submitted (snd (touch_if_button1 SCREEN_WIDTH SCREEN_HEIGHT BUTTON1_MASK p s))).
Proof.
  intros HW HH Hs. unfold touch_if_button1.
  destruct (negb _); [by apply set_touch_pos_in_range|done].
Qed.

Lemma handle_in_range (ev : Event) w s :
  1 ≤ SCREEN_WIDTH → 9 ≤ SCREEN_HEIGHT →
  Forall (λ c, touch_in_range c = true) (submitted s) →
  Forall (λ c, touch_in_range c = true) (submitted (snd (handle ev w s))).
Proof.
  intros HW HH Hs.
  assert (Hsnoc : ∀ c, touch_in_range c = true →
            Forall (λ c, touch_in_range c = true) (submitted s ++ [c])).
  { intros c Hc. apply Forall_app. split; [done|by apply Forall_singleton]. }
  assert (Hmotion : ∀ h p e d, Forall (λ c, touch_in_range c = true)
    (submitted (snd (on_draw_motion_notify_event SCREEN_WIDTH SCREEN_HEIGHT BUTTON1_MASK
                       h p e d w s)))).
  { intros h p e d. unfold on_draw_motion_notify_event.
    destruct (emu_thread w); [|done]. destruct ((d =? 1) && _click s); [|done].
    pose proof (touch_if_button1_in_range (if h then p else e) s HW HH Hs) as Ht.
    by destruct (touch_if_button1 _ _ _ _ s) as [[] ?]. }
  assert (Hrelease : ∀ d, Forall (λ c, touch_in_range c = true)
    (submitted (snd (on_draw_button_release_event d w s)))).
  { intros d. unfold on_draw_button_release_event.
    destruct (emu_thread w); [|done]. destruct ((d =? 1) && _click s); [|done].
    simpl. by apply Hsnoc. }
  assert (Hpress : ∀ b p d, Forall (λ c, touch_in_range c = true)
    (submitted (snd (on_draw_button_press_event SCREEN_WIDTH SCREEN_HEIGHT BUTTON1_MASK
                       b p d w s)))).
  { intros b p d. unfold on_draw_button_press_event.
    destruct (emu_thread w); [|done]. destruct (b =? 1); [|done].
    destruct ((d =? 1) && emu_is_running w); [|done].
    pose proof (touch_if_button1_in_range p (set_click true s) HW HH Hs) as Ht.
    by destruct (touch_if_button1 _ _ _ _ (set_click true s)) as [[] ?]. }
  destruct ev as [f k st|k|h p e| |b p|h p e| |b p]; simpl; try done.
  - unfold on_main_window_key_press_event. repeat case_match; try done.
    simpl. by apply Hsnoc.
  - unfold on_main_window_key_release_event. repeat case_match; try done.
    simpl. by apply Hsnoc.
Qed.

(** X20. Whatever signals arrive, in whatever state of the controller, every
    position submitted to [touch_set_pos] lies in the clamped range. *)
Theorem touches_stay_in_range (evs : list (World E G * Event)) s :
  1 ≤ SCREEN_WIDTH → 9 ≤ SCREEN_HEIGHT →
  Forall (λ c, touch_in_range c = true) (submitted s) →
  Forall (λ c, touch_in_range c = true) (submitted (handle_all evs s)).
Proof.
  intros HW HH. revert s. induction evs as [|[w ev] evs IH]; intros s Hs; [done|].
  apply IH. by apply handle_in_range.
Qed.

(** X21. Only the touch screen (display 1) takes touches: a signal of the main
    screen changes nothing, and on the touch screen a motion or a release
    without a press before ([_click] unset) changes nothing either.  The
    release that ends a press calls [touch_release] and clears [_click] also
    while the emulator is not running. *)
Theorem touch_needs_click w s (ev : Event) :
  (match ev with
   | MainMotion _ _ _ | MainButtonRelease | MainButtonPress _ _ => snd (handle ev w s) = s
   | _ => True
   end)
  ∧ (_click s = false →
     match ev with
     | SubMotion _ _ _ | SubButtonRelease => snd (handle ev w s) = s
     | _ => True
     end)
  ∧ (_click s = true → emu_thread w = true →
     handle SubButtonRelease w s
     = (Returns (Some true), submit TouchRelease (set_click false s))).
Proof.
  split_and!.
  - destruct ev; simpl; try done.
    + unfold on_draw_motion_notify_event. by destruct (emu_thread w).
    + unfold on_draw_button_release_event. by destruct (emu_thread w).
    + unfold on_draw_button_press_event. destruct (emu_thread w); [|done].
      by destruct (button =? 1).
  - intros Hc. destruct ev; simpl; try done.
    + unfold on_draw_motion_notify_event. rewrite Hc. by destruct (emu_thread w).
    + unfold on_draw_button_release_event. rewrite Hc. by destruct (emu_thread w).
  - intros Hc Ht. simpl. unfold on_draw_button_release_event. by rewrite Hc, Ht.
Qed.

End Facts.

Import Demo.

Lemma keys_need_running_emulator_witness :
  snd (demo_handle (KeyRelease 97) world_halted demo_input) = demo_input
  ∧ snd (demo_handle (KeyRelease 97) world_running demo_input)
    = submit (KeypadRmKey 1) demo_input.
Proof.
  split; [|reflexivity].
  apply (keys_need_running_emulator demo_NB_KEYS demo_keymask 256 192 1 4 8 128 256
           world_halted demo_input (KeyRelease 97)); [|exact I].
  right. right. exists demo_breakpoint. split; reflexivity.
Defined.

Lemma key_press_and_release_witness :
  demo_handle (KeyPress false 115 0) world_running demo_input
  = (Returns (Some true), submit (KeypadAddKey 2) demo_input)
  ∧ demo_handle (KeyPress false 115 4) world_running demo_input
    = (Returns (Some false), demo_input)
  ∧ demo_handle (KeyRelease 115) world_running demo_input
    = (Returns None, submit (KeypadRmKey 2) demo_input).
Proof.
  assert (Hfirst : (115 : Z) ∉ take 1 (_keyboard_cfg demo_input)).
  { simpl. rewrite list_elem_of_singleton. discriminate. }
  destruct (key_press_and_release demo_NB_KEYS demo_keymask 256 192 1 4 8 128 256
              world_running demo_input 115 1 false 0) as [H1 H3];
    [reflexivity|reflexivity|unfold demo_NB_KEYS; lia|reflexivity|exact Hfirst|discriminate|].
  destruct (key_press_and_release demo_NB_KEYS demo_keymask 256 192 1 4 8 128 256
              world_running demo_input 115 1 false 4) as [H2 _];
    [reflexivity|reflexivity|unfold demo_NB_KEYS; lia|reflexivity|exact Hfirst|discriminate|].
  split_and!; [exact H1|exact H2|exact H3].
Defined.


Lemma touches_stay_in_range_witness :
  submitted (demo_handle_all demo_touch demo_input)
  = [TouchSetPos 50 0; TouchSetPos 255 192; TouchRelease]
  ∧ Forall (λ c, touch_in_range 256 192 c = true)
      (submitted (demo_handle_all demo_touch demo_input)).
Proof.
  split; [reflexivity|].
  apply (touches_stay_in_range demo_NB_KEYS demo_keymask 256 192 1 4 8 128 256
           demo_touch demo_input); [lia|lia|apply Forall_nil_2].
Defined.

Lemma touch_needs_click_witness :
  demo_handle SubButtonRelease world_halted (set_click true demo_input)
  = (Returns (Some true), submit TouchRelease demo_input).
Proof.
  destruct (touch_needs_click demo_NB_KEYS demo_keymask 256 192 1 4 8 128 256
              world_halted (set_click true demo_input) SubButtonRelease) as (_ & _ & H).
  exact (H eq_refl eq_refl).
Defined.

End MainInputFacts.

(** * Properties of the file tree filter *)

Module FileTreeFacts.
Import FileTree.

Lemma Row_forall_ind (P : Row → Prop) :
  (∀ t cs, Forall P cs → P (mkRow t cs)) → ∀ r, P r.
Proof.
  intros H. fix IH 1. intros [t cs]. apply H.
  induction cs as [|c cs IHcs]; constructor; [apply IH|exact IHcs].
Qed.

Section Facts.
Variable found_in : string → string → bool.

#[local, warnings="-notation-for-abbreviation"]
Notation filter := (_recursive_filter_func found_in).

Lemma filter_unfold (search t : string) parents path cs :
  filter (Some search) parents path (mkRow t cs)
  = if found_in search t then (true, [])
    else if existsb (found_in search) parents then (true, [])
    else each_child (filter (Some search) (t :: parents)) path cs 0%nat.
Proof. reflexivity. Qed.

Lemma each_child_visible (visit : list nat → Row → bool * list (list nat))
    (found : Row → bool) (cs : list Row) (path : list nat) :
  Forall (λ c, ∀ p, fst (visit p c) = found c) cs →
  ∀ i, fst (each_child visit path cs i) = existsb found cs.
Proof.
  induction 1 as [|c cs Hc _ IH]; intros i; simpl; [done|].
  specialize (Hc (path ++ [i])). destruct (visit (path ++ [i]) c) as [m ex].
  simpl in Hc. subst m. destruct (found c); simpl; [done|].
  specialize (IH (S i)). by destruct (each_child visit path cs (S i)).
Qed.

Lemma existsb_concat_map {A B} (f : B → bool) (g : A → list B) (l : list A) :
  existsb f (concat (map g l)) = existsb (λ a, existsb f (g a)) l.
Proof.
  induction l as [|a l IH]; simpl; [done|]. by rewrite existsb_app, IH.
Qed.

(** X22. With a search text, a row is visible exactly when the text is found in
    the row itself, in a row above it, or in a row anywhere below it; with no
    search text every row is visible and nothing is expanded. *)
Theorem filter_shows_matching_branches (search : string) (parents : list string)
    (path : list nat) (row : Row) :
  fst (filter (Some search) parents path row)
  = existsb (found_in search) (subtree_texts row) || existsb (found_in search) parents
  ∧ filter None parents path row = (true, []).
Proof.
  split; [|by destruct row].
  revert parents path. induction row as [t cs IH] using Row_forall_ind.
  intros parents path. rewrite filter_unfold. simpl.
  destruct (found_in search t) eqn:Ht; [done|]. simpl.
  destruct (existsb (found_in search) parents) eqn:Hp; [by rewrite orb_true_r|].
  rewrite orb_false_r, existsb_concat_map.
  apply each_child_visible.
  eapply Forall_impl; [exact IH|]. intros c Hc p. simpl in Hc.
  rewrite Hc. simpl. by rewrite Ht, Hp, orb_false_r.
Qed.

Lemma each_child_expands (visit : list nat → Row → bool * list (list nat))
    (cs : list Row) (path : list nat) :
  Forall (λ c, ∀ p, (fst (visit p c) = false → snd (visit p c) = [])
                    ∧ Forall (λ q, p `prefix_of` q) (snd (visit p c))) cs →
  ∀ i, (fst (each_child visit path cs i) = false → snd (each_child visit path cs i) = [])
       ∧ Forall (λ q, path `prefix_of` q) (snd (each_child visit path cs i))
       ∧ (fst (each_child visit path cs i) = true →
          last (snd (each_child visit path cs i)) = Some path).
Proof.
  induction 1 as [|c cs Hc _ IH]; intros i; simpl; [done|].
  destruct (Hc (path ++ [i])) as [Hnone Hpre].
  destruct (visit (path ++ [i]) c) as [m ex]. simpl in *.
  destruct m; simpl.
  - split_and!; [done| |by rewrite last_snoc].
    apply Forall_app. split; [|by apply Forall_singleton].
    eapply Forall_impl; [exact Hpre|]. intros q Hq.
    etrans; [|exact Hq]. by apply prefix_app_r.
  - rewrite (Hnone eq_refl). destruct (IH (S i)) as (H1 & H2 & H3).
    by destruct (each_child visit path cs (S i)).
Qed.

(** X23. [expand_row] is called only on the way to a row below that the text is
    found in: nothing is expanded when the row is hidden, or when the text is
    found in the row itself or above it; every expanded path lies in the
    subtree of the row; and when a row is visible only for a row below it,
    the last row expanded is the row itself. *)
Theorem filter_expands_towards_match (search : string) (parents : list string)
    (path : list nat) (row : Row) :
  let r := filter (Some search) parents path row in
  (fst r = false → snd r = [])
  ∧ (found_in search (row_text row) = true ∨ existsb (found_in search) parents = true →
     snd r = [])
  ∧ Forall (λ q, path `prefix_of` q) (snd r)
  ∧ (fst r = true → found_in search (row_text row) = false →
     existsb (found_in search) parents = false → last (snd r) = Some path).
Proof.
  cbv zeta.
  assert (Hgen : ∀ row parents path,
    (fst (filter (Some search) parents path row) = false →
     snd (filter (Some search) parents path row) = [])
    ∧ Forall (λ q, path `prefix_of` q) (snd (filter (Some search) parents path row))).
  { clear. induction row as [t cs IH] using Row_forall_ind. intros parents path.
    rewrite filter_unfold.
    destruct (found_in search t); [done|].
    destruct (existsb (found_in search) parents); [done|].
    destruct (each_child_expands (filter (Some search) (t :: parents)) cs path) with (i := 0%nat)
      as (H1 & H2 & _); [|done].
    eapply Forall_impl; [exact IH|]. intros c Hc p. apply Hc. }
  destruct (Hgen row parents path) as [Hnone Hpre].
  split_and!; [done| |done|].
  - destruct row as [t cs]. rewrite filter_unfold. simpl.
    intros [-> | Hp]; [done|]. rewrite Hp. by destruct (found_in search t).
  - destruct row as [t cs]. rewrite filter_unfold. simpl.
    intros Hr Ht Hp. rewrite Ht, Hp in *.
    destruct (each_child_expands (filter (Some search) (t :: parents)) cs path) with (i := 0%nat)
      as (_ & _ & H3); [|by apply H3].
    apply Forall_forall. intros c _ p. apply Hgen.
Qed.

End Facts.

Import Demo.

Example filter_expands_to_the_match :
  _recursive_filter_func demo_found_in (Some "enter00"%string) [] [0%nat] demo_tree
  = (true, [[0; 1]; [0]]%nat)
  ∧ _recursive_filter_func demo_found_in (Some "COMMON"%string) ["SCRIPT"%string; "COMMON"%string]
      [0; 0; 0]%nat (FileTree.mkRow "unionall.ssb" [])
    = (true, [])
  ∧ _recursive_filter_func demo_found_in (Some "enter"%string) ["SCRIPT"%string] [0; 0]%nat
      (FileTree.mkRow "COMMON" [FileTree.mkRow "unionall.ssb" []])
    = (false, []).
Proof. split_and!; reflexivity. Qed.

End FileTreeFacts.

(** * Properties of the code editor controller *)

Module CodeEditorFacts.
Import Main MainFacts CodeEditor.

(** ** Dictionaries *)

Section DictFacts.
Context {V : Type}.
Implicit Types (d : list (string * V)) (k : string) (v : V).

Lemma dict_get_Some k v d : dict_get k d = Some v → (k, v) ∈ d.
Proof.
  induction d as [|[k' v'] d IH]; simpl; [done|].
  rewrite elem_of_cons.
  case_bool_decide as Hk; [intros [= <-]; subst; by left|].
  intros ?. right. by apply IH.
Qed.

Lemma dict_get_None k d : dict_get k d = None ↔ k ∉ d.*1.
Proof.
  induction d as [|[k' v'] d IH]; simpl; [split; [intros _; apply not_elem_of_nil|done]|].
  rewrite not_elem_of_cons. case_bool_decide as Hk.
  - split; [done|]. intros [? _]. congruence.
  - rewrite IH. split; [intros ?; split; [congruence|done]|tauto].
Qed.

Lemma dict_get_NoDup k v d : NoDup d.*1 → (k, v) ∈ d → dict_get k d = Some v.
Proof.
  induction d as [|[k' v'] d IH]; simpl; [by intros _ ?%elem_of_nil|].
  intros [Hk' Hd]%NoDup_cons [[= -> ->]|Hin]%elem_of_cons.
  - by rewrite bool_decide_eq_true_2.
  - rewrite bool_decide_eq_false_2; [by apply IH|].
    intros ->. apply Hk'. apply list_elem_of_fmap. by exists (k, v).
Qed.

Lemma dict_set_new k v d : dict_get k d = None → dict_set k v d = d ++ [(k, v)].
Proof.
  induction d as [|[k' v'] d IH]; simpl; [done|].
  case_bool_decide; [done|]. intros ?. f_equal. by apply IH.
Qed.

Lemma dict_get_set k v d : dict_get k (dict_set k v d) = Some v.
Proof.
  induction d as [|[k' v'] d IH]; simpl.
  - by rewrite bool_decide_eq_true_2.
  - case_bool_decide as Hk; simpl; [by rewrite bool_decide_eq_true_2|].
    by rewrite bool_decide_eq_false_2.
Qed.

Lemma dict_del_elem k d k' v' :
  NoDup d.*1 → (k', v') ∈ dict_del k d ↔ (k', v') ∈ d ∧ k' ≠ k.
Proof.
  induction d as [|[k0 v0] d IH]; simpl; intros Hnd.
  - split; [by intros ?%elem_of_nil|by intros [?%elem_of_nil _]].
  - apply NoDup_cons in Hnd as [Hk0 Hnd]. case_bool_decide as Hk.
    + subst k0. rewrite elem_of_cons. split.
      * intros Hin. split; [by right|]. intros ->. apply Hk0.
        apply list_elem_of_fmap. by exists (k, v').
      * intros [[[= -> ->]|Hin] Hne]; [done|done].
    + rewrite !elem_of_cons, IH by done. split.
      * intros [[= -> ->]|[? ?]]; [split; [by left|done]|split; [by right|done]].
      * intros [[[= -> ->]|?] ?]; [by left|by right].
Qed.

Lemma dict_del_sublist k d : sublist (dict_del k d) d.
Proof.
  induction d as [|[k0 v0] d IH]; simpl; [done|].
  case_bool_decide; [by apply sublist_cons|by apply sublist_skip].
Qed.

End DictFacts.


(** ** The label of a tab *)

Lemma append_cons (c : ascii) (a b : string) : String c a +:+ b = String c (a +:+ b).
Proof. reflexivity. Qed.

Lemma append_empty_r (a : string) : a +:+ EmptyString = a.
Proof. induction a as [|c a IH]; [done|]. by rewrite append_cons, IH. Qed.

Lemma append_assoc (a b c : string) : (a +:+ b) +:+ c = a +:+ (b +:+ c).
Proof. induction a as [|x a IH]; [done|]. by rewrite !append_cons, IH. Qed.

Lemma basename_from_app_no_slash (x : string) : ∀ acc,
  no_slash x = true → basename_from acc x = acc +:+ x.
Proof.
  induction x as [|c x IH]; intros acc; simpl.
  - intros _. by rewrite append_empty_r.
  - case_bool_decide; simpl; [done|]. intros Hx. rewrite IH by done.
    by rewrite append_assoc.
Qed.

Lemma basename_from_dir (dir x : string) : ∀ acc,
  no_slash x = true → basename_from acc (dir +:+ "/" +:+ x) = x.
Proof.
  induction dir as [|c dir IH]; intros acc Hx.
  - change (basename_from acc (String "/" x) = x). simpl.
    by rewrite basename_from_app_no_slash.
  - rewrite append_cons. simpl. case_bool_decide; by apply IH.
Qed.

Lemma substring_prefix (a b : string) :
  String.substring 0 (String.length a) (a +:+ b) = a.
Proof.
  induction a as [|c a IH]; [by destruct b|]. rewrite append_cons. simpl. by rewrite IH.
Qed.

Lemma length_append (a b : string) :
  String.length (a +:+ b) = (String.length a + String.length b)%nat.
Proof. induction a as [|c a IH]; [done|]. rewrite append_cons. simpl. by rewrite IH. Qed.

(** X24. The label of a tab is the name of the file without its directories and
    without its last four characters, whatever these are; a file whose name
    has at most four characters gets an empty label. *)
Theorem tab_label_strips_four_characters (dir name ext : string) :
  no_slash (name +:+ ext) = true → String.length ext = 4%nat →
  tab_label (dir +:+ "/" +:+ name +:+ ext) = name
  ∧ tab_label (name +:+ ext) = name
  ∧ tab_label (dir +:+ "/" +:+ ext) = EmptyString
  ∧ modified_markup (dir +:+ "/" +:+ name +:+ ext) true = "<i>" +:+ name +:+ "*</i>".
Proof.
  intros Hns Hext.
  assert (Hext_ns : no_slash ext = true).
  { rewrite no_slash_app in Hns. by apply andb_true_iff in Hns as [_ ?]. }
  assert (Hcut : ∀ n, String.substring 0 (String.length (n +:+ ext) - 4) (n +:+ ext) = n).
  { intros n. rewrite length_append, Hext.
    replace (String.length n + 4 - 4)%nat with (String.length n) by lia.
    apply substring_prefix. }
  assert (H1 : tab_label (dir +:+ "/" +:+ name +:+ ext) = name).
  { unfold tab_label, basename. rewrite basename_from_dir by done. apply Hcut. }
  split_and!.
  - done.
  - unfold tab_label, basename. rewrite basename_from_app_no_slash by done. apply Hcut.
  - unfold tab_label, basename. rewrite basename_from_dir by done.
    rewrite Hext. simpl. by destruct ext.
  - unfold modified_markup. by rewrite H1.
Qed.


(** ** The controller *)

Section Facts.
Context {N : Type} `{!Notebook N} {Lines : Type}.
Implicit Types (s : t N Lines) (c : EditorCall Lines) (e : Editor Lines).

Lemma invariant_core s s' :
  file_manager s' = file_manager s → _open_editors s' = _open_editors s →
  editors s' = editors s → invariant s → invariant s'.
Proof.
  unfold invariant, well_formed, destroyed_is_final, open_ids.
  intros -> -> ->. done.
Qed.

Lemma lookup_send id c s id' :
  editors (send id c s) !! id'
  = if decide (id' = id) then add_call c <$> editors s !! id' else editors s !! id'.
Proof.
  unfold send. simpl. destruct (decide (id' = id)) as [->|Hne].
  - apply list_lookup_alter_eq.
  - by apply list_lookup_alter_ne.
Qed.

Lemma send_invariant id c s f :
  (f, id) ∈ _open_editors s → c ≠ Destroy → invariant s → invariant (send id c s).
Proof.
  intros Hin Hc [(Hk & Hi & Hed & Hfm) Hfin]. split; [split_and!; try done|].
  - intros f' id' Hin'. destruct (Hed f' id' Hin') as (e & He & Hf & Hd).
    rewrite lookup_send. destruct (decide (id' = id)) as [->|Hne].
    + exists (add_call c e). rewrite He. split_and!; [done|done|]. simpl.
      rewrite not_elem_of_app, list_elem_of_singleton. split; [done|congruence].
    + by exists e.
  - intros id' e. rewrite lookup_send. destruct (decide (id' = id)) as [->|Hne].
    + destruct (Hed f id Hin) as (e0 & He0 & _ & Hd). rewrite He0. simpl.
      intros [= <-]. simpl. rewrite elem_of_app, list_elem_of_singleton.
      intros [?|?]; [done|congruence].
    + apply Hfin.
Qed.


Lemma sends_invariant id cs f : ∀ s,
  (f, id) ∈ _open_editors s → Forall (λ c, c ≠ Destroy) cs → invariant s →
  invariant (foldl (λ s c, send id c s) s cs)
  ∧ _open_editors (foldl (λ s c, send id c s) s cs) = _open_editors s
  ∧ file_manager (foldl (λ s c, send id c s) s cs) = file_manager s.
Proof.
  induction cs as [|c cs IH]; intros s Hin Hcs Hinv; simpl; [done|].
  apply Forall_cons in Hcs as [Hc Hcs].
  destruct (IH (send id c s)) as (H1 & H2 & H3); [done|done|by eapply send_invariant|].
  done.
Qed.

Lemma send_each_invariant cs (l : list (string * nat)) : ∀ s,
  (∀ kv, kv ∈ l → kv ∈ _open_editors s) → Forall (λ c, c ≠ Destroy) cs → invariant s →
  invariant (foldl (λ s kv, foldl (λ s c, send (snd kv) c s) s cs) s l)
  ∧ _open_editors (foldl (λ s kv, foldl (λ s c, send (snd kv) c s) s cs) s l)
    = _open_editors s
  ∧ file_manager (foldl (λ s kv, foldl (λ s c, send (snd kv) c s) s cs) s l)
    = file_manager s.
Proof.
  induction l as [|[f id] l IH]; intros s Hl Hcs Hinv; simpl; [done|].
  destruct (sends_invariant id cs f s) as (H1 & H2 & H3);
    [apply Hl; by left|done|done|].
  destruct (IH (foldl (λ s c, send id c s) s cs)) as (H4 & H5 & H6); [|done|done|].
  { intros kv Hkv. rewrite H2. apply Hl. by right. }
  split_and!; [done|congruence|congruence].
Qed.

Lemma send_all_invariant cs s :
  Forall (λ c, c ≠ Destroy) cs → invariant s →
  invariant (send_all cs s)
  ∧ _open_editors (send_all cs s) = _open_editors s
  ∧ file_manager (send_all cs s) = file_manager s.
Proof. intros. by apply send_each_invariant. Qed.

Lemma new_invariant (notebook : N) : invariant (new (Lines:=Lines) notebook).
Proof.
  split; [split_and!|]; simpl; try done.
  - apply NoDup_nil_2.
  - apply NoDup_nil_2.
  - by intros f id ?%elem_of_nil.
Qed.

Lemma calls_on_open_no_destroy filename s : Destroy ∉ calls_on_open filename s.
Proof.
  unfold calls_on_open. rewrite not_elem_of_app. split.
  - destruct (_ !! filename); [|apply not_elem_of_nil].
    by rewrite list_elem_of_singleton.
  - case_bool_decide; [|apply not_elem_of_nil].
    rewrite !not_elem_of_cons. split_and!; [done|done|apply not_elem_of_nil].
Qed.

Lemma open_ids_lt s f id : well_formed s → (f, id) ∈ _open_editors s → (id < length (editors s))%nat.
Proof.
  intros (_ & _ & Hed & _) Hin. destruct (Hed f id Hin) as (e & He & _).
  by apply lookup_lt_Some in He.
Qed.

Lemma open_new_state filename s :
  file_manager s = true → dict_get filename (_open_editors s) = None →
  ∃ nb pnum,
    open filename s
    = mk true (_open_editors s ++ [(filename, length (editors s))])
        (<[pnum := length (editors s)]> (_open_editors_by_page_num s)) nb
        (_cached_hanger_halt_lines s) (_cached_active_halted_filename s)
        (_cached_active_halted_opcode s)
        (editors s ++ [mkEditor filename false (calls_on_open filename s)]).
Proof.
  intros Hfm Hnone. unfold open. rewrite Hfm, Hnone.
  destruct (insert_page _ _ _ _) as [nb pnum]. eexists _, pnum.
  by rewrite dict_set_new.
Qed.

Lemma open_invariant filename s : invariant s → invariant (open filename s).
Proof.
  intros Hinv. destruct (file_manager s) eqn:Hfm; [|unfold open; by rewrite Hfm].
  destruct (dict_get filename (_open_editors s)) as [id|] eqn:Hget.
  { unfold open. rewrite Hfm, Hget. by eapply invariant_core. }
  destruct (open_new_state filename s Hfm Hget) as (nb & pnum & ->).
  destruct Hinv as [Hwf Hfin]. pose proof Hwf as (Hk & Hi & Hed & Hnofm).
  apply dict_get_None in Hget.
  assert (Hfresh : length (editors s) ∉ open_ids s).
  { unfold open_ids. intros ([f id] & Heq & Hin)%list_elem_of_fmap. simpl in Heq. subst id.
    apply (open_ids_lt s f) in Hin; [lia|done]. }
  split; [split_and!|]; unfold open_ids in *; simpl.
  - rewrite fmap_app. apply NoDup_app. split_and!; [done| |apply NoDup_singleton].
    intros x Hx ->%list_elem_of_singleton. done.
  - rewrite fmap_app. apply NoDup_app. split_and!; [done| |apply NoDup_singleton].
    intros x Hx ->%list_elem_of_singleton. done.
  - intros f id [Hin|[= -> ->]%list_elem_of_singleton]%elem_of_app.
    + destruct (Hed f id Hin) as (e & He & ?). exists e.
      split; [by apply lookup_app_l_Some|done].
    + eexists. split; [apply list_lookup_middle; done|]. simpl.
      split; [done|apply calls_on_open_no_destroy].
  - done.
  - intros id e He Hd. apply lookup_app_Some in He as [He|[Hge He]].
    + destruct (Hfin id e He Hd) as [Hno Hbefore]. split; [|done].
      unfold open_ids in *. simpl.
      rewrite fmap_app, not_elem_of_app. split; [done|]. simpl.
      rewrite list_elem_of_singleton. apply lookup_lt_Some in He. lia.
    + destruct (id - length (editors s))%nat; simpl in He; [|done].
      injection He as <-. simpl in Hd. by apply calls_on_open_no_destroy in Hd.
Qed.

Lemma NoDup_snd_inj {A B} (l : list (A * B)) a b x :
  NoDup l.*1 → NoDup l.*2 → (a, x) ∈ l → (b, x) ∈ l → a = b.
Proof.
  induction l as [|[k v] l IH]; simpl; [by intros _ _ ?%elem_of_nil|].
  intros [Hk Hk']%NoDup_cons [Hv Hv']%NoDup_cons.
  rewrite !elem_of_cons. intros [[= -> ->]|Ha] [[= -> ]|Hb]; [done|..].
  - exfalso. apply Hv. apply list_elem_of_fmap. by exists (b, v).
  - subst. exfalso. apply Hv. apply list_elem_of_fmap. by exists (a, v).
  - by apply IH.
Qed.

Lemma destroy_invariant filename id s :
  (filename, id) ∈ _open_editors s → invariant s →
  invariant (set_open_editors (dict_del filename (_open_editors s)) (send id Destroy s)).
Proof.
  intros Hin [Hwf Hfin]. pose proof Hwf as (Hk & Hi & Hed & Hnofm).
  assert (Hsub : sublist (dict_del filename (_open_editors s)) (_open_editors s))
    by apply dict_del_sublist.
  assert (Hgone : id ∉ (dict_del filename (_open_editors s)).*2).
  { intros ([f' id'] & Heq & Hin')%list_elem_of_fmap. simpl in Heq. subst id'.
    apply dict_del_elem in Hin' as [Hin' Hne]; [|done].
    apply Hne. by eapply NoDup_snd_inj. }
  split; [split_and!|]; unfold open_ids in *; simpl.
  - eapply sublist_NoDup; [exact Hk|by apply fmap_sublist].
  - eapply sublist_NoDup; [exact Hi|by apply fmap_sublist].
  - intros f' id' Hin'. apply dict_del_elem in Hin' as [Hin' Hne]; [|done].
    destruct (Hed f' id' Hin') as (e & He & ?). exists e. split; [|done].
    rewrite list_lookup_alter_ne; [done|].
    intros <-. apply Hne. by eapply NoDup_snd_inj.
  - intros Hfm. rewrite (Hnofm Hfm) in Hin. by apply elem_of_nil in Hin.
  - intros id' e. unfold send. simpl. destruct (decide (id' = id)) as [->|Hne].
    + rewrite list_lookup_alter_eq. destruct (Hed filename id Hin) as (e0 & He0 & _ & Hd0).
      rewrite He0. simpl. intros [= <-] _. split; [done|]. by exists (calls e0).
    + rewrite list_lookup_alter_ne by done. intros He Hd.
      destruct (Hfin id' e He Hd) as [Hno Hbefore]. split; [|done].
      unfold open_ids in *. simpl.
      intros Hx. apply Hno. eapply elem_of_sublist; [exact Hx|]. by apply fmap_sublist.
Qed.

Lemma close_tab_invariant filename response may_close s :
  invariant s → invariant (snd (close_tab filename response may_close s)).
Proof.
  intros Hinv. unfold close_tab.
  destruct (dict_get filename (_open_editors s)) as [id|] eqn:Hget; [|done].
  apply dict_get_Some in Hget.
  set (s1 := if _ && (response =? 1) then send id Save s else s).
  assert (H1 : invariant s1 ∧ _open_editors s1 = _open_editors s).
  { unfold s1. destruct (_ && (response =? 1)); [|done].
    split; [by eapply send_invariant|done]. }
  destruct H1 as [Hinv1 Hopen1]. clearbody s1.
  destruct (_ && negb (response =? 0)); [done|].
  destruct (negb (file_manager s1)); [done|].
  destruct (negb may_close); [done|].
  assert (Hinv4 : invariant
    (set_open_editors (dict_del filename (_open_editors s1))
       (send id Destroy (set_notebook (remove_page (page_num id (_notebook s)) (_notebook s1)) s1)))).
  { apply (destroy_invariant filename id (set_notebook _ s1)); [by rewrite <- Hopen1 in Hget|].
    by eapply invariant_core. }
  simpl. destruct (_ !! page_num id (_notebook s)); [|done].
  by eapply invariant_core.
Qed.

Lemma focus_by_opcode_addr_invariant filename opcode_addr s :
  invariant s → invariant (snd (focus_by_opcode_addr filename opcode_addr s)).
Proof.
  intros Hinv. unfold focus_by_opcode_addr.
  set (s1 := match dict_get filename (_open_editors s) with Some _ => _ | None => _ end).
  assert (Hinv1 : invariant s1).
  { unfold s1. destruct (dict_get filename (_open_editors s));
      [by eapply invariant_core|by apply open_invariant]. }
  clearbody s1. destruct (dict_get filename (_open_editors s1)) as [id|] eqn:Hget; [|done].
  simpl. apply dict_get_Some in Hget. by eapply send_invariant.
Qed.

Lemma insert_hanger_halt_lines_invariant (halt_lines : list (string * Lines)) : ∀ s,
  invariant s →
  invariant (insert_hanger_halt_lines halt_lines s)
  ∧ _open_editors (insert_hanger_halt_lines halt_lines s) = _open_editors s
  ∧ file_manager (insert_hanger_halt_lines halt_lines s) = file_manager s.
Proof.
  unfold insert_hanger_halt_lines.
  induction halt_lines as [|[f lines] hl IH]; intros s Hinv; simpl; [done|].
  match goal with |- context [foldl _ ?s0 hl] => set (s1 := s0) end.
  assert (H1 : invariant s1 ∧ _open_editors s1 = _open_editors s
               ∧ file_manager s1 = file_manager s).
  { unfold s1. destruct (dict_get f (_open_editors s)) as [id|] eqn:Hget.
    - apply dict_get_Some in Hget. split; [|done].
      apply (send_invariant id _ _ f); [done|done|by eapply invariant_core].
    - split; [by eapply invariant_core|done]. }
  destruct H1 as (Hinv1 & Ho1 & Hf1). clearbody s1.
  destruct (IH s1 Hinv1) as (H2 & H3 & H4).
  split_and!; [exact H2|by etrans; [exact H3|]|by etrans; [exact H4|]].
Qed.

Lemma run_op_invariant (op : Op Lines) s : invariant s → invariant (run_op op s).
Proof.
  intros Hinv. destruct op as [|f|f r m|f a|f a| |hl| |f o|f o|id m|id b]; simpl.
  - destruct Hinv as [(Hk & Hi & Hed & Hnofm) Hfin]. split; [split_and!|]; done.
  - by apply open_invariant.
  - by apply close_tab_invariant.
  - by apply focus_by_opcode_addr_invariant.
  - eapply invariant_core; [done..|].
    destruct (dict_get f (_open_editors s)) as [id|] eqn:Hget; [|done].
    apply dict_get_Some in Hget.
    apply (send_invariant id _ _ f); [done|done|]. by apply (send_invariant id _ _ f).
  - eapply invariant_core; [done..|]. apply send_all_invariant; [|done].
    repeat (apply Forall_cons; split; [done|]). apply Forall_nil_2.
  - by apply insert_hanger_halt_lines_invariant.
  - apply send_all_invariant; [|by eapply invariant_core].
    repeat (apply Forall_cons; split; [done|]). apply Forall_nil_2.
  - unfold on_breakpoint_added. destruct (dict_get f (_open_editors s)) as [id|] eqn:Hget; [|done].
    apply dict_get_Some in Hget. by apply (send_invariant id _ _ f).
  - unfold on_breakpoint_removed. destruct (dict_get f (_open_editors s)) as [id|] eqn:Hget; [|done].
    apply dict_get_Some in Hget. by apply (send_invariant id _ _ f).
  - unfold on_ssb_editor_modified. destruct (editors s !! id); [|done].
    by eapply invariant_core.
  - destruct Hinv as [(Hk & Hi & Hed & Hnofm) Hfin].
    assert (Hlook : ∀ id' e', alter (set_has_changes b) id (editors s) !! id' = Some e' →
              ∃ e0, editors s !! id' = Some e0 ∧ calls e' = calls e0
                    ∧ ed_filename e' = ed_filename e0).
    { intros id' e'. destruct (decide (id' = id)) as [->|Hne].
      - rewrite list_lookup_alter_eq. destruct (editors s !! id) as [e0|]; [|done].
        simpl. intros [= <-]. by exists e0.
      - rewrite list_lookup_alter_ne by done. intros ?. by exists e'. }
    split; [split_and!; try done|].
    + intros f id' Hin. destruct (Hed f id' Hin) as (e & He & Hf & Hd).
      destruct (decide (id' = id)) as [->|Hne].
      * exists (set_has_changes b e). simpl. rewrite list_lookup_alter_eq, He. done.
      * exists e. simpl. by rewrite list_lookup_alter_ne.
    + intros id' e' He' Hd. simpl in He'.
      destruct (Hlook id' e' He') as (e0 & He0 & Hc & _). rewrite Hc in *.
      by apply (Hfin id' e0).
Qed.

Lemma run_invariant (ops : list (Op Lines)) : ∀ s, invariant s → invariant (run ops s).
Proof.
  induction ops as [|op ops IH]; intros s Hinv; simpl; [done|].
  apply IH. by apply run_op_invariant.
Qed.


(** ** What the methods do *)


(** Opening a file a second time creates no second editor and registers
    nothing new, and without a file manager [open] does nothing at all. *)
Lemma open_twice_one_editor (filename : string) s :
  editors (open filename (open filename s)) = editors (open filename s)
  ∧ _open_editors (open filename (open filename s)) = _open_editors (open filename s)
  ∧ (file_manager s = false → open filename s = s).
Proof.
  destruct (file_manager s) eqn:Hfm.
  - split_and!; [| |done].
    + destruct (dict_get filename (_open_editors s)) as [id|] eqn:Hget.
      * unfold open at 2 3. rewrite Hfm, Hget. unfold open. simpl. by rewrite Hfm, Hget.
      * destruct (open_new_state filename s Hfm Hget) as (nb & pnum & ->).
        unfold open. simpl. rewrite <- dict_set_new by done. by rewrite dict_get_set.
    + destruct (dict_get filename (_open_editors s)) as [id|] eqn:Hget.
      * unfold open at 2 3. rewrite Hfm, Hget. unfold open. simpl. by rewrite Hfm, Hget.
      * destruct (open_new_state filename s Hfm Hget) as (nb & pnum & ->).
        unfold open. simpl. rewrite <- dict_set_new by done. by rewrite dict_get_set.
  - unfold open. rewrite Hfm. simpl. by rewrite Hfm.
Qed.

Lemma sends_frame id cs : ∀ s,
  file_manager (foldl (λ s c, send id c s) s cs) = file_manager s
  ∧ _open_editors (foldl (λ s c, send id c s) s cs) = _open_editors s
  ∧ _cached_hanger_halt_lines (foldl (λ s c, send id c s) s cs) = _cached_hanger_halt_lines s
  ∧ _cached_active_halted_filename (foldl (λ s c, send id c s) s cs)
    = _cached_active_halted_filename s
  ∧ _cached_active_halted_opcode (foldl (λ s c, send id c s) s cs)
    = _cached_active_halted_opcode s.
Proof.
  induction cs as [|c cs IH]; intros s; simpl; [done|].
  destruct (IH (send id c s)) as (H1 & H2 & H3 & H4 & H5). done.
Qed.

Lemma send_each_frame cs (l : list (string * nat)) : ∀ s,
  let s' := foldl (λ s kv, foldl (λ s c, send (snd kv) c s) s cs) s l in
  file_manager s' = file_manager s
  ∧ _open_editors s' = _open_editors s
  ∧ _cached_hanger_halt_lines s' = _cached_hanger_halt_lines s
  ∧ _cached_active_halted_filename s' = _cached_active_halted_filename s
  ∧ _cached_active_halted_opcode s' = _cached_active_halted_opcode s.
Proof.
  cbv zeta. induction l as [|[f id] l IH]; intros s; simpl; [done|].
  destruct (sends_frame id cs s) as (H1 & H2 & H3 & H4 & H5).
  destruct (IH (foldl (λ s c, send id c s) s cs)) as (H1' & H2' & H3' & H4' & H5').
  split_and!; etrans; done.
Qed.

Lemma send_all_frame cs s :
  file_manager (send_all cs s) = file_manager s
  ∧ _open_editors (send_all cs s) = _open_editors s
  ∧ _cached_hanger_halt_lines (send_all cs s) = _cached_hanger_halt_lines s
  ∧ _cached_active_halted_filename (send_all cs s) = _cached_active_halted_filename s
  ∧ _cached_active_halted_opcode (send_all cs s) = _cached_active_halted_opcode s.
Proof. apply send_each_frame. Qed.

(** X26. An editor opened while the debugger is halted in its file is told so on
    creation: after the halt lines that are cached for the file, it gets
    [toggle_debugging_controls(True)] and [halted_at_opcode] with the address
    of the halt.  Opened after the release, it gets neither. *)
Theorem editor_opened_during_halt s (filename : string) (opcode_addr : Z) :
  file_manager s = true → dict_get filename (_open_editors s) = None →
  let lines := match _cached_hanger_halt_lines s !! filename with
               | Some l => [InsertHangerHaltLines l]
               | None => []
               end in
  let s1 := fst (break_pulled filename opcode_addr s) in
  last (editors (open filename s1))
  = Some (mkEditor filename false
            (lines ++ [ToggleDebuggingControls true; HaltedAtOpcode (Some opcode_addr)]))
  ∧ last (editors (open filename (break_released s1)))
    = Some (mkEditor filename false lines)
  ∧ snd (break_pulled filename opcode_addr s) = release_hook.
Proof.
  intros Hfm Hget. cbv zeta. unfold break_pulled. rewrite Hget. simpl.
  split_and!; [| |done].
  - destruct (open_new_state filename (set_active_halted (Some filename) (Some opcode_addr) s))
      as (nb & pnum & ->); [done|done|]. simpl. rewrite last_snoc.
    unfold calls_on_open. simpl. by rewrite bool_decide_eq_true_2.
  - unfold break_released.
    destruct (send_all_frame [ToggleDebuggingControls false; HaltedAtOpcode (Some (-1))]
                (set_active_halted (Some filename) (Some opcode_addr) s))
      as (H1 & H2 & H3 & _).
    set (s2 := send_all _ _) in *. simpl in H1, H2, H3.
    destruct (open_new_state filename (set_active_halted None None s2))
      as (nb & pnum & ->); [simpl; congruence|simpl; congruence|].
    simpl. rewrite last_snoc.
    unfold calls_on_open. simpl. rewrite H3, app_nil_r. done.
Qed.

Lemma dict_get_del {V} (k : string) (d : list (string * V)) :
  NoDup d.*1 → dict_get k (dict_del k d) = None.
Proof.
  intros Hnd. apply dict_get_None.
  intros ([k' v] & Heq & Hin)%list_elem_of_fmap. simpl in Heq. subst k'.
  apply dict_del_elem in Hin as [_ Hne]; done.
Qed.

(** X27. [close_tab] on an editor with unsaved changes closes the tab only when
    the answer is 0 ("Don't Save") and the file manager agrees.  With the
    answer 1 ("Save") the editor is saved and the tab stays open; with any
    other answer nothing happens at all. *)
Theorem close_tab_unsaved_changes s (filename : string) (id : nat) e
    (response : Z) (may_close : bool) :
  dict_get filename (_open_editors s) = Some id →
  editors s !! id = Some e → has_changes e = true →
  NoDup (_open_editors s).*1 →
  if response =? 0
  then file_manager s = true → may_close = true →
       dict_get filename (_open_editors (snd (close_tab filename response may_close s))) = None
       ∧ editors (snd (close_tab filename response may_close s)) !! id
         = Some (add_call Destroy e)
       ∧ _notebook (snd (close_tab filename response may_close s))
         = remove_page (page_num id (_notebook s)) (_notebook s)
  else close_tab filename response may_close s
       = (Returns tt, if response =? 1 then send id Save s else s).
Proof.
  intros Hget He Hch Hnd. unfold close_tab. rewrite Hget, He. simpl. rewrite Hch. simpl.
  destruct (Z.eqb_spec response 0) as [->|Hne]; simpl.
  - intros Hfm ->. rewrite Hfm. simpl.
    destruct (_ !! page_num id (_notebook s)); simpl;
      (split_and!; [by apply dict_get_del|by rewrite list_lookup_alter_eq, He|done]).
  - done.
Qed.

Lemma add_calls_nil (o : option (Editor Lines)) : add_calls [] <$> o = o.
Proof. destruct o as [[]|]; simpl; [|done]. unfold add_calls. simpl. by rewrite app_nil_r. Qed.

Lemma lookup_sends id cs : ∀ s id',
  editors (foldl (λ s c, send id c s) s cs) !! id'
  = if decide (id' = id) then add_calls cs <$> editors s !! id' else editors s !! id'.
Proof.
  induction cs as [|c cs IH]; intros s id'; simpl.
  - rewrite add_calls_nil. by destruct (decide (id' = id)).
  - rewrite IH, lookup_send. destruct (decide (id' = id)); [|done].
    destruct (editors s !! id') as [ed|]; simpl; [|done].
    unfold add_calls, add_call. simpl. by rewrite <- app_assoc.
Qed.

Lemma lookup_send_each cs (l : list (string * nat)) : ∀ s id',
  NoDup l.*2 →
  editors (foldl (λ s kv, foldl (λ s c, send (snd kv) c s) s cs) s l) !! id'
  = if bool_decide (id' ∈ l.*2) then add_calls cs <$> editors s !! id' else editors s !! id'.
Proof.
  induction l as [|[f id] l IH]; intros s id'; simpl; [done|].
  intros [Hid Hl]%NoDup_cons. rewrite IH, lookup_sends by done.
  destruct (decide (id' = id)) as [->|Hne].
  - rewrite bool_decide_eq_false_2 by done. rewrite bool_decide_eq_true_2; [done|by left].
  - case_bool_decide as Hin.
    + rewrite bool_decide_eq_true_2; [done|by right].
    + rewrite bool_decide_eq_false_2; [done|]. rewrite not_elem_of_cons. done.
Qed.

(** X28. In every state that the controller can reach, [break_released] sends
    [toggle_debugging_controls(False)] and [halted_at_opcode(-1)] to each open
    editor, once and in this order, sends nothing to any other editor, and
    forgets the file and the address of the halt. *)
Theorem break_released_resets_open_editors (notebook : N) (ops : list (Op Lines))
    (id : nat) :
  let s := run ops (new notebook) in
  editors (break_released s) !! id
  = (if bool_decide (id ∈ open_ids s)
     then add_calls [ToggleDebuggingControls false; HaltedAtOpcode (Some (-1))]
            <$> editors s !! id
     else editors s !! id)
  ∧ _cached_active_halted_filename (break_released s) = None
  ∧ _cached_active_halted_opcode (break_released s) = None
  ∧ _open_editors (break_released s) = _open_editors s.
Proof.
  cbv zeta.
  destruct (run_invariant ops (new notebook) (new_invariant notebook))
    as [(_ & Hi & _) _].
  set (s := run ops (new notebook)) in *.
  split_and!; [|done|done|].
  - exact (lookup_send_each [ToggleDebuggingControls false; HaltedAtOpcode (Some (-1))]
             (_open_editors s) s id Hi).
  - unfold break_released. simpl. apply send_all_frame.
Qed.

(** X29. In every state that the controller can reach, [focus_by_opcode_addr]
    with a file manager ends with the file open and [focus_opcode] as the
    last call on its editor; without a file manager it fails with [KeyError]
    and changes nothing. *)
Theorem focus_by_opcode_addr_outcome (notebook : N) (ops : list (Op Lines))
    (filename : string) (opcode_addr : Z) :
  let s := run ops (new notebook) in
  let r := focus_by_opcode_addr filename opcode_addr s in
  if file_manager s
  then fst r = Returns tt
       ∧ ∃ id e, dict_get filename (_open_editors (snd r)) = Some id
                 ∧ editors (snd r) !! id = Some e
                 ∧ last (calls e) = Some (FocusOpcode opcode_addr)
  else r = (KeyError, s).
Proof.
  cbv zeta.
  pose proof (run_invariant ops (new notebook) (new_invariant notebook)) as Hinv.
  set (s := run ops (new notebook)) in *.
  destruct (file_manager s) eqn:Hfm.
  - unfold focus_by_opcode_addr.
    set (s1 := match dict_get filename (_open_editors s) with Some _ => _ | None => _ end).
    assert (H1 : invariant s1 ∧ ∃ id, dict_get filename (_open_editors s1) = Some id).
    { unfold s1. destruct (dict_get filename (_open_editors s)) as [id|] eqn:Hget.
      - split; [by eapply invariant_core|]. by exists id.
      - split; [by apply open_invariant|].
        destruct (open_new_state filename s Hfm Hget) as (nb & pnum & ->). simpl.
        rewrite <- dict_set_new by done. eexists. apply dict_get_set. }
    destruct H1 as [[(_ & _ & Hed & _) _] [id Hget1]]. clearbody s1.
    rewrite Hget1. simpl. split; [done|].
    destruct (Hed filename id (dict_get_Some _ _ _ Hget1)) as (e & He & _).
    exists id, (add_call (FocusOpcode opcode_addr) e). split_and!; [done| |].
    + by rewrite list_lookup_alter_eq, He.
    + simpl. by rewrite last_snoc.
  - destruct Hinv as [(_ & _ & _ & Hnofm) _]. specialize (Hnofm Hfm).
    unfold focus_by_opcode_addr, open. by rewrite Hnofm, Hfm; simpl; rewrite Hnofm.
Qed.

Lemma insert_hanger_halt_lines_frame (halt_lines : list (string * Lines)) : ∀ s,
  file_manager (insert_hanger_halt_lines halt_lines s) = file_manager s
  ∧ _open_editors (insert_hanger_halt_lines halt_lines s) = _open_editors s
  ∧ _cached_active_halted_filename (insert_hanger_halt_lines halt_lines s)
    = _cached_active_halted_filename s.
Proof.
  unfold insert_hanger_halt_lines.
  induction halt_lines as [|[f lines] hl IH]; intros s; simpl; [done|].
  match goal with |- context [foldl _ ?s0 hl] => set (s1 := s0) end.
  assert (H1 : file_manager s1 = file_manager s ∧ _open_editors s1 = _open_editors s
               ∧ _cached_active_halted_filename s1 = _cached_active_halted_filename s).
  { unfold s1. by destruct (dict_get f (_open_editors s)). }
  destruct H1 as (H1 & H2 & H3). clearbody s1.
  destruct (IH s1) as (H1' & H2' & H3'). split_and!; etrans; done.
Qed.

Lemma insert_hanger_halt_lines_other (halt_lines : list (string * Lines)) (f : string) : ∀ s,
  f ∉ halt_lines.*1 →
  _cached_hanger_halt_lines (insert_hanger_halt_lines halt_lines s) !! f
  = _cached_hanger_halt_lines s !! f.
Proof.
  unfold insert_hanger_halt_lines.
  induction halt_lines as [|[k v] hl IH]; intros s Hf; simpl; [done|].
  simpl in Hf. apply not_elem_of_cons in Hf as [Hne Hf].
  rewrite IH by done.
  destruct (dict_get k (_open_editors s)); simpl; by rewrite lookup_insert_ne.
Qed.

Lemma insert_hanger_halt_lines_cached (halt_lines : list (string * Lines)) (f : string)
    (lines : Lines) : ∀ s,
  NoDup halt_lines.*1 → (f, lines) ∈ halt_lines →
  _cached_hanger_halt_lines (insert_hanger_halt_lines halt_lines s) !! f = Some lines.
Proof.
  induction halt_lines as [|[k v] hl IH]; intros s; simpl; [by intros _ ?%elem_of_nil|].
  intros [Hk Hnd]%NoDup_cons [[= -> ->]|Hin]%elem_of_cons.
  - unfold insert_hanger_halt_lines. simpl.
    match goal with |- context [foldl _ ?s0 hl] => set (s1 := s0) end.
    change (_cached_hanger_halt_lines (insert_hanger_halt_lines hl s1) !! k = Some v).
    rewrite insert_hanger_halt_lines_other by done.
    unfold s1. destruct (dict_get k (_open_editors s)); simpl; apply lookup_insert_eq.
  - unfold insert_hanger_halt_lines. simpl.
    match goal with |- context [foldl _ ?s0 hl] => set (s1 := s0) end.
    by apply (IH s1).
Qed.

(** X30. The halt lines handed to [insert_hanger_halt_lines] reach an editor that
    is opened later: they are its first call.  After
    [remove_hanger_halt_lines] an editor opened later gets no halt lines. *)
Theorem halt_lines_reach_later_editors s (halt_lines : list (string * Lines))
    (filename : string) (lines : Lines) :
  file_manager s = true → dict_get filename (_open_editors s) = None →
  NoDup halt_lines.*1 → (filename, lines) ∈ halt_lines →
  let s1 := insert_hanger_halt_lines halt_lines s in
  (∃ rest, last (editors (open filename s1))
           = Some (mkEditor filename false (InsertHangerHaltLines lines :: rest)))
  ∧ (∃ rest, last (editors (open filename (remove_hanger_halt_lines s1)))
             = Some (mkEditor filename false rest)
             ∧ ∀ l, InsertHangerHaltLines l ∉ rest).
Proof.
  intros Hfm Hget Hnd Hin. cbv zeta.
  destruct (insert_hanger_halt_lines_frame halt_lines s) as (H1 & H2 & _).
  pose proof (insert_hanger_halt_lines_cached halt_lines filename lines s Hnd Hin) as Hc.
  set (s1 := insert_hanger_halt_lines halt_lines s) in *. split.
  - destruct (open_new_state filename s1) as (nb & pnum & ->); [congruence|congruence|].
    simpl. rewrite last_snoc. unfold calls_on_open. rewrite Hc. simpl. by eexists.
  - unfold remove_hanger_halt_lines.
    destruct (send_all_frame [RemoveHangerHaltLines] (set_halt_lines ∅ s1))
      as (H3 & H4 & H5 & _).
    set (s2 := send_all _ _) in *. simpl in H3, H4, H5.
    destruct (open_new_state filename s2) as (nb & pnum & ->); [congruence|congruence|].
    simpl. rewrite last_snoc. eexists. split; [done|].
    intros l. unfold calls_on_open. rewrite H5, lookup_empty. simpl.
    case_bool_decide; [|apply not_elem_of_nil].
    rewrite !not_elem_of_cons. split_and!; [done|done|apply not_elem_of_nil].
Qed.

End Facts.

Import Demo.

Lemma tab_label_strips_four_characters_witness :
  tab_label demo_script = "enter00"%string
  ∧ modified_markup demo_script true = "<i>enter00*</i>"%string.
Proof.
  destruct (tab_label_strips_four_characters "SCRIPT/D01P11A" "enter00" ".ssb"
              eq_refl eq_refl) as (H1 & _ & _ & H4).
  split; [exact H1|exact H4].
Defined.


Lemma editor_opened_during_halt_witness :
  last (editors (open demo_script (fst (break_pulled demo_script 24 demo_editors))))
  = Some (mkEditor demo_script false
            [ToggleDebuggingControls true; HaltedAtOpcode (Some 24)])
  ∧ last (editors (open demo_script
                     (break_released (fst (break_pulled demo_script 24 demo_editors)))))
    = Some (mkEditor demo_script false []).
Proof.
  destruct (editor_opened_during_halt demo_editors demo_script 24 eq_refl eq_refl)
    as (H1 & H2 & _).
  split; [exact H1|exact H2].
Defined.

Lemma close_tab_unsaved_changes_witness :
  close_tab demo_script 1 true demo_edited = (Returns tt, send 0 Save demo_edited)
  ∧ _open_editors (send 0 Save demo_edited) = [(demo_script, 0%nat)]
  ∧ dict_get demo_script (_open_editors (snd (close_tab demo_script 0 true demo_edited)))
    = None.
Proof.
  assert (Hnd : NoDup (_open_editors demo_edited).*1).
  { apply NoDup_singleton. }
  pose proof (close_tab_unsaved_changes demo_edited demo_script 0
                (mkEditor demo_script true []) 1 true eq_refl eq_refl eq_refl Hnd) as H1.
  pose proof (close_tab_unsaved_changes demo_edited demo_script 0
                (mkEditor demo_script true []) 0 true eq_refl eq_refl eq_refl Hnd) as H0.
  simpl in H1, H0. destruct (H0 eq_refl eq_refl) as (H2 & _).
  split_and!; [exact H1|reflexivity|exact H2].
Defined.

Lemma halt_lines_reach_later_editors_witness :
  (∃ rest,
     last (editors (open demo_script
                      (insert_hanger_halt_lines [(demo_script, "lines"%string)] demo_editors)))
     = Some (mkEditor demo_script false (InsertHangerHaltLines "lines"%string :: rest)))
  ∧ (∃ rest,
       last (editors (open demo_script
                        (remove_hanger_halt_lines
                           (insert_hanger_halt_lines [(demo_script, "lines"%string)]
                              demo_editors))))
       = Some (mkEditor demo_script false rest)
       ∧ ∀ l, InsertHangerHaltLines l ∉ rest).
Proof.
  apply (halt_lines_reach_later_editors demo_editors [(demo_script, "lines"%string)]
           demo_script "lines"%string); [reflexivity|reflexivity|apply NoDup_singleton|].
  apply list_elem_of_singleton. reflexivity.
Defined.

End CodeEditorFacts.
